(** * micro-ROS library builder: a shallow embedding of
      [microros_utils/library_builder.py] and the properties of its
      package bookkeeping, manifest loading, environment set-up and
      archive merge. *)

From Stdlib Require Import ZArith Ascii String List Lia.
From stdpp Require Import base option list strings gmap.

Set Warnings "-register-all,-clear-no-such-hyp".

Local Open Scope string_scope.
Local Open Scope list_scope.

(** ** Python string helpers *)

Module PyStr.

(** [s.endswith(suf)]: some tail of [s] is [suf]. *)
Fixpoint endswith (s suf : string) : bool :=
  String.eqb s suf ||
  match s with
  | EmptyString => false
  | String _ s' => endswith s' suf
  end.

(** [s.split('.')[0]]: the text before the first dot (all of [s] when it
    has none). *)
Fixpoint split_dot_head (s : string) : string :=
  match s with
  | EmptyString => EmptyString
  | String c s' =>
      if Ascii.eqb c "."%char then EmptyString else String c (split_dot_head s')
  end.

(** [s.startswith(p)]. *)
Fixpoint startswith (s p : string) : bool :=
  match p, s with
  | EmptyString, _ => true
  | String a p', String b s' => Ascii.eqb a b && startswith s' p'
  | String _ _, EmptyString => false
  end.

(** [s.replace(old, new)] for a non-empty [old]: the leftmost occurrences
    of [old], taken without overlap, become [new].  [skip] counts the
    characters of an occurrence already replaced that are still to be
    dropped. *)
Fixpoint replace_from (old new s : string) (skip : nat) : string :=
  match s with
  | EmptyString => EmptyString
  | String c s' =>
      match skip with
      | S k => replace_from old new s' k
      | O =>
          if startswith s old
          then new +:+ replace_from old new s' (String.length old - 1)
          else String c (replace_from old new s' 0)
      end
  end.

Definition replace (old new s : string) : string := replace_from old new s 0.

(** [c in s] for a character [c]. *)
Fixpoint mem_char (c : ascii) (s : string) : bool :=
  match s with
  | EmptyString => false
  | String a s' => Ascii.eqb a c || mem_char c s'
  end.

End PyStr.

(** ** Packages and the ignore operation *)

Module Packages.

(** Modelled from the spec: the [Package] class lives in
    [repositories.py], which is not part of the sources at hand.  A package
    has a name, the path of its owning source and a mutable [ignored]
    flag; [ignore()] marks it ignored and nothing un-ignores it. *)
Record Package := mkPackage {
  pkg_name : string;
  pkg_path : string;
  pkg_ignored : bool
}.

Definition ignore (p : Package) : Package :=
  {| pkg_name := pkg_name p; pkg_path := pkg_path p; pkg_ignored := true |}.

(** Python objects are shared by reference: the two package lists of a
    [Build] hold references into one store of [Package] objects. *)
Definition loc := nat.

Record Build := mkBuild {
  heap : gmap loc Package;
  dev_packages : list loc;
  mcu_packages : list loc
}.

(** [if test(p.name): p.ignore()] on the object behind one reference; both
    loops that ignore packages have this body. *)
Definition mark_if (test : string -> bool) (h : gmap loc Package) (l : loc)
  : gmap loc Package :=
  match h !! l with
  | Some p => if test (pkg_name p) then <[l := ignore p]> h else h
  | None => h
  end.

(** [Build.ignore_package]:
    [for p in self.mcu_packages: if p.name == name: p.ignore()]. *)
Definition ignore_package (name : string) (b : Build) : Build :=
  {| heap := foldl (mark_if (fun n => String.eqb n name)) (heap b) (mcu_packages b);
     dev_packages := dev_packages b;
     mcu_packages := mcu_packages b |}.

(** The auto-ignore test of [download_mcu_environment]:
    [package.name in Sources.ignore_packages[distro] or
     package.name.endswith("_cpp")]. *)
Definition auto_ignored (ignore_list : list string) (name : string) : bool :=
  bool_decide (name ∈ ignore_list) || PyStr.endswith name "_cpp".

(** ['\t - Downloaded {}{}'.format(package.name, " (ignored)" if
    package.ignored else "")]. *)
Definition downloaded_line (h : gmap loc Package) (l : loc) : string :=
  match h !! l with
  | Some p => "Downloaded " +:+ pkg_name p
              +:+ (if pkg_ignored p then " (ignored)" else "")
  | None => ""
  end.

(** The inner loop of [download_mcu_environment] over the packages that
    [repo.get_packages()] returned. *)
Definition auto_ignore (ignore_list : list string) (found : list loc)
    (h : gmap loc Package) : gmap loc Package :=
  foldl (mark_if (auto_ignored ignore_list)) h found.

Section Discovery.
(** [Repository.clone] and [Repository.get_packages] belong to
    [repositories.py]; the second is a call that may allocate package
    objects, so it threads the store. *)
Context {Repository : Type}.
Variable get_packages : Repository -> gmap loc Package -> list loc * gmap loc Package.

(** One iteration of [for repo in Sources.mcu_environments[distro]]:
    the packages of the first [get_packages()] call are registered, those
    of the second call go through the auto-ignore test.  The second
    component lists the packages of the second call, for the lines that
    the loop prints. *)
Definition download_repo (ignore_list : list string) (b : Build)
    (repo : Repository) : Build * list loc :=
  let '(registered, h1) := get_packages repo (heap b) in
  let '(found, h2) := get_packages repo h1 in
  ({| heap := auto_ignore ignore_list found h2;
      dev_packages := dev_packages b;
      mcu_packages := (mcu_packages b ++ registered)%list |}, found).

Definition download_mcu_packages (ignore_list : list string)
    (repos : list Repository) (b : Build) : Build :=
  foldl (fun acc repo => (download_repo ignore_list acc repo).1) b repos.
End Discovery.

End Packages.

(** ** Outcomes of Python code *)

(** Exceptions the embedded code can raise. *)
Inductive exn :=
| KeyError | TypeError | YAMLError | AttributeError
| FileNotFoundError | FileExistsError | NotADirectoryError | IsADirectoryError
| IndexError | ShutilError | RecursionError.

(** A call returns normally, leaves through [sys.exit(code)], or raises.
    The last two carry the state reached at that point. *)
Inductive outcome (S A : Type) :=
| Returns (a : A) (s : S)
| Exits (code : Z) (s : S)
| Raises (e : exn) (s : S).
Arguments Returns {S A} a s.
Arguments Exits {S A} code s.
Arguments Raises {S A} e s.

Definition bind {S A B} (m : S -> outcome S A) (k : A -> S -> outcome S B)
  : S -> outcome S B :=
  fun s => match m s with
           | Returns a s' => k a s'
           | Exits c s' => Exits c s'
           | Raises e s' => Raises e s'
           end.

Notation "'let!' x ':=' m 'in' k" := (bind m (fun x => k))
  (at level 10, x pattern, m at level 200, k at level 200).
Notation "'run!' m 'in' k" := (bind m (fun _ => k))
  (at level 10, m at level 200, k at level 200).

Definition final_state {S A} (o : outcome S A) : S :=
  match o with Returns _ s | Exits _ s | Raises _ s => s end.

(** ** Environment set-up: [Build.check_env] *)

Module Env.

(** [os.environ], and the copy kept in [self.env]. *)
Record state := mkState {
  environ : gmap string string;
  self_env : gmap string string
}.

(** Truth value of what [os.getenv] returns: [None] and the empty string
    are false. *)
Definition truthy (v : option string) : bool :=
  match v with
  | Some s => negb (String.eqb s "")
  | None => false
  end.

(** ['/opt/ros/{}/bin:'.format(distro)]. *)
Definition ros_bin_segment (distro : string) : string :=
  "/opt/ros/" +:+ distro +:+ "/bin:".

(** [check_env].  [pycache] is what the two calls in the [try] block give:
    [Some dir] when [os.path.abspath] and [os.makedirs] succeed, [None]
    when one of them raises. *)
Definition check_env (pycache : option string) (st : state)
  : outcome state unit :=
  let env0 := environ st in
  let after_ros :=
    match env0 !! "ROS_DISTRO" with
    | Some distro =>
        if truthy (Some distro) then
          match env0 !! "PATH" with
          | Some path =>
              inr (delete "AMENT_PREFIX_PATH"
                     (<["PATH" := PyStr.replace (ros_bin_segment distro) "" path]> env0))
          | None => inl AttributeError   (* [None.replace] *)
          end
        else inr env0
    | None => inr env0
    end in
  match after_ros with
  | inl e => Raises e st
  | inr env1 =>
      let env2 :=
        if truthy (env1 !! "RMW_IMPLEMENTATION")
        then <["RMW_IMPLEMENTATION" := "rmw_microxrcedds"]> env1
        else env1 in
      let copied := env2 in
      let self_env' :=
        match pycache with
        | Some dir =>
            <["PYTHONDONTWRITEBYTECODE" := "1"]>
              (<["PYTHONPYCACHEPREFIX" := dir]> copied)
        | None => copied
        end in
      Returns tt {| environ := env2; self_env := self_env' |}
  end.

(** An environment of a shell in which a ROS 2 installation is active. *)
Definition sourced_ros : state :=
  {| environ := {[ "ROS_DISTRO" := "jazzy";
                   "PATH" := "/opt/ros/jazzy/bin:/usr/bin";
                   "AMENT_PREFIX_PATH" := "/opt/ros/jazzy";
                   "RMW_IMPLEMENTATION" := "rmw_fastrtps_cpp" ]};
     self_env := ∅ |}.

End Env.

(** ** The extra-packages manifest: [Build.get_repositories_from_yaml] *)

Module Manifest.

(** What [yaml.safe_load] can build from a manifest: scalars, lists and
    mappings with scalar keys, in document order.  (Booleans, floats and
    timestamps are left out of the model.) *)
Inductive scalar := SNull | SInt (z : Z) | SStr (s : string).

Inductive yaml :=
| YScalar (s : scalar)
| YList (l : list yaml)
| YMap (m : list (scalar * yaml)).

#[global] Instance scalar_eq_dec : EqDecision scalar.
Proof. solve_decision. Defined.

Definition YStr (s : string) : yaml := YScalar (SStr s).

(** What opening and parsing the file gives: [open] raises when the file
    is absent, [yaml.safe_load] raises [YAMLError] on malformed text. *)
Inductive load_result :=
| Absent
| Malformed
| Loaded (root : yaml).

(** A Python dict as an association list in insertion order. *)
Fixpoint dict_get {V} (k : scalar) (d : list (scalar * V)) : option V :=
  match d with
  | [] => None
  | (k', v) :: d' => if decide (k' = k) then Some v else dict_get k d'
  end.

Fixpoint dict_set {V} (k : scalar) (v : V) (d : list (scalar * V))
  : list (scalar * V) :=
  match d with
  | [] => [(k, v)]
  | (k', v') :: d' =>
      if decide (k' = k) then (k', v) :: d' else (k', v') :: dict_set k v d'
  end.

(** Python's index into a sequence: negative indices count from the end. *)
Definition seq_index {A} (l : list A) (i : Z) : option A :=
  let n := Z.of_nat (length l) in
  if (0 <=? i)%Z then l !! Z.to_nat i
  else if (0 <=? n + i)%Z then l !! Z.to_nat (n + i)
  else None.

Fixpoint chars (s : string) : list string :=
  match s with
  | EmptyString => []
  | String c s' => String c EmptyString :: chars s'
  end.

(** [v[k]]. *)
Definition getitem (v k : yaml) : exn + yaml :=
  match v with
  | YMap m =>
      match k with
      | YScalar key =>
          match dict_get key m with Some x => inr x | None => inl KeyError end
      | _ => inl TypeError          (* unhashable key *)
      end
  | YList l =>
      match k with
      | YScalar (SInt i) =>
          match seq_index l i with Some x => inr x | None => inl IndexError end
      | _ => inl TypeError
      end
  | YScalar (SStr s) =>
      match k with
      | YScalar (SInt i) =>
          match seq_index (chars s) i with
          | Some c => inr (YStr c)
          | None => inl IndexError
          end
      | _ => inl TypeError
      end
  | YScalar _ => inl TypeError      (* not subscriptable *)
  end.

Definition is_str (s : string) (v : yaml) : bool :=
  match v with
  | YScalar (SStr s') => String.eqb s s'
  | _ => false
  end.

Fixpoint substring_of (needle s : string) : bool :=
  PyStr.startswith s needle ||
  match s with
  | EmptyString => false
  | String _ s' => substring_of needle s'
  end.

(** [k in v] for a string [k]. *)
Definition contains (k : string) (v : yaml) : exn + bool :=
  match v with
  | YMap m => inr (bool_decide (is_Some (dict_get (SStr k) m)))
  | YList l => inr (existsb (is_str k) l)
  | YScalar (SStr s) => inr (substring_of k s)
  | YScalar _ => inl TypeError      (* not iterable *)
  end.

(** Truth value of a loaded document node. *)
Definition truthy (v : yaml) : bool :=
  match v with
  | YScalar SNull => false
  | YScalar (SInt z) => negb (z =? 0)%Z
  | YScalar (SStr s) => negb (String.eqb s "")
  | YList l => negb (bool_decide (l = []))
  | YMap m => negb (bool_decide (m = []))
  end.

(** [for path in v]: the keys of a mapping, the elements of a list, the
    characters of a string. *)
Definition iterate (v : yaml) : exn + list yaml :=
  match v with
  | YMap m => inr (map (fun kv => YScalar (fst kv)) m)
  | YList l => inr l
  | YScalar (SStr s) => inr (map YStr (chars s))
  | YScalar _ => inl TypeError
  end.

(** The dict built for one entry. *)
Record repo := mkRepo {
  repo_type : yaml;
  repo_url : yaml;
  repo_version : option yaml
}.

(** The inner [try] block: read [type], [url] and, when present,
    [version]. *)
Definition read_entry (attributes : yaml) : exn + repo :=
  match getitem attributes (YStr "type") with
  | inl e => inl e
  | inr ty =>
      match getitem attributes (YStr "url") with
      | inl e => inl e
      | inr url =>
          match contains "version" attributes with
          | inl e => inl e
          | inr false => inr (mkRepo ty url None)
          | inr true =>
              match getitem attributes (YStr "version") with
              | inl e => inl e
              | inr ver => inr (mkRepo ty url (Some ver))
              end
          end
      end
  end.

(** [for path in repositories: ...] with the dict [repos] built so far;
    an exception leaves the loop with what was collected. *)
Fixpoint load_entries (repositories : yaml) (paths : list yaml)
    (repos : list (scalar * repo)) : list (scalar * repo) * option exn :=
  match paths with
  | [] => (repos, None)
  | path :: rest =>
      match getitem repositories path with
      | inl e => (repos, Some e)
      | inr attributes =>
          match read_entry attributes with
          | inl KeyError => load_entries repositories rest repos   (* continue *)
          | inl e => (repos, Some e)
          | inr r =>
              match path with
              | YScalar key => load_entries repositories rest (dict_set key r repos)
              | _ => (repos, Some TypeError)
              end
          end
      end
  end.

(** The outer [try] block. *)
Definition load_body (doc : load_result) : list (scalar * repo) * option exn :=
  match doc with
  | Absent => ([], Some FileNotFoundError)
  | Malformed => ([], Some YAMLError)
  | Loaded root =>
      match getitem root (YStr "repositories") with
      | inl e => ([], Some e)
      | inr repositories =>
          if truthy repositories then
            match iterate repositories with
            | inl e => ([], Some e)
            | inr paths => load_entries repositories paths []
            end
          else ([], None)
      end
  end.

(** [except (yaml.YAMLError, KeyError, TypeError)]. *)
Definition handled (e : exn) : bool :=
  match e with
  | YAMLError | KeyError | TypeError => true
  | _ => false
  end.

(** [get_repositories_from_yaml]; the state is the list of lines printed.
    The handler prints, and [finally: return repos] returns the dict
    whatever happened before, dropping an exception that was not
    handled. *)
Definition get_repositories_from_yaml (doc : load_result)
  : list string -> outcome (list string) (list (scalar * repo)) :=
  fun out =>
    let '(repos, raised) := load_body doc in
    let out' :=
      match raised with
      | Some e => if handled e then (out ++ ["Error on extra_packages.repos"])%list else out
      | None => out
      end in
    Returns repos out'.

(** An entry that has both required fields. *)
Definition complete (attributes : yaml) : bool :=
  match attributes with
  | YMap m => bool_decide (is_Some (dict_get (SStr "type") m)) &&
              bool_decide (is_Some (dict_get (SStr "url") m))
  | _ => false
  end.

(** The entry a mapping of attributes resolves to: none when [type] or
    [url] is missing. *)
Definition resolve_entry (kv : scalar * yaml) : option (scalar * repo) :=
  match snd kv with
  | YMap m =>
      match dict_get (SStr "type") m, dict_get (SStr "url") m with
      | Some ty, Some url =>
          Some (fst kv, mkRepo ty url (dict_get (SStr "version") m))
      | _, _ => None
      end
  | _ => None
  end.

Definition is_mapping (v : yaml) : Prop := exists m, v = YMap m.

Definition git_entry (url : string) : yaml :=
  YMap [(SStr "type", YStr "git"); (SStr "url", YStr url)].

(** Three entries, the second without [url]. *)
Definition three_entries : yaml :=
  YMap [(SStr "repositories",
         YMap [(SStr "a", git_entry "https://example.org/a.git");
               (SStr "b", YMap [(SStr "type", YStr "git")]);
               (SStr "c", YMap [(SStr "type", YStr "git");
                                (SStr "url", YStr "https://example.org/c.git");
                                (SStr "version", YStr "main")])])].

(** An entry with nothing under its key, followed by a complete one. *)
Definition null_entry_first : yaml :=
  YMap [(SStr "repositories",
         YMap [(SStr "a", YScalar SNull);
               (SStr "b", git_entry "https://example.org/b.git")])].

End Manifest.

(** ** The file system *)

Module FS.

(** File contents: plain data, or a static archive with its members in
    order (archive members are themselves files). *)
Inductive fdata :=
| Blob (content : string)
| Archive (members : list (string * fdata)).

(** A directory tree; a directory maps names to its entries. *)
Inductive node :=
| File (d : fdata)
| Dir (es : gmap string node).

(** A path is the list of its components, from the root of the tree. *)
Definition path := list string.

Fixpoint get (p : path) (n : node) : option node :=
  match p with
  | [] => Some n
  | k :: p' =>
      match n with
      | Dir es => es !! k ≫= get p'
      | File _ => None
      end
  end.

(** [update p f n] rewrites the entry at [p] with [f]: [f] sees the entry
    ([None] when the parent directory has none by that name) and returns
    the new one ([None] removes it).  Nothing changes when the parent of
    [p] is not a directory; the root is never removed. *)
Fixpoint update (p : path) (f : option node -> option node) (n : node) : node :=
  match p with
  | [] => default n (f (Some n))
  | k :: p' =>
      match n with
      | Dir es =>
          match p' with
          | [] => Dir (partial_alter f k es)
          | _ :: _ => Dir (alter (update p' f) k es)
          end
      | File _ => n
      end
  end.

Definition put (p : path) (x : node) : node -> node := update p (fun _ => Some x).
Definition remove (p : path) : node -> node := update p (fun _ => None).

(** [os.path.exists], [os.path.isdir]. *)
Definition exists_ (p : path) (fs : node) : bool := bool_decide (is_Some (get p fs)).

Definition isdir (p : path) (fs : node) : bool :=
  match get p fs with
  | Some (Dir _) => true
  | _ => false
  end.

Definition names (es : gmap string node) : list string := (map_to_list es).*1.

(** [os.listdir]; [None] when [p] is not a directory. *)
Definition listdir (p : path) (fs : node) : option (list string) :=
  match get p fs with
  | Some (Dir es) => Some (names es)
  | _ => None
  end.

Definition parent (p : path) : path := removelast p.

(** Two paths neither of which lies at or below the other. *)
Definition apart (p q : path) : Prop :=
  ~ p `prefix_of` q /\ ~ q `prefix_of` p.

(** [s] lies strictly below [top]; [d] is [top] or lies below it. *)
Definition below (top s : path) : Prop := exists k t, s = top ++ k :: t.
Definition at_or_below (top d : path) : Prop := exists t, d = top ++ t.

(** [fs'] differs from [fs] only below [p]: paths apart from [p] hold what
    they held, and the directories on the way to [p] are still
    directories. *)
Definition confined (p : path) (fs fs' : node) : Prop :=
  (forall q, apart p q -> get q fs' = get q fs) /\
  (forall q, q `prefix_of` p -> isdir q fs = true -> isdir q fs' = true).

(** [shutil.rmtree(p, ignore_errors=True)]: a directory goes with all it
    holds; a missing path or a plain file is an error that is ignored. *)
Definition rmtree_ignore_errors (p : path) (fs : node) : node :=
  match get p fs with
  | Some (Dir _) => remove p fs
  | _ => fs
  end.

(** [shutil.rmtree(p)]. *)
Definition rmtree (p : path) (fs : node) : exn + node :=
  match get p fs with
  | Some (Dir _) => inr (remove p fs)
  | Some (File _) => inl NotADirectoryError
  | None => inl FileNotFoundError
  end.

(** [os.makedirs(p, exist_ok=True)], from the node [p] is relative to:
    missing directories are created along the way; a file on the way is an
    error and then nothing is created. *)
Fixpoint makedirs (p : path) (n : node) : exn + node :=
  match p with
  | [] =>
      match n with
      | Dir _ => inr n
      | File _ => inl FileExistsError
      end
  | k :: p' =>
      match n with
      | File _ => inl NotADirectoryError
      | Dir es =>
          match makedirs p' (default (Dir ∅) (es !! k)) with
          | inl e => inl e
          | inr c => inr (Dir (<[k := c]> es))
          end
      end
  end.

(** [os.rename(src, dst)] where the target may be replaced (POSIX): it
    replaces a file at [dst]; a directory at [dst] is an error, as is a
    missing source or parent. *)
Definition rename (src dst : path) (fs : node) : exn + node :=
  match get src fs with
  | None => inl FileNotFoundError
  | Some x =>
      if isdir (parent dst) fs then
        match x, get dst fs with
        | File _, Some (Dir _) => inl IsADirectoryError
        | Dir _, Some (File _) => inl NotADirectoryError
        | Dir _, Some (Dir es) =>
            if bool_decide (es = ∅) then inr (put dst x (remove src fs))
            else inl FileExistsError
        | _, _ => inr (put dst x (remove src fs))
        end
      else inl FileNotFoundError
  end.

(** [os.rename(src, dst)] on the platform [platform]: on Windows
    ([sys.platform] is [win32]) an existing [dst] is an error
    ([FileExistsError]) and nothing is renamed; elsewhere [dst] is
    replaced as [rename] has it. *)
Definition os_rename (platform : string) (src dst : path) (fs : node) : exn + node :=
  if String.eqb platform "win32" && exists_ dst fs then inl FileExistsError
  else rename src dst fs.

(** Writing a file the way a tool does: over a file or a free name of an
    existing directory; a directory in the way stays. *)
Definition write_file (p : path) (d : fdata) (fs : node) : node :=
  if isdir (parent p) fs then
    match get p fs with
    | Some (Dir _) => fs
    | _ => put p (File d) fs
    end
  else fs.

Definition is_file (n : node) : bool :=
  match n with
  | File _ => true
  | Dir _ => false
  end.

(** [os.walk(top)]: every directory below [top], each with the names of
    its files, a directory before its subdirectories.  A missing [top] or a
    plain file gives nothing.  The order in which a directory lists its
    entries is the file system's and not the program's: [order root names]
    is the order in which the directory [root] lists its entries [names].
    The files are reported in that order, and the subdirectories are
    visited in that order. *)
Fixpoint walk_node (order : path -> list string -> list string)
    (root : path) (n : node) : list (path * list string) :=
  match n with
  | File _ => []
  | Dir es =>
      let listed := order root (names es) in
      let visited :=
        map_fold (fun k c acc => <[k := walk_node order (root ++ [k]) c]> acc)
                 (∅ : gmap string (list (path * list string))) es in
      (root, List.filter (fun k => match es !! k with
                                   | Some (File _) => true
                                   | _ => false
                                   end) listed)
      :: concat (omap (fun k => visited !! k) listed)
  end.

(** The number of files and directories of a tree. *)
Fixpoint size (n : node) : nat :=
  match n with
  | File _ => 1
  | Dir es => S (map_fold (fun _ c acc => size c + acc) 0 es)
  end.

Definition walk (order : path -> list string -> list string)
    (top : path) (fs : node) : list (path * list string) :=
  match get top fs with
  | Some n => walk_node order top n
  | None => []
  end.

End FS.

(** ** [shutil.copytree] *)

Module Shutil.
Import FS.

Definition basename (p : path) : string := List.last p "".

(** [os.makedirs(dst, exist_ok=dirs_exist_ok)]. *)
Definition makedirs_for (dirs_exist_ok : bool) (dst : path) (fs : node)
  : exn + node :=
  if dirs_exist_ok then makedirs dst fs
  else if exists_ dst fs then inl FileExistsError else makedirs dst fs.

(** [shutil.copy2(src, dst)] of a file: into [dst] when that is a
    directory, onto [dst] otherwise. *)
Definition copy2 (src dst : path) (fs : node) : exn + node :=
  match get src fs with
  | Some (File d) =>
      let target := if isdir dst fs then dst ++ [basename src] else dst in
      match get target fs with
      | Some (Dir _) => inl IsADirectoryError
      | _ =>
          if isdir (parent target) fs then inr (put target (File d) fs)
          else inl FileNotFoundError
      end
  | Some (Dir _) => inl IsADirectoryError
  | None => inl FileNotFoundError
  end.

(** [shutil.move(src, dst)] of a file: into [dst] when that is a
    directory, unless the name is taken there; a rename otherwise.  The
    file at [dst] is replaced on every platform: where [os.rename] refuses
    an existing target, [shutil.move] copies over it and removes the
    source. *)
Definition move (src dst : path) (fs : node) : exn + node :=
  if isdir dst fs then
    let real_dst := dst ++ [basename src] in
    if exists_ real_dst fs then inl ShutilError else rename src real_dst fs
  else rename src dst fs.

Inductive copy_function := Copy2 | Move.

Definition apply_copy (cf : copy_function) : path -> path -> node -> exn + node :=
  match cf with
  | Copy2 => copy2
  | Move => move
  end.

(** The loop of [_copytree] over the entries that [os.scandir(src)] listed
    (name and kind).  [recurse] is the recursive [copytree] call for a
    subdirectory.  An [OSError] of one entry is recorded in [errors] and the
    loop goes on; a [RecursionError] is not an [OSError] and leaves at
    once. *)
Fixpoint copy_entries (recurse : path -> path -> node -> node * option exn)
    (ignore : string -> bool) (cf : copy_function) (src dst : path)
    (entries : list (string * node)) (fs : node) (errors : bool)
  : node * bool * bool :=
  match entries with
  | [] => (fs, errors, false)
  | (name, entry) :: rest =>
      if ignore name then copy_entries recurse ignore cf src dst rest fs errors
      else
        match entry with
        | Dir _ =>
            match recurse (src ++ [name]) (dst ++ [name]) fs with
            | (fs', Some RecursionError) => (fs', errors, true)
            | (fs', Some _) => copy_entries recurse ignore cf src dst rest fs' true
            | (fs', None) => copy_entries recurse ignore cf src dst rest fs' errors
            end
        | File _ =>
            match apply_copy cf (src ++ [name]) (dst ++ [name]) fs with
            | inl _ => copy_entries recurse ignore cf src dst rest fs true
            | inr fs' => copy_entries recurse ignore cf src dst rest fs' errors
            end
        end
  end.

(** [shutil.copytree(src, dst, ignore=..., copy_function=...,
    dirs_exist_ok=...)] on the tree [fs]: the tree afterwards and the
    exception raised, if any.  [limit] is the depth of recursion that the
    interpreter still allows; Python raises [RecursionError] beyond it. *)
Fixpoint copytree (limit : nat) (ignore : string -> bool) (cf : copy_function)
    (dirs_exist_ok : bool) (src dst : path) (fs : node) : node * option exn :=
  match limit with
  | O => (fs, Some RecursionError)
  | S limit' =>
      match get src fs with
      | Some (Dir es) =>
          let entries := map_to_list es in
          match makedirs_for dirs_exist_ok dst fs with
          | inl e => (fs, Some e)
          | inr fs1 =>
              match copy_entries (copytree limit' ignore cf dirs_exist_ok)
                                 ignore cf src dst entries fs1 false with
              | (fs2, _, true) => (fs2, Some RecursionError)
              | (fs2, true, false) => (fs2, Some ShutilError)
              | (fs2, false, false) => (fs2, None)
              end
          end
      | Some (File _) => (fs, Some NotADirectoryError)
      | None => (fs, Some FileNotFoundError)
      end
  end.

(** [shutil.ignore_patterns('extra_packages.repos')]: a pattern without
    wildcards matches that name only. *)
Definition ignore_manifest (name : string) : bool :=
  String.eqb name "extra_packages.repos".

Definition ignore_nothing (name : string) : bool := false.

End Shutil.

(** ** The build pipeline: state, folders and small steps *)

Module Pipeline.
Import FS Shutil.

(** What a run can observe and change: the file system, the working
    directory, what was printed, the commands handed to the shell, the
    process environment with the copy kept in [self.env], and the package
    objects. *)
Record World := mkWorld {
  fs : node;
  cwd : path;
  stdout : list string;
  commands : list string;
  env : Env.state;
  pkgs : Packages.Build
}.

Definition with_fs (x : node) (w : World) : World :=
  {| fs := x; cwd := cwd w; stdout := stdout w; commands := commands w;
     env := env w; pkgs := pkgs w |}.

Definition with_cwd (p : path) (w : World) : World :=
  {| fs := fs w; cwd := p; stdout := stdout w; commands := commands w;
     env := env w; pkgs := pkgs w |}.

Definition with_env (e : Env.state) (w : World) : World :=
  {| fs := fs w; cwd := cwd w; stdout := stdout w; commands := commands w;
     env := e; pkgs := pkgs w |}.

Definition ret {A} (a : A) : World -> outcome World A := fun w => Returns a w.

(** [print(line)]. *)
Definition print (line : string) : World -> outcome World unit :=
  fun w => Returns tt {| fs := fs w; cwd := cwd w; stdout := stdout w ++ [line];
                         commands := commands w; env := env w; pkgs := pkgs w |}.

(** [sys.exit(code)]. *)
Definition sys_exit {A} (code : Z) : World -> outcome World A :=
  fun w => Exits code w.

(** The shell was given [command]. *)
Definition log_command (command : string) (w : World) : World :=
  {| fs := fs w; cwd := cwd w; stdout := stdout w;
     commands := commands w ++ [command]; env := env w; pkgs := pkgs w |}.

(** A file-system call that may raise; a call that raises changes
    nothing. *)
Definition fs_call (op : node -> exn + node) : World -> outcome World unit :=
  fun w => match op (fs w) with
           | inr x => Returns tt (with_fs x w)
           | inl e => Raises e w
           end.

(** A file-system call that cannot raise. *)
Definition fs_do (op : node -> node) : World -> outcome World unit :=
  fun w => Returns tt (with_fs (op (fs w)) w).

(** A call that reports the state it reached together with its
    exception. *)
Definition fs_try (op : node -> node * option exn) : World -> outcome World unit :=
  fun w => match op (fs w) with
           | (x, None) => Returns tt (with_fs x w)
           | (x, Some e) => Raises e (with_fs x w)
           end.

(** [os.chdir(p)]. *)
Definition chdir (p : path) : World -> outcome World unit :=
  fun w => match get p (fs w) with
           | Some (Dir _) => Returns tt (with_cwd p w)
           | Some (File _) => Raises NotADirectoryError w
           | None => Raises FileNotFoundError w
           end.

(** [os.listdir()] of the working directory. *)
Definition listdir_cwd : World -> outcome World (list string) :=
  fun w => match listdir (cwd w) (fs w) with
           | Some l => Returns l w
           | None => Raises FileNotFoundError w
           end.

(** [for x in l: body(x)]. *)
Fixpoint for_each {A} (l : list A) (body : A -> World -> outcome World unit)
  : World -> outcome World unit :=
  match l with
  | [] => ret tt
  | x :: rest => run! body x in for_each rest body
  end.

(** A specification of a step: from a state satisfying [P], a normal return
    satisfies [Q]; leaving through [sys.exit] happens with a nonzero code,
    and then, as when an exception is raised, the state satisfies [X]. *)
Definition triple {A} (P : World -> Prop) (m : World -> outcome World A)
    (Q : A -> World -> Prop) (X : World -> Prop) : Prop :=
  forall w, P w ->
    match m w with
    | Returns a w' => Q a w'
    | Exits code w' => code <> 0%Z /\ X w'
    | Raises _ w' => X w'
    end.

(** The tree holds [v] at the path [q]; the same, with the working
    directory being [dir]. *)
Definition holds (q : path) (v : option node) (w : World) : Prop :=
  get q (fs w) = v.

Definition holds_in (dir q : path) (v : option node) (w : World) : Prop :=
  holds q v w /\ cwd w = dir.

(** The folders of a [Build].  [build_folder] is [library_folder/build]
    unless [__init__] took the short temporary folder it uses for long
    Windows paths. *)
Record Build := mkBuild {
  library_folder : path;
  packages_folder : path;
  build_folder : path
}.

Definition default_build (library : path) : path := library ++ ["build"].

Definition dev_folder (b : Build) : path := build_folder b ++ ["dev"].
Definition dev_src_folder (b : Build) : path := dev_folder b ++ ["src"].
Definition mcu_folder (b : Build) : path := build_folder b ++ ["mcu"].
Definition mcu_src_folder (b : Build) : path := mcu_folder b ++ ["src"].
Definition library_path (b : Build) : path := library_folder b ++ ["libmicroros"].
Definition library (b : Build) : path := library_path b ++ ["libmicroros.a"].
Definition includes (b : Build) : path := library_path b ++ ["include"].
Definition aux_folder (b : Build) : path := build_folder b ++ ["aux"].

End Pipeline.

(** ** Archive merge and include flattening: [Build.package_mcu_library] *)

Module Merge.
Import FS Shutil Pipeline.

(** The program puts file names on its command lines as they are, without
    quotes.  [shell_word s]: the shell reads the text [s] as one word and
    hands it on unchanged, and no tool takes it for an option: [s] is not
    empty, does not begin with a dash, and holds only letters, digits and
    the characters [_ . / + -]. *)
Definition shell_char (c : ascii) : bool :=
  let n := nat_of_ascii c in
  (48 <=? n)%nat && (n <=? 57)%nat || (65 <=? n)%nat && (n <=? 90)%nat
  || (97 <=? n)%nat && (n <=? 122)%nat || PyStr.mem_char c "_./+-".

Fixpoint all_chars (P : ascii -> bool) (s : string) : bool :=
  match s with
  | EmptyString => true
  | String c s' => P c && all_chars P s'
  end.

Definition shell_word (s : string) : bool :=
  match s with
  | EmptyString => false
  | String c _ => negb (Ascii.eqb c "-"%char) && all_chars shell_char s
  end.

(** [ar x archive] run in [dir]: every member becomes a file of [dir], a
    later member of the same name replacing an earlier one.  A file that
    is no archive makes [ar] fail without extracting anything. *)
Definition ar_extract (dir archive : path) (fs : node) : node :=
  match get archive fs with
  | Some (File (Archive members)) =>
      foldl (fun x m => write_file (dir ++ [m.1]) m.2 x) fs members
  | _ => fs
  end.

(** [os.system("{}ar x {}".format(binutils_path, root + "/" + f))]: the
    status is not looked at.  When the path is one word for the shell the
    archiver extracts that archive; otherwise the shell makes other words
    of it, and what the command then does is left to [run_cmd], the shell
    as the caller has it. *)
Definition os_system_ar_x (run_cmd : string -> path -> node -> Z * node)
    (binutils : string) (archive : path) : World -> outcome World unit :=
  fun w =>
    let command := binutils +:+ "ar x " +:+ String.concat "/" archive in
    if shell_word (String.concat "/" archive) then
      Returns tt (log_command command (with_fs (ar_extract (cwd w) archive (fs w)) w))
    else
      Returns tt (log_command command (with_fs (run_cmd command (cwd w) (fs w)).2 w)).

(** The name a member gets in the staging folder:
    [f.split('.')[0] + "__" + obj]. *)
Definition staged_name (f obj : string) : string :=
  PyStr.split_dot_head f +:+ "__" +:+ obj.

(** The body of the two loops for one file [f] of a directory [root] that
    [os.walk] reported. *)
Definition stage_file (platform : string) (run_cmd : string -> path -> node -> Z * node)
    (binutils : string) (aux : path) (root : path) (f : string)
  : World -> outcome World unit :=
  if PyStr.endswith f ".a" then
    run! fs_call (makedirs (aux ++ ["naming"])) in
    run! chdir (aux ++ ["naming"]) in
    run! os_system_ar_x run_cmd binutils (root ++ [f]) in
    let! listed := listdir_cwd in
    for_each (List.filter (fun x => PyStr.endswith x "obj") listed)
      (fun obj w =>
         fs_call (os_rename platform (cwd w ++ [obj])
                    (parent (cwd w) ++ [staged_name f obj])) w)
  else ret tt.

Definition stage_archives (platform : string)
    (run_cmd : string -> path -> node -> Z * node) (binutils : string) (aux : path)
    (walked : list (path * list string)) : World -> outcome World unit :=
  for_each walked (fun rf =>
    for_each rf.2 (fun f => stage_file platform run_cmd binutils aux rf.1 f)).

(** The names [*.o *.obj] expands to: not hidden, ending in [.o] or
    [.obj]. *)
Definition glob_objects (name : string) : bool :=
  negb (PyStr.startswith name ".") &&
  (PyStr.endswith name ".o" || PyStr.endswith name ".obj").

Definition matching_files (es : gmap string node) : list (string * fdata) :=
  omap (fun kv => match kv.2 with
                  | File d => if glob_objects kv.1 then Some (kv.1, d) else None
                  | Dir _ => None
                  end) (map_to_list es).

(** The merge command line hands the names that [ls *.o *.obj] prints to
    the archiver unquoted.  [merge_ready es]: in a working directory with
    the entries [es] every name the pattern matches is a file and one word
    for the shell, and there is no [libmicroros.a] yet that the archiver
    would add to. *)
Definition merge_ready (es : gmap string node) : bool :=
  bool_decide (es !! "libmicroros.a" = None) &&
  forallb (fun kv => negb (glob_objects kv.1) || (is_file kv.2 && shell_word kv.1))
          (map_to_list es).

(** The merge command line in a working directory that is [merge_ready],
    when every tool succeeds: [ar rc libmicroros.a $(ls *.o *.obj)]
    archives the matching files under their names, [rm *.o *.obj] deletes
    them and [ranlib] rebuilds the index without changing the members; the
    status is that of [ranlib].  Elsewhere ([None]) the words the archiver
    gets are not the names of the files, and the model says nothing. *)
Definition merge_command (dir : path) (fs : node) : option (Z * node) :=
  match get dir fs with
  | Some (Dir es) =>
      if merge_ready es then
        let members := matching_files es in
        let written := write_file (dir ++ ["libmicroros.a"]) (Archive members) fs in
        Some (0%Z, foldl (fun x m => remove (dir ++ [m.1]) x) written members)
      else None
  | _ => None
  end.

(** The staging folder as the loops keep it: the staged files [staged] and
    the folder [naming] with the files [extracted] there. *)
Definition staging (staged extracted : gmap string fdata) : node :=
  Dir (<["naming" := Dir (File <$> extracted)]> (File <$> staged)).

(** The members of the archive that [os.walk] reported as file [rf.2] of
    the directory [rf.1]; none when the file is not called [*.a] or is no
    archive. *)
Definition archive_members (fs : node) (rf : path * string) : list (string * fdata) :=
  if PyStr.endswith rf.2 ".a" then
    match get (rf.1 ++ [rf.2]) fs with
    | Some (File (Archive members)) => members
    | _ => []
    end
  else [].

(** The files [os.walk] reports, each with its directory. *)
Definition walked_files (walked : list (path * list string)) : list (path * string) :=
  concat (map (fun rf => map (fun f => (rf.1, f)) rf.2) walked).

(** What the merged archive is expected to hold: each member of each input
    archive under its staged name. *)
Definition staged_members (f : string) (members : list (string * fdata))
  : list (string * fdata) :=
  map (fun m => (staged_name f m.1, m.2)) members.

Definition expected_members (fs : node) (files : list (path * string))
  : list (string * fdata) :=
  concat (map (fun rf => staged_members rf.2 (archive_members fs rf)) files).

(** The staged files after the archives [files] have been gone through,
    starting from the staged files [staged]: the members of each archive
    are added under their staged names, a name that is staged again taking
    the newer file. *)
Definition stage_map (fs : node) (files : list (path * string))
    (staged : gmap string fdata) : gmap string fdata :=
  foldl (fun acc rf =>
           kmap (staged_name rf.2) (list_to_map (archive_members fs rf)) ∪ acc)
        staged files.

(** The staging folder [aux] holds the staged files [staged] and at most an
    empty [naming] folder. *)
Definition aux_ready (aux : path) (staged : gmap string fdata) (w : World) : Prop :=
  staged !! "naming" = None /\
  (get aux (fs w) = Some (Dir (File <$> staged)) \/
   get aux (fs w) = Some (staging staged ∅)).

(** Away from [aux] the tree is as in [fs0]. *)
Definition unchanged_apart (aux : path) (fs0 : node) (w : World) : Prop :=
  forall q, apart aux q -> get q (fs w) = get q fs0.

(** An input file that the staging loop handles as intended: it lies away
    from the staging folder, and if it is an archive its path is one word for
    the shell and its members have distinct names that end in [obj]. *)
Definition stageable (aux : path) (fs : node) (rf : path * string) : Prop :=
  apart aux (rf.1 ++ [rf.2]) /\
  (PyStr.endswith rf.2 ".a" = true ->
   shell_word (String.concat "/" (rf.1 ++ [rf.2])) = true) /\
  NoDup (archive_members fs rf).*1 /\
  (forall m, m ∈ (archive_members fs rf).*1 -> PyStr.endswith m "obj" = true).

(** Where [os.rename] does not replace a file, the staging loop is followed
    only as long as no name is staged twice: [fresh_names platform names S]
    says that on such a platform the names to come are distinct and none of
    them is among the staged files [S]. *)
Definition fresh_names (platform : string) (names : list string)
    (S : gmap string fdata) : Prop :=
  String.eqb platform "win32" = true ->
  NoDup names /\ forall k, k ∈ names -> S !! k = None.

(** An input file whose names the command lines can carry: if it is an
    archive, its path is one word for the shell, and the names of its
    members end in [.obj] and make staged names that are one word each. *)
Definition well_named (fs : node) (rf : path * string) : Prop :=
  (PyStr.endswith rf.2 ".a" = true ->
   shell_word (String.concat "/" (rf.1 ++ [rf.2])) = true) /\
  (forall m, m ∈ (archive_members fs rf).*1 ->
     PyStr.endswith m ".obj" = true /\ shell_word (staged_name rf.2 m) = true).

(** The include fix for one folder of the include root. *)
Definition flatten_folder (limit : nat) (includes : path) (folder : string)
    (fs : node) : node * option exn :=
  let folder_path := includes ++ [folder] in
  let repeated_path := folder_path ++ [folder] in
  if exists_ repeated_path fs then
    match copytree limit ignore_nothing Move true repeated_path folder_path fs with
    | (fs1, Some e) => (fs1, Some e)
    | (fs1, None) =>
        match rmtree repeated_path fs1 with
        | inl e => (fs1, Some e)
        | inr fs2 => (fs2, None)
        end
    end
  else (fs, None).

Fixpoint flatten_folders (limit : nat) (includes : path) (folders : list string)
    (fs : node) : node * option exn :=
  match folders with
  | [] => (fs, None)
  | folder :: rest =>
      match flatten_folder limit includes folder fs with
      | (fs1, Some e) => (fs1, Some e)
      | (fs1, None) => flatten_folders limit includes rest fs1
      end
  end.

(** The flatten pass: [include_folders = os.listdir(self.includes)] and the
    loop over it. *)
Definition flatten_includes (limit : nat) (includes : path) (fs : node)
  : node * option exn :=
  match listdir includes fs with
  | Some include_folders => flatten_folders limit includes include_folders fs
  | None => (fs, Some FileNotFoundError)
  end.

Section PackageLibrary.
(** [sys.platform], the recursion depth the interpreter allows, the order
    in which directories list their entries, and the shell as [run_cmd] of
    [utils.py] reaches it: for a command line and the directory it runs
    in, the return code and the tree it leaves. *)
Variable platform : string.
Variable limit : nat.
Variable order : path -> list string -> list string.
Variable run_cmd : string -> path -> node -> Z * node.

Definition homebrew_binutils_path : path :=
  ["opt"; "homebrew"; "opt"; "binutils"; "bin"].

(** [resolve_binutils_path]. *)
Definition resolve_binutils_path : World -> outcome World string :=
  if String.eqb platform "darwin" then
    fun w =>
      if exists_ homebrew_binutils_path (fs w)
      then ret "/opt/homebrew/opt/binutils/bin/" w
      else (run! print "ERROR: GNU binutils not found." in sys_exit 1) w
  else ret "".

(** The merge command line. *)
Definition merge_command_line (binutils : string) : string :=
  binutils +:+ "ar rc libmicroros.a $(ls *.o *.obj 2> /dev/null); "
  +:+ "rm *.o *.obj 2> /dev/null; " +:+ binutils +:+ "ranlib libmicroros.a".

(** [result = run_cmd(command)] in the working directory. *)
Definition run_merge (binutils : string) : World -> outcome World Z :=
  fun w =>
    let command := merge_command_line binutils in
    let '(returncode, x) := run_cmd command (cwd w) (fs w) in
    Returns returncode (log_command command (with_fs x w)).

(** [package_mcu_library]. *)
Definition package_mcu_library (b : Build) : World -> outcome World unit :=
  let! binutils_path := resolve_binutils_path in
  let aux := aux_folder b in
  run! fs_do (rmtree_ignore_errors aux) in
  run! fs_do (rmtree_ignore_errors (library_path b)) in
  run! fs_call (makedirs aux) in
  run! fs_call (makedirs (library_path b)) in
  run! (fun w => stage_archives platform run_cmd binutils_path aux
                   (walk order (mcu_folder b ++ ["install"; "lib"]) (fs w)) w) in
  run! chdir aux in
  let! returncode := run_merge binutils_path in
  if negb (returncode =? 0)%Z then
    run! print "micro-ROS static library build failed" in
    sys_exit 1
  else
    run! (fun w => fs_call (os_rename platform (cwd w ++ ["libmicroros.a"])
                              (library b)) w) in
    run! fs_try (copytree limit ignore_nothing Copy2 false
                   (build_folder b ++ ["mcu"; "install"; "include"]) (includes b)) in
    fs_try (flatten_includes limit (includes b)).

End PackageLibrary.

End Merge.

(** ** The driver: [Build.run] and the stages before the merge *)

Module Driver.
Import FS Shutil Pipeline Merge.

(** The text of a path, as the commands spell it. *)
Definition text (p : path) : string := String.concat "/" p.

Definition dquote : string := String (Ascii.ascii_of_nat 34) EmptyString.
Definition quoted (s : string) : string := dquote +:+ s +:+ dquote.

Section Stages.
(** [sys.platform], [sys.executable], the recursion depth still allowed,
    the order in which directories list their entries, and the
    collaborators that are not part of the sources at hand: [run_cmd] of
    [utils.py], and from [repositories.py] the catalogs of [Sources],
    [Repository.clone] and [Repository.get_packages]. *)
Variable platform : string.
Variable python_exec : string.
Variable limit : nat.
Variable order : path -> list string -> list string.
Variable run_cmd : string -> path -> node -> Z * node.
Context {Repository : Type}.
Variable dev_environments : list Repository.
Variable mcu_environments : list Repository.
Variable ignore_packages : list string.
Variable clone : Repository -> path -> World -> outcome World unit.
Variable get_packages :
  Repository -> gmap Packages.loc Packages.Package ->
  list Packages.loc * gmap Packages.loc Packages.Package.
Variable load_yaml : path -> node -> Manifest.load_result.
Variable clone_extra :
  Manifest.scalar -> Manifest.repo -> path -> World -> outcome World unit.
Variables (distro python_env : string).

Definition with_pkgs (p : Packages.Build) (w : World) : World :=
  {| fs := fs w; cwd := cwd w; stdout := stdout w; commands := commands w;
     env := env w; pkgs := p |}.

(** [check_env] on the environment of the run.  The [try] block makes the
    directory [<build_folder>/pycache]; when that fails nothing is made and
    the two variables stay unset.  An exception of the lines before the
    [try] block leaves the tree as it is. *)
Definition check_env (b : Build) : World -> outcome World unit :=
  fun w =>
    let pycache_dir := build_folder b ++ ["pycache"] in
    let '(pycache, x) :=
      match makedirs pycache_dir (fs w) with
      | inr x => (Some (text pycache_dir), x)
      | inl _ => (None, fs w)
      end in
    match Env.check_env pycache (env w) with
    | Returns _ e => Returns tt (with_env e (with_fs x w))
    | Exits c e => Exits c (with_env e w)
    | Raises err e => Raises err (with_env e w)
    end.

(** [result = run_cmd(command, env=self.env)] followed by the test of the
    return code. *)
Definition run_or_exit (command failure : string) : World -> outcome World unit :=
  fun w =>
    let '(returncode, x) := run_cmd command (cwd w) (fs w) in
    let w' := log_command command (with_fs x w) in
    if negb (returncode =? 0)%Z
    then (run! print failure in sys_exit 1) w'
    else ret tt w'.

Definition download_dev_environment (b : Build) : World -> outcome World unit :=
  run! fs_call (makedirs (dev_src_folder b)) in
  run! print "Downloading micro-ROS dev dependencies" in
  for_each dev_environments (fun repo =>
    run! clone repo (dev_src_folder b) in
    run! print "Downloaded" in
    fun w =>
      let '(found, h) := get_packages repo (Packages.heap (pkgs w)) in
      ret tt (with_pkgs {| Packages.heap := h;
                           Packages.dev_packages :=
                             Packages.dev_packages (pkgs w) ++ found;
                           Packages.mcu_packages :=
                             Packages.mcu_packages (pkgs w) |} w)).

Definition source_commands : string * string :=
  if String.eqb platform "win32" then
    ("call " +:+ quoted (PyStr.replace "/bin/activate" "/Scripts/activate.bat" python_env),
     "-G Ninja")
  else (". " +:+ python_env, "").

Definition build_dev_environment (b : Build) : World -> outcome World unit :=
  run! print "Building micro-ROS dev dependencies" in
  let touch_command :=
    if String.eqb distro "rolling" || String.eqb distro "kilted"
    then "touch src/ament_cmake_ros/rmw_test_fixture_implementation/COLCON_IGNORE && "
    else "" in
  let '(source_cmd, generator_flag) := source_commands in
  let cmake_args := generator_flag +:+ " -DBUILD_TESTING=OFF -DPython3_EXECUTABLE="
                    +:+ quoted python_exec in
  let command := "cd " +:+ quoted (text (dev_folder b)) +:+ " && " +:+ touch_command
                 +:+ source_cmd +:+ " && colcon build --cmake-args " +:+ cmake_args in
  run_or_exit command "Build dev micro-ROS environment failed".

(** The copy of the caller's folder over the target sources that ends
    [download_extra_packages]. *)
Definition overlay_packages (b : Build) (tree : node) : node * option exn :=
  copytree limit ignore_manifest Copy2 true (packages_folder b) (mcu_src_folder b) tree.

Definition download_extra_packages (b : Build) : World -> outcome World unit :=
  fun w =>
    if negb (exists_ (packages_folder b) (fs w)) then
      print "Extra packages folder not found, skipping..." w
    else
      (run! print "Checking extra packages" in
       let! extra_repos :=
         (fun w1 =>
            let out_of x := {| fs := fs w1; cwd := cwd w1; stdout := x;
                               commands := commands w1; env := env w1;
                               pkgs := pkgs w1 |} in
            match Manifest.get_repositories_from_yaml
                    (load_yaml (packages_folder b ++ ["extra_packages.repos"]) (fs w1))
                    (stdout w1) with
            | Returns repos out => Returns repos (out_of out)
            | Exits c out => Exits c (out_of out)
            | Raises e out => Raises e (out_of out)
            end) in
       run! for_each extra_repos (fun kv =>
              run! clone_extra kv.1 kv.2 (mcu_src_folder b) in
              print "Downloaded") in
       let! extra_folders :=
         (fun w1 => match listdir (packages_folder b) (fs w1) with
                    | Some l => Returns l w1
                    | None => Raises NotADirectoryError w1
                    end) in
       run! for_each
              (List.filter (fun x => negb (String.eqb x "extra_packages.repos")) extra_folders)
              (fun folder => print ("Adding " +:+ folder)) in
       fs_try (overlay_packages b)) w.

Definition download_mcu_environment (b : Build) : World -> outcome World unit :=
  run! fs_call (makedirs (mcu_src_folder b)) in
  run! print "Downloading micro-ROS library" in
  run! for_each mcu_environments (fun repo =>
         run! clone repo (mcu_src_folder b) in
         fun w =>
           let '(p, found) :=
             Packages.download_repo get_packages ignore_packages (pkgs w) repo in
           for_each found (fun l => print (Packages.downloaded_line (Packages.heap p) l))
                    (with_pkgs p w)) in
  download_extra_packages b.

Definition build_mcu_environment (b : Build) (meta_file toolchain_file user_meta : string)
  : World -> outcome World unit :=
  run! print "Building micro-ROS library" in
  let common_meta_path := text (library_folder b) +:+ "/metas/common.meta" in
  let '(source_cmd, generator_flag) := source_commands in
  let dev_source_cmd :=
    if String.eqb platform "win32"
    then "call " +:+ quoted (text (dev_folder b) +:+ "/install/setup.bat")
    else ". " +:+ text (dev_folder b) +:+ "/install/setup.sh" in
  let cmake_args :=
    generator_flag
    +:+ " -DCMAKE_POSITION_INDEPENDENT_CODE:BOOL=OFF  -DTHIRDPARTY=ON"
    +:+ "  -DBUILD_SHARED_LIBS=OFF  -DBUILD_TESTING=OFF  -DCMAKE_BUILD_TYPE=Release"
    +:+ " -DCMAKE_TOOLCHAIN_FILE=" +:+ toolchain_file
    +:+ " -DPython3_EXECUTABLE=" +:+ quoted python_exec in
  let colcon_command :=
    source_cmd +:+ " && colcon build --merge-install --packages-ignore-regex=.*_cpp --metas "
    +:+ common_meta_path +:+ " " +:+ meta_file +:+ " " +:+ user_meta
    +:+ " --cmake-args " +:+ cmake_args in
  let command := "cd " +:+ quoted (text (mcu_folder b)) +:+ " && " +:+ dev_source_cmd
                 +:+ " && " +:+ colcon_command in
  run_or_exit command "Build mcu micro-ROS environment failed".

(** [run]. *)
Definition run (b : Build) (meta toolchain user_meta : string)
  : World -> outcome World unit :=
  fun w =>
    if exists_ (library b) (fs w) then
      print "micro-ROS already built" w
    else
      (run! check_env b in
       run! download_dev_environment b in
       run! build_dev_environment b in
       run! download_mcu_environment b in
       run! build_mcu_environment b meta toolchain user_meta in
       package_mcu_library platform limit order run_cmd b) w.

End Stages.

End Driver.

(** ** Sample inputs *)

Module Samples.
Import FS Pipeline.

Definition dir (entries : list (string * node)) : node := Dir (list_to_map entries).
Definition file (content : string) : node := File (Blob content).

Definition sample_build : Build :=
  {| library_folder := ["proj"];
     packages_folder := ["proj"; "extra_packages"];
     build_folder := ["proj"; "build"] |}.

(** A project after the cross-compiled build: two archives that both hold
    a member [main.c.obj], an include tree with a self-nested [rcl], and
    the library of an earlier run. *)
Definition built_tree : node :=
  dir [("proj", dir [
    ("build", dir [("mcu", dir [("install", dir [
       ("lib", dir [
          ("librcl.a", File (Archive [("main.c.obj", Blob "rcl main");
                                      ("node.c.obj", Blob "rcl node")]));
          ("librmw.a", File (Archive [("main.c.obj", Blob "rmw main")]))]);
       ("include", dir [
          ("rcl", dir [("rcl", dir [("rcl.h", file "rcl header")])]);
          ("rmw", dir [("rmw.h", file "rmw header")])])])])]);
    ("libmicroros", dir [("libmicroros.a", file "stale library")])])].

Definition world_of (tree : node) : World :=
  {| fs := tree; cwd := []; stdout := []; commands := [];
     env := {| Env.environ := ∅; Env.self_env := ∅ |};
     pkgs := {| Packages.heap := ∅; Packages.dev_packages := [];
                Packages.mcu_packages := [] |} |}.

(** An include root with a self-nested [rcl] next to a plain [rmw], and
    what the flatten pass makes of it. *)
Definition nested_includes : node :=
  dir [("include", dir [
    ("rcl", dir [("rcl", dir [("rcl.h", file "rcl header");
                              ("types", dir [("init.h", file "init")])]);
                 ("types", dir [("node.h", file "node")])]);
    ("rmw", dir [("rmw.h", file "rmw header")])])].

Definition flat_includes : node :=
  dir [("include", dir [
    ("rcl", dir [("rcl.h", file "rcl header");
                 ("types", dir [("init.h", file "init"); ("node.h", file "node")])]);
    ("rmw", dir [("rmw.h", file "rmw header")])])].

(** Two archives of the same file name in two directories, both with a
    member [main.obj]. *)
Definition same_stem_tree : node :=
  dir [("proj", dir [("build", dir [("mcu", dir [("install", dir [
    ("lib", dir [
       ("a", dir [("libfoo.a", File (Archive [("main.obj", Blob "first")]))]);
       ("b", dir [("libfoo.a", File (Archive [("main.obj", Blob "second")]))])]);
    ("include", dir [])])])])])].

(** An archive whose member is called [main.o]. *)
Definition dot_o_tree : node :=
  dir [("proj", dir [("build", dir [("mcu", dir [("install", dir [
    ("lib", dir [("libfoo.a", File (Archive [("main.o", Blob "object")]))]);
    ("include", dir [])])])])])].

(** A caller's folder with its manifest, a file and a package, next to
    target sources that hold catalog versions of the file and the package. *)
Definition overlay_tree : node :=
  dir [("proj", dir [
    ("extra_packages", dir [
       ("extra_packages.repos", file "repositories: {}");
       ("foo.txt", file "overlay foo");
       ("my_pkg", dir [("package.xml", file "local package")])]);
    ("build", dir [("mcu", dir [("src", dir [
       ("foo.txt", file "catalog foo");
       ("my_pkg", dir [("package.xml", file "catalog package")])])])])])].

(** A package of the caller's folder that carries a file named like the
    manifest, which the target sources have too. *)
Definition nested_manifest_tree : node :=
  dir [("proj", dir [
    ("extra_packages", dir [
       ("pkg", dir [("extra_packages.repos", file "overlay copy")])]);
    ("build", dir [("mcu", dir [("src", dir [
       ("pkg", dir [("extra_packages.repos", file "catalog copy")])])])])])].

(** A shell whose command fails and changes nothing. *)
Definition failing_cmd (command : string) (dir : path) (tree : node) : Z * node :=
  (1%Z, tree).

(** The sample project before its first build: the install tree is there,
    the library folder is not. *)
Definition unbuilt_tree : node :=
  dir [("proj", dir [
    ("build", dir [("mcu", dir [("install", dir [
       ("lib", dir [
          ("librcl.a", File (Archive [("main.c.obj", Blob "rcl main")]))]);
       ("include", dir [
          ("rcl", dir [("rcl", dir [("rcl.h", file "rcl header")])])])])])])])].

(** A shell whose tools succeed: every command does what the merge command
    line does where the model has it, and fails without a trace elsewhere. *)
Definition tools (command : string) (dir : path) (tree : node) : Z * node :=
  default (1%Z, tree) (Merge.merge_command dir tree).

(** A shell in which the two [colcon] commands succeed without leaving
    anything and the merge command does what the archiver does. *)
Definition working_shell (command : string) (dir : path) (tree : node) : Z * node :=
  if PyStr.startswith command "cd " then (0%Z, tree) else tools command dir tree.

(** Two ways a file system may list a directory: in the order of the
    model's maps, and in the opposite order. *)
Definition as_listed (root : path) (names : list string) : list string := names.
Definition backwards (root : path) (names : list string) : list string := rev names.

(** Two archives one of whose stems begins the other's, each with a member
    [main.c.obj]. *)
Definition action_tree : node :=
  dir [("proj", dir [("build", dir [("mcu", dir [("install", dir [
    ("lib", dir [
       ("librcl.a", File (Archive [("main.c.obj", Blob "rcl main")]));
       ("librcl_action.a", File (Archive [("main.c.obj", Blob "action main")]))]);
    ("include", dir [])])])])])].

(** A repository with one package, [rcl_cpp], whose every [get_packages()]
    call builds a new package object. *)
Definition fresh_packages (repo : unit) (h : gmap Packages.loc Packages.Package)
  : list Packages.loc * gmap Packages.loc Packages.Package :=
  ([base.size h], <[base.size h := Packages.mkPackage "rcl_cpp" "src/rcl_cpp" false]> h).

Definition no_packages : Packages.Build :=
  {| Packages.heap := ∅; Packages.dev_packages := []; Packages.mcu_packages := [] |}.

(** A caller's folder with a package that the target sources do not have
    yet. *)
Definition new_package_tree : node :=
  dir [("proj", dir [
    ("extra_packages", dir [
       ("extra_packages.repos", file "repositories: {}");
       ("new_pkg", dir [("package.xml", file "new package")])]);
    ("build", dir [("mcu", dir [("src", dir [
       ("rcl", dir [("package.xml", file "catalog package")])])])])])].

End Samples.

(** * Properties *)

(** ** Facts about the string helpers *)

Module PyStrFacts.
Import PyStr.

Lemma endswith_refl s : endswith s s = true.
Proof. destruct s; simpl; rewrite ?String.eqb_refl, ?Ascii.eqb_refl; reflexivity. Qed.

Lemma endswith_app p suf : endswith (p +:+ suf) suf = true.
Proof.
  induction p as [|c p IH]; simpl.
  - apply endswith_refl.
  - rewrite IH. apply orb_true_r.
Qed.

Lemma endswith_inv s suf : endswith s suf = true -> exists p, s = p +:+ suf.
Proof.
  induction s as [|c s IH]; intros H.
  - exists EmptyString. destruct suf; [reflexivity | discriminate].
  - cbn [endswith] in H. apply orb_true_iff in H as [H|H].
    + apply String.eqb_eq in H. exists EmptyString. now rewrite <- H.
    + destruct (IH H) as [p ->]. now exists (String c p).
Qed.

Lemma append_assoc (a b c : string) : (a +:+ b) +:+ c = a +:+ (b +:+ c).
Proof.
  induction a as [|x a IH]; [reflexivity|].
  change (String x ((a +:+ b) +:+ c) = String x (a +:+ (b +:+ c))).
  now rewrite IH.
Qed.

Lemma endswith_dot_obj (s : string) :
  endswith s ".obj" = true -> endswith s "obj" = true.
Proof.
  intros H. apply endswith_inv in H as [p ->].
  change ".obj" with ("." +:+ "obj"). rewrite <- append_assoc. apply endswith_app.
Qed.

Lemma endswith_append (a s suf : string) :
  endswith s suf = true -> endswith (a +:+ s) suf = true.
Proof.
  intros H. apply endswith_inv in H as [p ->].
  rewrite <- append_assoc. apply endswith_app.
Qed.

(** A name that begins with [split_dot_head f] and goes on with an
    underscore does not begin with a dot. *)
Lemma split_dot_head_not_hidden (f rest : string) :
  startswith (split_dot_head f +:+ "_" +:+ rest) "." = false.
Proof.
  destruct f as [|c f]; [reflexivity|]. cbn [split_dot_head].
  destruct (Ascii.eqb c ".") eqn:Hc; [reflexivity|].
  change (Ascii.eqb "." c && startswith (split_dot_head f +:+ "_" +:+ rest) "" = false).
  now rewrite Ascii.eqb_sym, Hc.
Qed.

End PyStrFacts.

(** ** Package bookkeeping *)

Module PackagesFacts.
Import Packages.

Lemma ignore_idem p : ignore (ignore p) = ignore p.
Proof. reflexivity. Qed.

Lemma mark_if_lookup test h a l :
  mark_if test h a !! l =
  (fun p => if bool_decide (l = a) && test (pkg_name p) then ignore p else p)
    <$> h !! l.
Proof.
  unfold mark_if. destruct (h !! a) as [p|] eqn:Ha.
  - destruct (test (pkg_name p)) eqn:Ht.
    + destruct (decide (l = a)) as [->|Hne].
      * rewrite lookup_insert_eq, Ha. simpl.
        rewrite bool_decide_eq_true_2 by done. now rewrite Ht.
      * rewrite lookup_insert_ne by done.
        destruct (h !! l); simpl; [|done].
        now rewrite bool_decide_eq_false_2 by done.
    + destruct (h !! l) as [q|] eqn:Hl; simpl; [|done].
      case_bool_decide; simpl; [|done]. subst. simplify_eq. now rewrite Ht.
  - destruct (h !! l) as [q|] eqn:Hl; simpl; [|done].
    case_bool_decide; simpl; [|done]. congruence.
Qed.

(** What a marking loop does to the object behind any reference. *)
Lemma fold_mark_lookup test ls h l :
  foldl (mark_if test) h ls !! l =
  (fun p => if bool_decide (l ∈ ls) && test (pkg_name p) then ignore p else p)
    <$> h !! l.
Proof.
  revert h. induction ls as [|a ls IH]; intros h; simpl.
  - now destruct (h !! l).
  - rewrite IH, mark_if_lookup. destruct (h !! l) as [p|]; simpl; [|done].
    f_equal. destruct (test (pkg_name p)) eqn:Ht; simpl.
    + rewrite !andb_true_r.
      destruct (decide (l = a)) as [->|Hne].
      * rewrite (bool_decide_eq_true_2 (a = a)) by done.
        rewrite (bool_decide_eq_true_2 (a ∈ a :: ls)) by apply list_elem_of_here.
        now destruct (_ && _).
      * rewrite (bool_decide_eq_false_2 (l = a)) by done. simpl.
        rewrite Ht, andb_true_r.
        destruct (decide (l ∈ ls)) as [Hin|Hin].
        -- rewrite (bool_decide_eq_true_2 (l ∈ ls)) by done.
           rewrite (bool_decide_eq_true_2 (l ∈ a :: ls)); [done|].
           now apply list_elem_of_further.
        -- rewrite (bool_decide_eq_false_2 (l ∈ ls)) by done.
           rewrite (bool_decide_eq_false_2 (l ∈ a :: ls)); [done|].
           rewrite elem_of_cons. tauto.
    + rewrite !andb_false_r. now rewrite Ht, andb_false_r.
Qed.

Lemma fold_mark_id test ls h :
  (forall l p, l ∈ ls -> h !! l = Some p -> test (pkg_name p) = false) ->
  foldl (mark_if test) h ls = h.
Proof.
  intros Hno. apply map_eq. intros l. rewrite fold_mark_lookup.
  destruct (h !! l) as [p|] eqn:Hl; simpl; [|done].
  case_bool_decide; simpl; [|done]. now rewrite (Hno l p).
Qed.

(** C8: [ignore_package name] marks every registered target-stage package
    called [name] as ignored and leaves every other package object as it
    was; when no registered package has that name the whole state is
    unchanged.  The operation is a total function: it has no error case. *)
Theorem ignore_package_marks (name : string) (b : Build) :
  (forall l p, l ∈ mcu_packages b -> heap b !! l = Some p -> pkg_name p = name ->
     heap (ignore_package name b) !! l = Some (ignore p)) /\
  (forall l p, heap b !! l = Some p -> pkg_name p <> name ->
     heap (ignore_package name b) !! l = Some p) /\
  ((forall l p, l ∈ mcu_packages b -> heap b !! l = Some p -> pkg_name p <> name) ->
     ignore_package name b = b).
Proof.
  split; [|split].
  - intros l p Hin Hl <-. simpl. rewrite fold_mark_lookup, Hl. simpl.
    rewrite bool_decide_eq_true_2 by done. now rewrite String.eqb_refl.
  - intros l p Hl Hne. simpl. rewrite fold_mark_lookup, Hl. simpl.
    apply String.eqb_neq in Hne. now rewrite Hne, andb_false_r.
  - intros Hno. destruct b as [h d m]. unfold ignore_package. simpl in *.
    f_equal. apply fold_mark_id. intros l p Hin Hl.
    apply String.eqb_neq. eauto.
Qed.

(** A store with one registered package, [rcl]. *)
Lemma ignore_package_marks_witness :
  ignore_package "pkg_not_present"
    {| heap := {[ 0 := mkPackage "rcl" "src/rcl" false ]};
       dev_packages := []; mcu_packages := [0] |}
  = {| heap := {[ 0 := mkPackage "rcl" "src/rcl" false ]};
       dev_packages := []; mcu_packages := [0] |}.
Proof.
  apply (ignore_package_marks "pkg_not_present").
  simpl. intros l p Hin Hl.
  apply list_elem_of_singleton in Hin. subst l.
  rewrite lookup_singleton_eq in Hl. injection Hl as <-. simpl. discriminate.
Defined.

(** C10: [ignore_package] walks the target-stage list only.  The dev-stage
    list is the same list afterwards and, package objects of the two
    stages being distinct objects, no dev-stage package changes, whatever
    its name. *)
Theorem ignore_package_dev_untouched (name : string) (b : Build) :
  (forall l, l ∈ dev_packages b -> l ∉ mcu_packages b) ->
  dev_packages (ignore_package name b) = dev_packages b /\
  (forall l, l ∈ dev_packages b ->
     heap (ignore_package name b) !! l = heap b !! l).
Proof.
  intros Hdisj. split; [reflexivity|]. intros l Hin. simpl.
  rewrite fold_mark_lookup. destruct (heap b !! l) as [p|]; simpl; [|done].
  rewrite bool_decide_eq_false_2 by auto. done.
Qed.

(** A dev-stage and a target-stage package that share the name [rcutils]. *)
Lemma ignore_package_dev_untouched_witness :
  let b := {| heap := {[ 0 := mkPackage "rcutils" "dev/src/rcutils" false;
                         1 := mkPackage "rcutils" "mcu/src/rcutils" false ]};
              dev_packages := [0]; mcu_packages := [1] |} in
  dev_packages (ignore_package "rcutils" b) = [0] /\
  (forall l, l ∈ dev_packages b ->
     heap (ignore_package "rcutils" b) !! l = heap b !! l).
Proof.
  intros b. apply (ignore_package_dev_untouched "rcutils" b).
  simpl. intros l Hin Hin'.
  apply list_elem_of_singleton in Hin. apply list_elem_of_singleton in Hin'.
  congruence.
Defined.

(** The test of the discovery loop: a package object that the loop visits
    and that was not ignored before is ignored afterwards exactly when its
    name is on the profile's default ignore-list or ends with [_cpp]. *)
Lemma auto_ignore_iff (ignore_list : list string) (found : list loc)
    (h : gmap loc Package) (l : loc) (p : Package) :
  l ∈ found -> h !! l = Some p -> pkg_ignored p = false ->
  exists p', auto_ignore ignore_list found h !! l = Some p' /\
    pkg_name p' = pkg_name p /\
    (pkg_ignored p' = true <->
     pkg_name p ∈ ignore_list \/ exists stem, pkg_name p = stem +:+ "_cpp").
Proof.
  intros Hin Hl Hfresh. unfold auto_ignore. rewrite fold_mark_lookup, Hl. simpl.
  rewrite bool_decide_eq_true_2 by done. simpl.
  eexists. split; [reflexivity|].
  unfold auto_ignored.
  destruct (bool_decide (pkg_name p ∈ ignore_list)) eqn:Hlist; simpl.
  - apply bool_decide_eq_true in Hlist. split; [reflexivity|]. tauto.
  - apply bool_decide_eq_false in Hlist.
    destruct (PyStr.endswith (pkg_name p) "_cpp") eqn:Hsuf; simpl.
    + split; [reflexivity|]. split; [|reflexivity].
      intros _. right. now apply PyStrFacts.endswith_inv.
    + split; [reflexivity|]. rewrite Hfresh. split; [discriminate|].
      intros [Hin'|[stem Hstem]]; [tauto|].
      rewrite Hstem, PyStrFacts.endswith_app in Hsuf. discriminate.
Qed.

(** [foo_cpp] is discovered while the default ignore-list is empty. *)
Lemma auto_ignore_iff_witness :
  exists p', auto_ignore [] [0] {[ 0 := mkPackage "foo_cpp" "src/foo_cpp" false ]} !! 0
             = Some p' /\
    pkg_name p' = "foo_cpp" /\
    (pkg_ignored p' = true <->
     "foo_cpp" ∈ @nil string \/ exists stem, "foo_cpp" = stem +:+ "_cpp").
Proof.
  apply (auto_ignore_iff [] [0] {[ 0 := mkPackage "foo_cpp" "src/foo_cpp" false ]}
           0 (mkPackage "foo_cpp" "src/foo_cpp" false)).
  - apply list_elem_of_singleton. reflexivity.
  - apply lookup_singleton_eq.
  - reflexivity.
Defined.

(** The suffix rule on its own: [foo_cpp] ends up ignored although the
    default ignore-list does not name it. *)
Example foo_cpp_ignored :
  pkg_ignored <$>
    (auto_ignore [] [0] {[ 0 := mkPackage "foo_cpp" "src/foo_cpp" false ]} !! 0)
  = Some true.
Proof. reflexivity. Qed.

End PackagesFacts.

(** ** Environment set-up *)

Module EnvFacts.
Import Env.

Example replace_removes_segment :
  PyStr.replace (ros_bin_segment "jazzy") ""
    "/usr/local/bin:/opt/ros/jazzy/bin:/usr/bin" = "/usr/local/bin:/usr/bin".
Proof. reflexivity. Qed.

Example replace_no_overlap : PyStr.replace "aa" "b" "aaaxaa" = "baxb".
Proof. reflexivity. Qed.

Lemma truthy_true v : truthy v = true <-> exists s, v = Some s /\ s <> "".
Proof.
  destruct v as [s|]; simpl.
  - rewrite negb_true_iff, String.eqb_neq. split; [eauto|]. now intros [? [[= <-] ?]].
  - split; [discriminate|]. now intros [? [? ?]].
Qed.

(** C9, as the code has it: when [ROS_DISTRO] holds a non-empty value (and
    [PATH] is set), every occurrence of [/opt/ros/<distro>/bin:] leaves
    [PATH] and [AMENT_PREFIX_PATH] is cleared; [RMW_IMPLEMENTATION] becomes
    [rmw_microxrcedds] exactly when it held a non-empty value and is left
    alone otherwise; the call returns normally whether or not the
    bytecode-cache directory could be set up, and a failed set-up leaves
    [self.env] a plain copy of the environment. *)
Theorem check_env_spec (pycache : option string) (st : state) :
  (truthy (environ st !! "ROS_DISTRO") = true -> is_Some (environ st !! "PATH")) ->
  exists st', check_env pycache st = Returns tt st' /\
    (forall distro path,
        environ st !! "ROS_DISTRO" = Some distro -> distro <> "" ->
        environ st !! "PATH" = Some path ->
        environ st' !! "PATH"
          = Some (PyStr.replace (ros_bin_segment distro) "" path) /\
        environ st' !! "AMENT_PREFIX_PATH" = None) /\
    environ st' !! "RMW_IMPLEMENTATION"
      = (if truthy (environ st !! "RMW_IMPLEMENTATION")
         then Some "rmw_microxrcedds"
         else environ st !! "RMW_IMPLEMENTATION") /\
    (pycache = None -> self_env st' = environ st').
Proof.
  intros Hpath. unfold check_env.
  destruct (environ st !! "ROS_DISTRO") as [distro|] eqn:Hros.
  - destruct (truthy (Some distro)) eqn:Ht.
    + destruct (Hpath eq_refl) as [path Hp]. rewrite Hp.
      eexists. split; [reflexivity|]. simpl.
      rewrite !lookup_delete_ne, !lookup_insert_ne by done.
      split; [|split].
      * intros d p' [= <-] _ [= <-].
        destruct (truthy (environ st !! "RMW_IMPLEMENTATION")).
        -- rewrite !lookup_insert_ne by done.
           rewrite lookup_delete_ne, lookup_insert_eq by done.
           now rewrite lookup_delete_eq.
        -- rewrite lookup_delete_ne, lookup_insert_eq by done.
           now rewrite lookup_delete_eq.
      * destruct (truthy (environ st !! "RMW_IMPLEMENTATION")).
        -- now rewrite lookup_insert_eq.
        -- now rewrite lookup_delete_ne, lookup_insert_ne by done.
      * now intros ->.
    + eexists. split; [reflexivity|]. simpl. split; [|split].
      * intros d p' [= <-] Hne. simpl in Ht.
        apply negb_false_iff, String.eqb_eq in Ht. contradiction.
      * destruct (truthy (environ st !! "RMW_IMPLEMENTATION")); [|done].
        now rewrite lookup_insert_eq.
      * now intros ->.
  - eexists. split; [reflexivity|]. simpl. split; [|split].
    + intros d p' [=].
    + destruct (truthy (environ st !! "RMW_IMPLEMENTATION")); [|done].
      now rewrite lookup_insert_eq.
    + now intros ->.
Qed.

Lemma check_env_spec_witness :
  exists st', check_env None sourced_ros = Returns tt st' /\
    (forall distro path,
        environ sourced_ros !! "ROS_DISTRO" = Some distro -> distro <> "" ->
        environ sourced_ros !! "PATH" = Some path ->
        environ st' !! "PATH"
          = Some (PyStr.replace (ros_bin_segment distro) "" path) /\
        environ st' !! "AMENT_PREFIX_PATH" = None) /\
    environ st' !! "RMW_IMPLEMENTATION"
      = (if truthy (environ sourced_ros !! "RMW_IMPLEMENTATION")
         then Some "rmw_microxrcedds"
         else environ sourced_ros !! "RMW_IMPLEMENTATION") /\
    (@None string = None -> self_env st' = environ st').
Proof.
  apply (check_env_spec None sourced_ros).
  intros _. exists "/opt/ros/jazzy/bin:/usr/bin". reflexivity.
Defined.

(** On that environment the search path loses the ROS segment. *)
Example check_env_sourced_ros :
  environ (final_state (check_env None sourced_ros)) !! "PATH" = Some "/usr/bin".
Proof. reflexivity. Qed.

(** C9 as stated fails: [RMW_IMPLEMENTATION] present with an empty value is
    not forced to [rmw_microxrcedds]. *)
Lemma check_env_rmw_present_counterexample :
  let st := {| environ := {[ "RMW_IMPLEMENTATION" := "" ]}; self_env := ∅ |} in
  is_Some (environ st !! "RMW_IMPLEMENTATION") /\
  check_env None st = Returns tt {| environ := {[ "RMW_IMPLEMENTATION" := "" ]};
                                    self_env := {[ "RMW_IMPLEMENTATION" := "" ]} |} /\
  environ (final_state (check_env None st)) !! "RMW_IMPLEMENTATION"
    <> Some "rmw_microxrcedds".
Proof.
  split; [|split].
  - exists "". reflexivity.
  - reflexivity.
  - discriminate.
Qed.

End EnvFacts.

(** ** Manifest loading *)

Module ManifestFacts.
Import Manifest.

Lemma dict_get_app_fresh {V} (k : scalar) (v : V) pre suf :
  k ∉ map fst pre -> dict_get k (pre ++ (k, v) :: suf) = Some v.
Proof.
  induction pre as [|[k' v'] pre IH]; simpl; intros Hk.
  - now rewrite decide_True.
  - rewrite decide_False by set_solver. apply IH. set_solver.
Qed.

Lemma dict_set_fresh {V} (k : scalar) (v : V) d :
  k ∉ map fst d -> dict_set k v d = (d ++ [(k, v)])%list.
Proof.
  induction d as [|[k' v'] d IH]; simpl; intros Hk; [done|].
  rewrite decide_False by set_solver. f_equal. apply IH. set_solver.
Qed.

Lemma read_entry_mapping m :
  read_entry (YMap m) =
  match dict_get (SStr "type") m, dict_get (SStr "url") m with
  | Some ty, Some url => inr (mkRepo ty url (dict_get (SStr "version") m))
  | _, _ => inl KeyError
  end.
Proof.
  unfold read_entry, getitem, contains, YStr.
  destruct (dict_get (SStr "type") m); [|done].
  destruct (dict_get (SStr "url") m); [|done].
  destruct (dict_get (SStr "version") m) eqn:Hv.
  - rewrite bool_decide_eq_true_2 by eauto. done.
  - rewrite bool_decide_eq_false_2; [done|]. now intros [? [=]].
Qed.

Lemma omap_keys_subset (es : list (scalar * yaml)) k :
  k ∈ map fst (omap resolve_entry es) -> k ∈ map fst es.
Proof.
  induction es as [|[k' v'] es IH]; simpl; [done|].
  unfold resolve_entry at 1. simpl.
  destruct v' as [| |m]; try (intros; set_solver).
  destruct (dict_get (SStr "type") m); [|intros; set_solver].
  destruct (dict_get (SStr "url") m); [|intros; set_solver].
  simpl. set_solver.
Qed.

(** The loop over a mapping of mappings: entries before the current one
    are [pre], those still to visit [suf]. *)
Lemma load_entries_mapping (es pre suf : list (scalar * yaml)) :
  es = (pre ++ suf)%list ->
  NoDup (map fst es) ->
  Forall (fun kv => is_mapping (snd kv)) suf ->
  load_entries (YMap es) (map (fun kv => YScalar (fst kv)) suf)
               (omap resolve_entry pre)
  = (omap resolve_entry es, None).
Proof.
  revert pre. induction suf as [|[k v] suf IH]; intros pre -> Hnd Hall; simpl.
  - now rewrite app_nil_r.
  - apply Forall_cons in Hall as [[m Hm] Hall]. simpl in Hm. subst v.
    assert (Hfresh : k ∉ map fst pre).
    { rewrite map_app in Hnd. apply NoDup_app in Hnd as (_ & Hd & _).
      intros Hin. apply (Hd k Hin). simpl. set_solver. }
    rewrite dict_get_app_fresh by done.
    rewrite read_entry_mapping.
    specialize (IH (pre ++ [(k, YMap m)])%list).
    rewrite <- app_assoc in IH. simpl in IH.
    rewrite omap_app in IH. simpl in IH. unfold resolve_entry at 2 in IH.
    simpl in IH.
    destruct (dict_get (SStr "type") m) as [ty|].
    + destruct (dict_get (SStr "url") m) as [url|].
      * rewrite dict_set_fresh.
        -- apply IH; done.
        -- intros Hin. apply Hfresh. now apply omap_keys_subset.
      * simpl in IH. rewrite app_nil_r in IH. apply IH; done.
    + simpl in IH. rewrite app_nil_r in IH. apply IH; done.
Qed.

(** Loading always returns a dict: no exception leaves the function. *)
Theorem load_never_raises (doc : load_result) (out : list string) :
  exists repos out', get_repositories_from_yaml doc out = Returns repos out'.
Proof.
  unfold get_repositories_from_yaml. destruct (load_body doc) as [repos raised].
  eauto.
Qed.

(** An absent file, malformed text and a document without the
    [repositories] key all give the empty dict. *)
Theorem load_degenerate_empty (out : list string) :
  (exists out', get_repositories_from_yaml Absent out = Returns [] out') /\
  (exists out', get_repositories_from_yaml Malformed out = Returns [] out') /\
  (forall m, dict_get (SStr "repositories") m = None ->
     exists out', get_repositories_from_yaml (Loaded (YMap m)) out = Returns [] out') /\
  (exists out', get_repositories_from_yaml (Loaded (YScalar SNull)) out = Returns [] out').
Proof.
  repeat split; try (eexists; reflexivity).
  intros m Hm. unfold get_repositories_from_yaml, load_body, getitem, YStr.
  rewrite Hm. eexists. reflexivity.
Qed.

(** When every entry is a mapping of attributes, the result holds exactly
    the entries that have [type] and [url], in document order, each with
    its [version] when it has one; nothing is printed. *)
Theorem load_mapping_entries (m es : list (scalar * yaml)) (out : list string) :
  dict_get (SStr "repositories") m = Some (YMap es) ->
  NoDup (map fst es) ->
  Forall (fun kv => is_mapping (snd kv)) es ->
  get_repositories_from_yaml (Loaded (YMap m)) out
  = Returns (omap resolve_entry es) out.
Proof.
  intros Hm Hnd Hall.
  unfold get_repositories_from_yaml, load_body, getitem, YStr. rewrite Hm.
  destruct es as [|e es]; [reflexivity|].
  replace (truthy (YMap (e :: es))) with true by reflexivity.
  cbn [iterate].
  pose proof (load_entries_mapping (e :: es) [] (e :: es) eq_refl Hnd Hall) as Hloop.
  change (omap resolve_entry []) with (@nil (scalar * repo)) in Hloop.
  now rewrite Hloop.
Qed.

Lemma load_mapping_entries_witness :
  get_repositories_from_yaml (Loaded three_entries) []
  = Returns (omap resolve_entry
               [(SStr "a", git_entry "https://example.org/a.git");
                (SStr "b", YMap [(SStr "type", YStr "git")]);
                (SStr "c", YMap [(SStr "type", YStr "git");
                                 (SStr "url", YStr "https://example.org/c.git");
                                 (SStr "version", YStr "main")])]) [].
Proof.
  apply load_mapping_entries.
  - reflexivity.
  - simpl. repeat (apply NoDup_cons; split; [set_solver|]). apply NoDup_nil_2.
  - repeat (apply Forall_cons; split; [eexists; reflexivity|]). apply Forall_nil_2.
Defined.

(** Three entries of which the middle one lacks [url]: two are resolved,
    the third with its version. *)
Example load_three_entries :
  get_repositories_from_yaml (Loaded three_entries) []
  = Returns [(SStr "a", mkRepo (YStr "git") (YStr "https://example.org/a.git") None);
             (SStr "c", mkRepo (YStr "git") (YStr "https://example.org/c.git")
                               (Some (YStr "main")))] [].
Proof. reflexivity. Qed.

(** C3, where the code departs from it: an entry with no attributes at all
    ([a:] with nothing under it) is not skipped on its own.  Subscripting
    it raises [TypeError], which only the outer handler catches, so the
    loop stops and the complete entry [b] after it is lost. *)
Theorem load_null_entry_drops_rest :
  get_repositories_from_yaml (Loaded null_entry_first) []
    = Returns [] ["Error on extra_packages.repos"] /\
  resolve_entry (SStr "b", git_entry "https://example.org/b.git")
    = Some (SStr "b", mkRepo (YStr "git") (YStr "https://example.org/b.git") None).
Proof. split; reflexivity. Qed.

End ManifestFacts.

(** ** The file system *)

Module FSFacts.
Import FS.

Lemma get_app (p r : path) (n : node) : get (p ++ r) n = get p n ≫= get r.
Proof.
  revert n. induction p as [|k p IH]; intros n; simpl; [done|].
  destruct n as [d|es]; [done|].
  destruct (es !! k) as [c|]; simpl; [apply IH|done].
Qed.

Lemma get_below_file (p : path) (d : fdata) : p <> [] -> get p (File d) = None.
Proof. now destruct p. Qed.

Lemma get_below_empty (p : path) : p <> [] -> get p (Dir ∅) = None.
Proof. destruct p; [done|]. intros _. simpl. now rewrite lookup_empty. Qed.

(** An update at [p] is invisible at every path that is neither above
    nor below [p]. *)
Lemma get_update_unrelated (p q : path) f (n : node) :
  ~ p `prefix_of` q -> ~ q `prefix_of` p -> get q (update p f n) = get q n.
Proof.
  revert q n. induction p as [|k p IH]; intros q n Hpq Hqp.
  - destruct Hpq. apply prefix_nil.
  - destruct q as [|k' q]; [destruct Hqp; apply prefix_nil|].
    destruct n as [d|es]; [done|]. simpl.
    destruct (decide (k' = k)) as [->|Hne].
    + destruct p as [|k2 p].
      * destruct Hpq. apply prefix_cons, prefix_nil.
      * rewrite lookup_alter_eq. destruct (es !! k) as [c|]; simpl; [|done].
        apply IH; intros Hp; [apply Hpq|apply Hqp]; now apply prefix_cons.
    + destruct p as [|k2 p].
      * now rewrite lookup_partial_alter_ne.
      * now rewrite lookup_alter_ne.
Qed.

(** Nothing is left at or below a removed path. *)
Lemma get_remove_below (p r : path) (n : node) :
  p <> [] -> get (p ++ r) (remove p n) = None.
Proof.
  revert n. induction p as [|k p IH]; intros n Hp; [done|].
  unfold remove in *. destruct n as [d|es]; [done|]. simpl.
  destruct p as [|k2 p].
  - simpl. now rewrite lookup_partial_alter_eq.
  - rewrite lookup_alter_eq. destruct (es !! k) as [c|]; simpl; [|done].
    now apply (IH c).
Qed.

(** [makedirs p] changes nothing at a path that is not on the way to
    [p]. *)
Lemma get_makedirs_frame (p q : path) (n n' : node) :
  makedirs p n = inr n' -> ~ q `prefix_of` p -> get q n' = get q n.
Proof.
  revert q n n'. induction p as [|k p IH]; intros q n n' Hmk Hq; simpl in Hmk.
  - destruct n; now simplify_eq.
  - destruct n as [d|es]; [done|].
    destruct (makedirs p (default (Dir ∅) (es !! k))) as [e|c] eqn:Hc; [done|].
    simplify_eq. destruct q as [|k' q]; [destruct Hq; apply prefix_nil|].
    simpl. destruct (decide (k' = k)) as [->|Hne].
    + rewrite lookup_insert_eq. simpl.
      assert (Hq' : ~ q `prefix_of` p) by (intros Hp; apply Hq; now apply prefix_cons).
      rewrite (IH q _ _ Hc Hq').
      destruct (es !! k) as [x|]; simpl; [done|].
      apply get_below_empty. intros ->. apply Hq'. apply prefix_nil.
    + now rewrite lookup_insert_ne.
Qed.

(** After [makedirs p] there is a directory at [p]. *)
Lemma makedirs_isdir (p : path) (n n' : node) :
  makedirs p n = inr n' -> exists es, get p n' = Some (Dir es).
Proof.
  revert n n'. induction p as [|k p IH]; intros n n' Hmk; simpl in Hmk.
  - destruct n as [|es]; simplify_eq. eauto.
  - destruct n as [d|es]; [done|].
    destruct (makedirs p (default (Dir ∅) (es !! k))) as [e|c] eqn:Hc; [done|].
    simplify_eq. simpl. rewrite lookup_insert_eq. simpl. eauto.
Qed.

Lemma update_below (k : string) (p : path) f (es : gmap string node) :
  p <> [] -> update (k :: p) f (Dir es) = Dir (alter (update p f) k es).
Proof. now destruct p. Qed.

(** An update strictly below a directory leaves it a directory. *)
Lemma isdir_update_above (q r : path) (k : string) f (n : node) :
  isdir q n = true -> isdir q (update (q ++ k :: r) f n) = true.
Proof.
  unfold isdir. revert n. induction q as [|k' q IH]; intros n.
  - simpl. destruct n; [done|]. now destruct r.
  - destruct n as [d|es]; [done|].
    change ((k' :: q) ++ k :: r) with (k' :: (q ++ k :: r)).
    rewrite update_below by now destruct q.
    simpl. rewrite lookup_alter_eq.
    destruct (es !! k') as [c|]; simpl; [|done]. apply IH.
Qed.

Lemma makedirs_preserves_isdir (p q : path) (n n' : node) :
  makedirs p n = inr n' -> isdir q n = true -> isdir q n' = true.
Proof.
  unfold isdir. revert q n n'. induction p as [|k p IH]; intros q n n' Hmk; simpl in Hmk.
  - destruct n; now simplify_eq.
  - destruct n as [d|es]; [done|].
    destruct (makedirs p (default (Dir ∅) (es !! k))) as [e|c] eqn:Hc; [done|].
    simplify_eq. destruct q as [|k' q]; [done|]. simpl.
    destruct (decide (k' = k)) as [->|Hne].
    + rewrite lookup_insert_eq. simpl.
      destruct (es !! k) as [x|]; simpl; [|done]. now apply IH.
    + now rewrite lookup_insert_ne.
Qed.

(** A name is listed in a directory exactly when the directory has an
    entry of that name. *)
Lemma elem_of_names (es : gmap string node) (f : string) :
  f ∈ names es <-> is_Some (es !! f).
Proof.
  unfold names. rewrite list_elem_of_fmap. split.
  - intros [[k x] [-> Hin]]. apply elem_of_map_to_list in Hin. now exists x.
  - intros [x Hx]. exists (f, x). split; [done|]. now apply elem_of_map_to_list.
Qed.

Lemma elem_of_listdir (p : path) (n : node) (l : list string) (f : string) :
  listdir p n = Some l -> (f ∈ l <-> is_Some (get (p ++ [f]) n)).
Proof.
  unfold listdir. rewrite get_app.
  destruct (get p n) as [[d|es]|]; try done. intros [= <-]. simpl.
  rewrite elem_of_names. now destruct (es !! f).
Qed.

Lemma listdir_isdir (p : path) (n : node) :
  isdir p n = true <-> is_Some (listdir p n).
Proof.
  unfold isdir, listdir. destruct (get p n) as [[|]|]; split; try done;
    intros [? ?]; done.
Qed.

(** ** Looking at a subtree: operations below a path act on what is there *)

Lemma get_update_below (p r : path) f (n x : node) :
  r <> [] -> get p n = Some x ->
  get p (update (p ++ r) f n) = Some (update r f x).
Proof.
  intros Hr. revert n. induction p as [|k p IH]; intros n Hp.
  - simpl in *. now simplify_eq.
  - destruct n as [d|es]; [done|]. simpl in Hp.
    change ((k :: p) ++ r) with (k :: (p ++ r)).
    rewrite update_below by now destruct p.
    simpl. rewrite lookup_alter_eq.
    destruct (es !! k) as [c|]; simpl in *; [|done]. now apply IH.
Qed.

Lemma parent_snoc (p : path) (k : string) : parent (p ++ [k]) = p.
Proof. apply removelast_last. Qed.

Lemma parent_app (p r : path) : r <> [] -> parent (p ++ r) = p ++ parent r.
Proof. intros Hr. unfold parent. now apply removelast_app. Qed.

Lemma isdir_app (p r : path) (n x : node) :
  get p n = Some x -> isdir (p ++ r) n = isdir r x.
Proof. intros Hp. unfold isdir. now rewrite get_app, Hp. Qed.

Lemma get_below (p r : path) (n x : node) :
  get p n = Some x -> get (p ++ r) n = get r x.
Proof. intros Hp. now rewrite get_app, Hp. Qed.

Lemma write_file_local (p r : path) (d : fdata) (n x : node) :
  r <> [] -> get p n = Some x ->
  get p (write_file (p ++ r) d n) = Some (write_file r d x).
Proof.
  intros Hr Hp. unfold write_file.
  rewrite (parent_app p r Hr), (isdir_app p _ n x Hp), (get_below p r n x Hp).
  destruct (isdir (parent r) x); [|done].
  destruct (get r x) as [[|]|]; try done; now apply get_update_below.
Qed.

Lemma rename_local (p rs rd : path) (n x : node) :
  rs <> [] -> rd <> [] -> get p n = Some x ->
  match rename rs rd x with
  | inl e => rename (p ++ rs) (p ++ rd) n = inl e
  | inr x' => exists n', rename (p ++ rs) (p ++ rd) n = inr n' /\ get p n' = Some x'
  end.
Proof.
  intros Hs Hd Hp. unfold rename.
  rewrite (parent_app p rd Hd), (isdir_app p _ n x Hp),
          (get_below p rs n x Hp), (get_below p rd n x Hp).
  assert (Hmv : forall y, get p (put (p ++ rd) y (remove (p ++ rs) n))
                          = Some (put rd y (remove rs x))).
  { intros y. unfold put, remove.
    apply get_update_below; [done|]. now apply get_update_below. }
  destruct (get rs x) as [y|]; [|done].
  destruct (isdir (parent rd) x); [|done].
  destruct y, (get rd x) as [[|ds]|]; try done; try (eexists; split; [reflexivity|apply Hmv]).
  case_bool_decide; [|done]. eexists; split; [reflexivity|apply Hmv].
Qed.

Lemma makedirs_local (p r : path) (n x x' : node) :
  get p n = Some x -> makedirs r x = inr x' ->
  exists n', makedirs (p ++ r) n = inr n' /\ get p n' = Some x'.
Proof.
  revert n. induction p as [|k p IH]; intros n Hp Hmk.
  - simpl in *. simplify_eq. eauto.
  - destruct n as [d|es]; [done|]. simpl in Hp.
    destruct (es !! k) as [c|] eqn:Hk; [|done]. simpl in Hp.
    destruct (IH c Hp Hmk) as (c' & Hc & Hget).
    exists (Dir (<[k := c']> es)). simpl. rewrite Hk. simpl. rewrite Hc.
    split; [done|]. now rewrite lookup_insert_eq.
Qed.

Lemma get_put_child (p : path) (k : string) (x n : node) :
  isdir p n = true -> get (p ++ [k]) (put (p ++ [k]) x n) = Some x.
Proof.
  unfold isdir. destruct (get p n) as [[d|es]|] eqn:Hp; try done. intros _.
  unfold put. rewrite (get_below p [k] _ (update [k] (fun _ => Some x) (Dir es))).
  - simpl. now rewrite lookup_partial_alter_eq.
  - now apply get_update_below.
Qed.

(** ** Induction over trees *)

Lemma size_entry (es : gmap string node) (k : string) (c : node) :
  es !! k = Some c -> size c < size (Dir es).
Proof.
  intros Hk. simpl.
  rewrite (map_fold_delete_L _ _ k c es); [lia| |exact Hk].
  intros; lia.
Qed.

Lemma node_induction (P : node -> Prop) :
  (forall d, P (File d)) ->
  (forall es, (forall k c, es !! k = Some c -> P c) -> P (Dir es)) ->
  forall n, P n.
Proof.
  intros Hfile Hdir n.
  assert (Hall : forall m n', size n' < m -> P n').
  { induction m as [|m IH]; intros n' Hlt; [lia|].
    destruct n' as [d|es]; [apply Hfile|].
    apply Hdir. intros k c Hk. apply IH. apply size_entry in Hk. lia. }
  apply (Hall (S (size n))). lia.
Qed.

Lemma lookup_fold_insert {A B} (g : string -> A -> B) (m : gmap string A) (k : string) :
  map_fold (fun i c acc => <[i := g i c]> acc) (∅ : gmap string B) m !! k
  = g k <$> m !! k.
Proof.
  induction m as [|i c m Hi Hfold IH] using map_first_key_ind.
  - now rewrite map_fold_empty, !lookup_empty.
  - rewrite map_fold_insert_first_key by done.
    destruct (decide (i = k)) as [->|Hne].
    + now rewrite !lookup_insert_eq.
    + rewrite !lookup_insert_ne by done. exact IH.
Qed.

(** What [os.walk] reports below a directory: the directory itself, and
    what it reports for one of the entries. *)
Lemma elem_of_walk_node order (root : path) (es : gmap string node) (x : path * list string) :
  x ∈ walk_node order root (Dir es) ->
  x.1 = root \/
  exists k c, es !! k = Some c /\ x ∈ walk_node order (root ++ [k]) c.
Proof.
  simpl. intros Hin. apply elem_of_cons in Hin as [->|Hin]; [now left|]. right.
  apply list_elem_of_In, in_concat in Hin as (l & Hl & Hx).
  apply list_elem_of_In, list_elem_of_omap in Hl as (k & _ & Hk).
  rewrite lookup_fold_insert in Hk.
  destruct (es !! k) as [c|] eqn:Hc; [|done]. injection Hk as <-.
  exists k, c. split; [done|]. now apply list_elem_of_In.
Qed.

(** Every directory [os.walk] reports is [top] or lies below it. *)
Lemma walk_node_roots order (n : node) :
  forall root r files, (r, files) ∈ walk_node order root n -> root `prefix_of` r.
Proof.
  induction n as [d|es IH] using node_induction; intros root r files Hin.
  - now apply not_elem_of_nil in Hin.
  - apply elem_of_walk_node in Hin as [Hin|(k & c & Hk & Hin)].
    + simpl in Hin. now subst r.
    + etrans; [|apply (IH k c Hk _ _ _ Hin)]. now apply prefix_app_r.
Qed.

(** Whatever the order in which the directories list their entries, as long
    as each lists all of them, [os.walk] reports every file below [top]
    with the directory that holds it. *)
Lemma walk_node_complete order (n : node) (t : path) :
  (forall p l, order p l ≡ₚ l) ->
  forall root f d, get (t ++ [f]) n = Some (File d) ->
    exists files, (root ++ t, files) ∈ walk_node order root n /\ f ∈ files.
Proof.
  intros Hperm. revert n. induction t as [|k t IH]; intros n root f d Hget.
  - destruct n as [d0|es]; [done|]. simpl in Hget.
    destruct (es !! f) as [c|] eqn:Hf; [|done]. simpl in Hget. injection Hget as ->.
    eexists. rewrite app_nil_r. split; [apply list_elem_of_here|].
    apply list_elem_of_In, filter_In. split; [|now rewrite Hf].
    apply list_elem_of_In. rewrite Hperm. apply list_elem_of_fmap.
    exists (f, File d). split; [done|]. now apply elem_of_map_to_list.
  - destruct n as [d0|es]; [done|]. cbn [app get] in Hget.
    destruct (es !! k) as [c|] eqn:Hk; [|done]. simpl in Hget.
    destruct (IH c (root ++ [k]) f d Hget) as (files & Hin & Hf).
    exists files. split; [|exact Hf]. cbn [walk_node].
    apply list_elem_of_further, list_elem_of_In, in_concat.
    exists (walk_node order (root ++ [k]) c). split.
    + apply list_elem_of_In, list_elem_of_omap. exists k. split.
      * rewrite Hperm. apply list_elem_of_fmap.
        exists (k, c). split; [done|]. now apply elem_of_map_to_list.
      * now rewrite lookup_fold_insert, Hk.
    + apply list_elem_of_In. now rewrite <- app_assoc in Hin.
Qed.

End FSFacts.

(** ** Reasoning about steps of the pipeline *)

Module PipelineFacts.
Import FS Pipeline FSFacts.

Lemma apart_sym (p q : path) : apart p q -> apart q p.
Proof. intros [? ?]. now split. Qed.

Lemma apart_app_l (p q r : path) : apart p q -> apart (p ++ r) q.
Proof.
  intros [Hpq Hqp]. split.
  - intros H. apply Hpq. etrans; [|exact H]. now apply prefix_app_r.
  - intros H.
    destruct (prefix_weak_total q p (p ++ r)) as [?|?]; auto.
    now apply prefix_app_r.
Qed.

Lemma apart_diverge (c r s : path) (a b : string) :
  a <> b -> apart (c ++ a :: r) (c ++ b :: s).
Proof.
  intros Hab. split; intros H; apply prefix_app_inv in H;
    apply prefix_cons_inv_1 in H; congruence.
Qed.

Lemma get_put_apart (p q : path) (x n : node) :
  apart p q -> get q (put p x n) = get q n.
Proof. intros [? ?]. now apply get_update_unrelated. Qed.

Lemma get_remove_apart (p q : path) (n : node) :
  apart p q -> get q (remove p n) = get q n.
Proof. intros [? ?]. now apply get_update_unrelated. Qed.

Lemma get_write_file_apart (p q : path) (d : fdata) (n : node) :
  apart p q -> get q (write_file p d n) = get q n.
Proof.
  intros H. unfold write_file. destruct (isdir (parent p) n); [|done].
  destruct (get p n) as [[|]|]; try done; now apply get_put_apart.
Qed.

Lemma get_rename_apart (src dst q : path) (n n' : node) :
  apart src q -> apart dst q -> rename src dst n = inr n' -> get q n' = get q n.
Proof.
  intros Hs Hd. unfold rename.
  destruct (get src n) as [x|]; [|done].
  destruct (isdir (parent dst) n); [|done].
  assert (Hmv : get q (put dst x (remove src n)) = get q n)
    by (now rewrite get_put_apart, get_remove_apart).
  destruct x, (get dst n) as [[|ds]|]; try done; try (intros [= <-]; exact Hmv).
  case_bool_decide; [|done]. intros [= <-]; exact Hmv.
Qed.

Lemma get_rmtree_ignore_apart (p q : path) (n : node) :
  apart p q -> get q (rmtree_ignore_errors p n) = get q n.
Proof.
  intros H. unfold rmtree_ignore_errors.
  destruct (get p n) as [[|]|]; try done. now apply get_remove_apart.
Qed.

Lemma triple_bind {A B} P (m : World -> outcome World A)
    (k : A -> World -> outcome World B) Q R X :
  triple P m Q X -> (forall a, triple (Q a) (k a) R X) ->
  triple P (bind m k) R X.
Proof.
  intros Hm Hk w Hw. unfold bind. specialize (Hm w Hw).
  destruct (m w) as [a w'|c w'|e w']; [|done..].
  now apply Hk.
Qed.

Lemma triple_conseq {A} (P P' : World -> Prop) (m : World -> outcome World A)
    (Q Q' : A -> World -> Prop) X :
  triple P' m Q' X -> (forall w, P w -> P' w) ->
  (forall a w, Q' a w -> Q a w) -> triple P m Q X.
Proof.
  intros Hm HP HQ w Hw. specialize (Hm w (HP w Hw)).
  destruct (m w); auto.
Qed.

Lemma triple_for_each {A} (Inv : World -> Prop) (l : list A)
    (body : A -> World -> outcome World unit) X :
  (forall x, x ∈ l -> triple Inv (body x) (fun _ => Inv) X) ->
  triple Inv (for_each l body) (fun _ => Inv) X.
Proof.
  induction l as [|x l IH]; intros Hbody.
  - now intros w Hw.
  - cbn [for_each]. eapply triple_bind.
    + apply Hbody. apply list_elem_of_here.
    + intros []. apply IH. intros y Hy. apply Hbody. now apply list_elem_of_further.
Qed.

Lemma triple_fs_call (P : World -> Prop) op (Q : unit -> World -> Prop) X :
  (forall w x, P w -> op (fs w) = inr x -> Q tt (with_fs x w)) ->
  (forall w e, P w -> op (fs w) = inl e -> X w) ->
  triple P (fs_call op) Q X.
Proof.
  intros Hok Herr w Hw. unfold fs_call.
  destruct (op (fs w)) as [e|x] eqn:Hop; eauto.
Qed.

End PipelineFacts.

(** ** Copying trees *)

Module ShutilFacts.
Import FS Shutil FSFacts PipelineFacts.

Lemma confined_refl (p : path) (n : node) : confined p n n.
Proof. now split. Qed.

Lemma confined_trans (p : path) (n1 n2 n3 : node) :
  confined p n1 n2 -> confined p n2 n3 -> confined p n1 n3.
Proof.
  intros [Ha1 Hd1] [Ha2 Hd2]. split.
  - intros q Hq. now rewrite Ha2, Ha1.
  - intros q Hq Hdir. apply Hd2; [done|]. now apply Hd1.
Qed.

Lemma confined_update (p r : path) (k : string) f (n : node) :
  confined p n (update (p ++ k :: r) f n).
Proof.
  split.
  - intros q Hq. apply (apart_app_l p q (k :: r)) in Hq as [? ?].
    now apply get_update_unrelated.
  - intros q [t ->] Hdir. rewrite <- app_assoc.
    destruct (t ++ k :: r) as [|k0 r0] eqn:Ht; [now destruct t|].
    now apply isdir_update_above.
Qed.

Lemma confined_rename (p rs rd : path) (ks kd : string) (n n' : node) :
  rename (p ++ ks :: rs) (p ++ kd :: rd) n = inr n' -> confined p n n'.
Proof.
  unfold rename. destruct (get (p ++ ks :: rs) n) as [x|]; [|done].
  destruct (isdir _ n); [|done].
  assert (Hmv : confined p n (put (p ++ kd :: rd) x (remove (p ++ ks :: rs) n))).
  { eapply confined_trans; apply confined_update. }
  destruct x, (get (p ++ kd :: rd) n) as [[|ds]|]; try done;
    try (intros [= <-]; exact Hmv).
  case_bool_decide; [|done]. intros [= <-]; exact Hmv.
Qed.

Lemma confined_move (p rs rd : path) (ks kd : string) (n n' : node) :
  move (p ++ ks :: rs) (p ++ kd :: rd) n = inr n' -> confined p n n'.
Proof.
  unfold move. destruct (isdir _ n).
  - destruct (exists_ _ n); [done|].
    replace ((p ++ kd :: rd) ++ [basename (p ++ ks :: rs)])
      with (p ++ kd :: (rd ++ [basename (p ++ ks :: rs)]))
      by now rewrite <- app_assoc.
    apply confined_rename.
  - apply confined_rename.
Qed.

Lemma confined_makedirs (p r : path) (n n' : node) :
  makedirs (p ++ r) n = inr n' -> confined p n n'.
Proof.
  intros Hmk. split.
  - intros q Hq. apply (get_makedirs_frame _ q _ _ Hmk).
    apply (apart_app_l p q r) in Hq. apply Hq.
  - intros q _. now apply (makedirs_preserves_isdir (p ++ r)).
Qed.

Section Confined.
(** Moving a tree from below [top] to [top] or below it changes nothing
    outside [top]. *)
Variable top : path.
Variable ignore : string -> bool.

Lemma below_snoc (s : path) (name : string) : below top s -> below top (s ++ [name]).
Proof. intros (k & t & ->). exists k, (t ++ [name]). now rewrite <- app_assoc. Qed.

Lemma at_or_below_snoc (d : path) (name : string) : at_or_below top d -> below top (d ++ [name]).
Proof.
  intros (t & ->). rewrite <- app_assoc.
  destruct (t ++ [name]) as [|k r] eqn:Ht; [now destruct t|]. now exists k, r.
Qed.

Lemma below_at_or_below (s : path) : below top s -> at_or_below top s.
Proof. intros (k & t & ->). now exists (k :: t). Qed.

Lemma confined_copy2 (src rd : path) (kd : string) (n n' : node) :
  copy2 src (top ++ kd :: rd) n = inr n' -> confined top n n'.
Proof.
  unfold copy2. destruct (get src n) as [[d|]|]; try done.
  destruct (isdir (top ++ kd :: rd) n).
  - rewrite <- app_assoc. cbn [app].
    destruct (get _ n) as [[|]|]; try done;
      (destruct (isdir _ n); [|done]); intros [= <-]; apply confined_update.
  - destruct (get _ n) as [[|]|]; try done;
      (destruct (isdir _ n); [|done]); intros [= <-]; apply confined_update.
Qed.

Lemma confined_apply_copy (cf : copy_function) (src dst : path) (n n' : node) :
  (cf = Move -> below top src) -> below top dst ->
  apply_copy cf src dst n = inr n' -> confined top n n'.
Proof.
  intros Hsrc (kd & rd & ->). destruct cf; simpl.
  - apply confined_copy2.
  - destruct (Hsrc eq_refl) as (ks & rs & ->). apply confined_move.
Qed.

Lemma confined_copy_entries (cf : copy_function) recurse (src dst : path) entries :
  (forall s d x x' r, (cf = Move -> below top s) -> at_or_below top d ->
     recurse s d x = (x', r) -> confined top x x') ->
  (cf = Move -> below top src) -> at_or_below top dst ->
  forall n errors n' errors' stop,
    copy_entries recurse ignore cf src dst entries n errors = (n', errors', stop) ->
    confined top n n'.
Proof.
  intros Hrec Hsrc Hdst.
  induction entries as [|[name entry] rest IH]; intros n errors n' errors' stop; simpl.
  - intros [= <- _ _]. apply confined_refl.
  - destruct (ignore name); [apply IH|].
    destruct entry as [d|es].
    + destruct (apply_copy cf (src ++ [name]) (dst ++ [name]) n) as [e|n1] eqn:Hmv;
        [apply IH|].
      intros Hrest. apply (confined_trans _ _ n1); [|now apply IH in Hrest].
      apply (confined_apply_copy cf (src ++ [name]) (dst ++ [name])); [| |exact Hmv].
      * intros Hcf. now apply below_snoc, Hsrc.
      * now apply at_or_below_snoc.
    + destruct (recurse (src ++ [name]) (dst ++ [name]) n) as [n1 r] eqn:Hr.
      assert (Hc : confined top n n1).
      { eapply Hrec; [| |exact Hr].
        - intros Hcf. now apply below_snoc, Hsrc.
        - now apply below_at_or_below, at_or_below_snoc. }
      destruct r as [e|]; [destruct e|];
        try (intros Hrest; apply (confined_trans _ _ n1); [exact Hc|];
             now apply IH in Hrest).
      intros [= <- _ _]. exact Hc.
Qed.

Lemma confined_copytree (cf : copy_function) (limit : nat) (dirs_exist_ok : bool) :
  forall src dst n n' r, (cf = Move -> below top src) -> at_or_below top dst ->
    copytree limit ignore cf dirs_exist_ok src dst n = (n', r) ->
    confined top n n'.
Proof.
  induction limit as [|limit IH]; intros src dst n n' r Hsrc Hdst; simpl.
  - intros [= <- _]. apply confined_refl.
  - destruct (get src n) as [[d|es]|]; try (intros [= <- _]; apply confined_refl).
    destruct (makedirs_for dirs_exist_ok dst n) as [e|n1] eqn:Hmk;
      [intros [= <- _]; apply confined_refl|].
    assert (Hc1 : confined top n n1).
    { destruct Hdst as (t & ->). unfold makedirs_for in Hmk.
      destruct dirs_exist_ok; [|destruct (exists_ _ n); [done|]];
        now apply confined_makedirs in Hmk. }
    destruct (copy_entries _ ignore cf src dst (map_to_list es) n1 false)
      as [[n2 errors] stop] eqn:Hloop.
    assert (Hc2 : confined top n1 n2).
    { eapply (confined_copy_entries cf); [|exact Hsrc|exact Hdst|exact Hloop].
      intros s d x x' r'. apply IH. }
    intros Hres. assert (n' = n2) as ->
      by (destruct stop, errors; now injection Hres as <- _).
    now apply (confined_trans _ _ n1).
Qed.

End Confined.

(** *** Copying one tree over another *)

Lemma apart_app_both (p q r t : path) : apart p q -> apart (p ++ r) (q ++ t).
Proof.
  intros H. apply apart_app_l, apart_sym, apart_app_l, apart_sym, H.
Qed.

Lemma isdir_parent (p : path) (k : string) (n : node) :
  is_Some (get (p ++ [k]) n) -> isdir p n = true.
Proof.
  unfold isdir. rewrite get_app. destruct (get p n) as [[d|es]|]; try done;
    simpl; now intros [? ?].
Qed.

Lemma makedirs_existing (p : path) (n : node) :
  isdir p n = true -> makedirs p n = inr n.
Proof.
  unfold isdir. revert n. induction p as [|k p IH]; intros n; simpl.
  - now destruct n.
  - destruct n as [d|es]; [done|]. destruct (es !! k) as [c|] eqn:Hk; simpl; [|done].
    intros Hc. rewrite (IH c Hc). now rewrite insert_id.
Qed.

(** What is at [p] after [put p x]: [x], or nothing when [p] has no parent
    directory. *)
Lemma get_put_cases (p : path) (x n : node) :
  get p (put p x n) = Some x \/ get p (put p x n) = None.
Proof.
  unfold put. revert n. induction p as [|k p IH]; intros n; [now left|].
  destruct n as [d|es]; [now right|].
  destruct p as [|k2 p].
  - left. simpl. now rewrite lookup_partial_alter_eq.
  - rewrite update_below by done. simpl. rewrite lookup_alter_eq.
    destruct (es !! k) as [c|]; simpl; [apply IH|now right].
Qed.

(** Writing a file where there is no directory changes nothing below. *)
Lemma get_below_put_file (p r : path) (d : fdata) (n : node) :
  (forall es, get p n <> Some (Dir es)) -> r <> [] ->
  get (p ++ r) (put p (File d) n) = get (p ++ r) n.
Proof.
  intros Hnodir Hr. rewrite !get_app.
  destruct (get_put_cases p (File d) n) as [-> | ->];
    destruct (get p n) as [[d'|es]|]; simpl; try done;
    try (now destruct r); now destruct (Hnodir es).
Qed.

Lemma basename_snoc (p : path) (k : string) : basename (p ++ [k]) = k.
Proof. unfold basename. apply last_last. Qed.

(** [copy2] changes nothing apart from its destination. *)
Lemma get_copy2_apart (src dst q : path) (n n' : node) :
  copy2 src dst n = inr n' -> apart dst q -> get q n' = get q n.
Proof.
  unfold copy2. destruct (get src n) as [[d|]|]; try done. intros H Hq.
  destruct (isdir dst n);
    destruct (get _ n) as [[|]|]; try done;
    (destruct (isdir _ n); [|done]); injection H as <-;
    apply get_put_apart; try done; now apply apart_app_l.
Qed.

Section Overlay.
Variable ignore : string -> bool.

Lemma copytree_copy2_frame (limit : nat) (ok : bool) (src dst q : path) (n n' : node) r :
  copytree limit ignore Copy2 ok src dst n = (n', r) -> apart dst q ->
  get q n' = get q n.
Proof.
  intros Hcp Hq.
  eapply (confined_copytree dst ignore Copy2) in Hcp as [Hframe _].
  - now apply Hframe.
  - discriminate.
  - exists []. now rewrite app_nil_r.
Qed.

(** The loop over entries changes nothing at a path that is apart from the
    destination of each of them. *)
Lemma copy_entries_frame (limit : nat) (ok : bool) (src dst q : path) entries :
  (forall e, e ∈ entries.*1 -> apart (dst ++ [e]) q) ->
  forall n errors n' errors' stop,
    copy_entries (copytree limit ignore Copy2 ok) ignore Copy2 src dst entries n errors
      = (n', errors', stop) ->
    get q n' = get q n.
Proof.
  induction entries as [|[name entry] rest IH]; intros Hq n errors n' errors' stop.
  - now intros [= <- _ _].
  - assert (Hhead : apart (dst ++ [name]) q) by (apply Hq, list_elem_of_here).
    assert (Hrest : forall e, e ∈ rest.*1 -> apart (dst ++ [e]) q)
      by (intros e He; apply Hq; now apply list_elem_of_further).
    cbn [copy_entries]. destruct (ignore name); [now apply IH|].
    destruct entry as [d|es].
    + cbn [apply_copy].
      destruct (copy2 (src ++ [name]) (dst ++ [name]) n) as [e|n1] eqn:Hcp; [now apply IH|].
      intros H. rewrite (IH Hrest _ _ _ _ _ H). now apply (get_copy2_apart _ _ _ _ _ Hcp).
    + destruct (copytree limit ignore Copy2 ok (src ++ [name]) (dst ++ [name]) n)
        as [n1 r] eqn:Hr.
      pose proof (copytree_copy2_frame _ _ _ _ q _ _ _ Hr Hhead) as H1.
      destruct r as [e|]; [destruct e|];
        try (intros H; now rewrite (IH Hrest _ _ _ _ _ H)).
      now intros [= <- _ _].
Qed.

Lemma Exists_ignored_tail (name : string) (rel : path) :
  ignore name = false -> Exists (fun k => ignore k = true) (name :: rel) ->
  Exists (fun k => ignore k = true) rel.
Proof. intros Hn H. apply Exists_cons in H as [H|H]; [congruence|done]. Qed.

Lemma Exists_nonempty {A} (P : A -> Prop) (l : list A) : Exists P l -> l <> [].
Proof. now destruct 1. Qed.

(** Copying one file leaves alone every destination path that has an
    ignored component. *)
Lemma copy2_skips (src dst : path) (name : string) (rel : path) (n n1 : node) :
  ignore name = false -> Exists (fun k => ignore k = true) rel ->
  copy2 (src ++ [name]) (dst ++ [name]) n = inr n1 ->
  get (dst ++ rel) n1 = get (dst ++ rel) n.
Proof.
  intros Hname Hrel Hcp. destruct rel as [|k rel]; [now apply Exists_nil in Hrel|].
  destruct (decide (k = name)) as [->|Hne].
  2:{ apply (get_copy2_apart _ _ _ _ _ Hcp). now apply (apart_diverge dst [] rel). }
  apply Exists_ignored_tail in Hrel; [|done].
  pose proof (Exists_nonempty _ _ Hrel) as Hne.
  unfold copy2 in Hcp. destruct (get (src ++ [name]) n) as [[d|]|]; try done.
  rewrite basename_snoc in Hcp.
  replace (dst ++ name :: rel) with ((dst ++ [name]) ++ rel) by now rewrite <- app_assoc.
  destruct (isdir (dst ++ [name]) n) eqn:Hdir.
  - destruct (get ((dst ++ [name]) ++ [name]) n) as [[d'|]|] eqn:Htarget; try done;
      (destruct (isdir (parent ((dst ++ [name]) ++ [name])) n); [|done]);
      injection Hcp as <-;
      (destruct rel as [|k2 rel]; [done|]);
      (destruct (decide (k2 = name)) as [->|Hk2];
        [ apply Exists_ignored_tail in Hrel; [|done];
          replace ((dst ++ [name]) ++ name :: rel)
            with (((dst ++ [name]) ++ [name]) ++ rel) by (now rewrite <- app_assoc);
          apply get_below_put_file;
          [intros es; rewrite Htarget; discriminate | now apply (Exists_nonempty _ _ Hrel)]
        | apply get_put_apart; now apply (apart_diverge (dst ++ [name]) [] rel) ]).
  - assert (Hnodir : forall es, get (dst ++ [name]) n <> Some (Dir es)).
    { intros es Hes. unfold isdir in Hdir. now rewrite Hes in Hdir. }
    destruct (get (dst ++ [name]) n) as [[d'|]|] eqn:Htarget; try done;
      (destruct (isdir (parent (dst ++ [name])) n); [|done]); injection Hcp as <-;
      apply get_below_put_file; try done; rewrite Htarget; exact Hnodir.
Qed.

(** A copy leaves alone every destination path that has an ignored
    component: what the pattern matches is not copied, at any depth. *)
Lemma copytree_skips (limit : nat) (ok : bool) :
  forall src dst n n' r rel,
    Exists (fun k => ignore k = true) rel ->
    copytree limit ignore Copy2 ok src dst n = (n', r) ->
    get (dst ++ rel) n' = get (dst ++ rel) n.
Proof.
  induction limit as [|limit IH]; intros src dst n n' r rel Hrel; simpl.
  - now intros [= <- _].
  - destruct (get src n) as [[d|es]|]; try (now intros [= <- _]).
    destruct (makedirs_for ok dst n) as [e|n1] eqn:Hmk; [now intros [= <- _]|].
    assert (H1 : get (dst ++ rel) n1 = get (dst ++ rel) n).
    { assert (Hmk' : makedirs dst n = inr n1).
      { unfold makedirs_for in Hmk. destruct ok; [done|]. now destruct (exists_ dst n). }
      apply (get_makedirs_frame _ _ _ _ Hmk'). intros Hpre.
      apply prefix_length in Hpre. rewrite length_app in Hpre.
      pose proof (Exists_nonempty _ _ Hrel). destruct rel; [done|]. simpl in Hpre. lia. }
    destruct (copy_entries _ ignore Copy2 src dst (map_to_list es) n1 false)
      as [[n2 errors] stop] eqn:Hloop.
    assert (H2 : get (dst ++ rel) n2 = get (dst ++ rel) n1).
    { clear H1 Hmk. revert Hloop. generalize false. generalize n1.
      induction (map_to_list es) as [|[name entry] rest IHl]; intros m errs.
      - now intros [= <- _ _].
      - cbn [copy_entries]. destruct (ignore name) eqn:Hname; [apply IHl|].
        destruct entry as [d|es'].
        + cbn [apply_copy].
          destruct (copy2 (src ++ [name]) (dst ++ [name]) m) as [e|m1] eqn:Hcp; [apply IHl|].
          intros H. rewrite (IHl _ _ H). now apply (copy2_skips src dst name).
        + destruct (copytree limit ignore Copy2 ok (src ++ [name]) (dst ++ [name]) m)
            as [m1 r1] eqn:Hr.
          assert (Hm1 : get (dst ++ rel) m1 = get (dst ++ rel) m).
          { destruct rel as [|k rel]; [now apply Exists_nil in Hrel|].
            destruct (decide (k = name)) as [->|Hne].
            - apply Exists_ignored_tail in Hrel; [|done].
              replace (dst ++ name :: rel) with ((dst ++ [name]) ++ rel)
                by (now rewrite <- app_assoc).
              now apply (IH _ _ _ _ _ _ Hrel Hr).
            - apply (copytree_copy2_frame _ _ _ _ _ _ _ _ Hr).
              now apply (apart_diverge dst [] rel). }
          destruct r1 as [e|]; [destruct e|];
            try (intros H; now rewrite (IHl _ _ H)).
          now intros [= <- _ _]. }
    intros Hres. assert (n' = n2) as ->
      by (destruct stop, errors; now injection Hres as <- _).
    now rewrite H2.
Qed.

(** The loop handles its first entry and then the others. *)
Lemma copy_entries_cons recurse (cf : copy_function) (src dst : path)
    (entry : string * node) rest (n : node) (errors : bool) :
  copy_entries recurse ignore cf src dst (entry :: rest) n errors =
  match copy_entries recurse ignore cf src dst [entry] n errors with
  | (n1, errors1, true) => (n1, errors1, true)
  | (n1, errors1, false) => copy_entries recurse ignore cf src dst rest n1 errors1
  end.
Proof.
  destruct entry as [name x]. cbn [copy_entries].
  destruct (ignore name); [done|]. destruct x as [d|es].
  - now destruct (apply_copy cf (src ++ [name]) (dst ++ [name]) n).
  - destruct (recurse (src ++ [name]) (dst ++ [name]) n) as [n1 [e|]]; [|done].
    now destruct e.
Qed.

Lemma get_File_below (r : path) (x : node) (d : fdata) :
  get r x = Some (File d) ->
  (r = [] /\ x = File d) \/ (r <> [] /\ exists es, x = Dir es).
Proof.
  destruct r as [|k r]; simpl.
  - intros [= ->]. now left.
  - destruct x as [d'|es]; [done|]. intros _. right. split; [done|]. now exists es.
Qed.

Section Overwrite.
(** One level of the copy, given that the copies of subdirectories put the
    source's files over the files of the destination. *)
Variable limit : nat.
Hypothesis IHlimit : forall src dst n n' r rel d d0,
  apart src dst ->
  copytree limit ignore Copy2 true src dst n = (n', r) -> r <> Some RecursionError ->
  rel <> [] -> Forall (fun k => ignore k = false) rel ->
  get (src ++ rel) n = Some (File d) -> get (dst ++ rel) n = Some (File d0) ->
  get (dst ++ rel) n' = Some (File d).

Lemma overwrite_entry (src dst : path) (name : string) (rel : path) (y : node)
    (d d0 : fdata) (n n1 : node) (errors errors1 : bool) :
  apart src dst -> ignore name = false -> Forall (fun k => ignore k = false) rel ->
  get rel y = Some (File d) ->
  get (src ++ [name]) n = Some y -> get (dst ++ name :: rel) n = Some (File d0) ->
  copy_entries (copytree limit ignore Copy2 true) ignore Copy2 src dst [(name, y)] n errors
    = (n1, errors1, false) ->
  get (dst ++ name :: rel) n1 = Some (File d).
Proof.
  intros Hap Hname Hrel Hy Hsrc Hdst. cbn [copy_entries]. rewrite Hname.
  destruct (get_File_below rel y d Hy) as [[-> ->]|[Hne [es ->]]].
  - assert (Hfile : isdir (dst ++ [name]) n = false)
      by (unfold isdir; now rewrite Hdst).
    assert (Hparent : isdir dst n = true)
      by (apply (isdir_parent dst name n); rewrite Hdst; eauto).
    cbn [apply_copy]. unfold copy2. rewrite Hsrc. cbv zeta.
    rewrite Hfile, Hdst, parent_snoc, Hparent.
    intros [= <- _]. now apply get_put_child.
  - destruct (copytree limit ignore Copy2 true (src ++ [name]) (dst ++ [name]) n)
      as [n2 r] eqn:Hr.
    assert (Hgoal : r <> Some RecursionError -> get (dst ++ name :: rel) n2 = Some (File d)).
    { intros Hrec.
      replace (dst ++ name :: rel) with ((dst ++ [name]) ++ rel) in *
        by (now rewrite <- app_assoc).
      eapply (IHlimit _ _ _ _ _ rel d d0); [|exact Hr|done|done|done| |exact Hdst].
      - now apply apart_app_both.
      - now rewrite (get_below _ rel n _ Hsrc). }
    destruct r as [e|]; [destruct e|]; try done;
      intros [= <- _]; now apply Hgoal.
Qed.

Lemma overwrite_loop (src dst : path) (name : string) (rel : path) (y : node)
    (d d0 : fdata) (entries : list (string * node)) :
  apart src dst -> ignore name = false -> Forall (fun k => ignore k = false) rel ->
  get rel y = Some (File d) ->
  NoDup entries.*1 -> (name, y) ∈ entries ->
  forall n errors n' errors',
    get (src ++ [name]) n = Some y -> get (dst ++ name :: rel) n = Some (File d0) ->
    copy_entries (copytree limit ignore Copy2 true) ignore Copy2 src dst entries n errors
      = (n', errors', false) ->
    get (dst ++ name :: rel) n' = Some (File d).
Proof.
  intros Hap Hname Hrel Hy.
  induction entries as [|[e x] rest IH]; intros Hnd Hin n errors n' errors' Hsrc Hdst.
  - now apply not_elem_of_nil in Hin.
  - rewrite fmap_cons in Hnd. apply NoDup_cons in Hnd as [Hfresh Hnd]. simpl in Hfresh.
    rewrite copy_entries_cons.
    destruct (copy_entries _ ignore Copy2 src dst [(e, x)] n errors)
      as [[n1 errors1] stop1] eqn:Hhead.
    destruct stop1; [done|]. intros Hrest.
    apply elem_of_cons in Hin as [[= <- <-]|Hin].
    + rewrite (copy_entries_frame limit true src dst _ rest) with (n := n1)
              (errors := errors1) (n' := n') (errors' := errors') (stop := false);
        [|intros e' He'|exact Hrest].
      * now apply (overwrite_entry src dst name rel y d d0 n n1 errors errors1).
      * apply (apart_diverge dst [] rel). intros ->. contradiction.
    + assert (Hne : e <> name).
      { intros ->. apply Hfresh. apply list_elem_of_fmap. now exists (name, y). }
      apply (IH Hnd Hin n1 errors1 n' errors'); [| |exact Hrest].
      * rewrite <- Hsrc.
        apply (copy_entries_frame limit true src dst _ [(e, x)] ) with (2 := Hhead).
        intros e' He'. apply list_elem_of_singleton in He' as ->.
        apply apart_app_both. now apply apart_sym.
      * rewrite <- Hdst.
        apply (copy_entries_frame limit true src dst _ [(e, x)] ) with (2 := Hhead).
        intros e' He'. apply list_elem_of_singleton in He' as ->.
        now apply (apart_diverge dst [] rel).
Qed.

End Overwrite.

(** A copy with [dirs_exist_ok] puts every file of the source that no
    pattern ignores over the file at the same relative path of the
    destination. *)
Lemma copytree_overwrites (limit : nat) :
  forall src dst n n' r rel d d0,
    apart src dst ->
    copytree limit ignore Copy2 true src dst n = (n', r) -> r <> Some RecursionError ->
    rel <> [] -> Forall (fun k => ignore k = false) rel ->
    get (src ++ rel) n = Some (File d) -> get (dst ++ rel) n = Some (File d0) ->
    get (dst ++ rel) n' = Some (File d).
Proof.
  induction limit as [|limit IH]; intros src dst n n' r rel d d0 Hap; cbn [copytree].
  - intros [= <- <-] Hr. contradiction.
  - intros Hcp Hr Hne Hrel Hsrc Hdst.
    destruct rel as [|name rel]; [done|]. clear Hne.
    apply Forall_cons in Hrel as [Hname Hrel].
    rewrite get_app in Hsrc.
    destruct (get src n) as [[ds|es]|] eqn:Hs; [done| |done].
    simpl in Hsrc. destruct (es !! name) as [y|] eqn:Hy; [|done]. simpl in Hsrc.
    assert (Hdir : isdir dst n = true).
    { unfold isdir. rewrite get_app in Hdst.
      destruct (get dst n) as [[|]|]; done. }
    unfold makedirs_for in Hcp. rewrite (makedirs_existing dst n Hdir) in Hcp.
    destruct (copy_entries _ ignore Copy2 src dst (map_to_list es) n false)
      as [[n2 errors] stop] eqn:Hloop.
    destruct stop; [destruct errors; injection Hcp as _ <-; contradiction|].
    assert (n' = n2) as -> by (destruct errors; now injection Hcp as <- _).
    eapply (overwrite_loop limit IH src dst name rel y d d0 (map_to_list es));
      try done.
    + apply NoDup_fst_map_to_list.
    + now apply elem_of_map_to_list.
    + rewrite (get_below src [name] n _ Hs). simpl. now rewrite Hy.
Qed.

End Overlay.

End ShutilFacts.

(** ** The merge step *)

Module MergeFacts.
Import FS Shutil Pipeline Merge FSFacts PipelineFacts ShutilFacts.

Lemma get_ar_extract_apart (dir archive q : path) (n : node) :
  (forall name, apart (dir ++ [name]) q) ->
  get q (ar_extract dir archive n) = get q n.
Proof.
  intros Hq. unfold ar_extract.
  destruct (get archive n) as [[[|members]|]|]; try done.
  clear archive. revert n. induction members as [|m members IH]; intros n; simpl; [done|].
  rewrite IH. now apply get_write_file_apart.
Qed.

Section Frame.
(** A path [q] away from the staging folder [aux] keeps what it holds
    while archives are staged there, in a shell whose commands leave what
    is away from their working directory as it is. *)
Variables (aux q : path) (v : option node).
Variable platform : string.
Variable run_cmd : string -> path -> node -> Z * node.
Hypothesis Haux : apart aux q.
Hypothesis Hlocal : forall c dir x q, apart dir q -> get q (run_cmd c dir x).2 = get q x.

Lemma apart_aux (r : path) : apart (aux ++ r) q.
Proof. now apply apart_app_l. Qed.

Lemma stage_file_frame (binutils : string) (root : path) (f : string) :
  triple (holds q v) (stage_file platform run_cmd binutils aux root f)
         (fun _ => (holds q v)) (holds q v).
Proof.
  unfold stage_file. destruct (PyStr.endswith f ".a"); [|now intros w Hw].
  eapply triple_bind.
  { apply (triple_fs_call (holds q v) _ (fun _ => (holds q v))); [|auto].
    intros w x Hw Hmk. unfold holds in *. simpl.
    rewrite (get_makedirs_frame _ q _ _ Hmk); [done|].
    apply (apart_aux ["naming"]). }
  intros []. eapply (triple_bind _ _ _ (fun _ => (holds_in (aux ++ ["naming"]) q v))).
  { intros w Hw. unfold chdir.
    destruct (get (aux ++ ["naming"]) (fs w)) as [[|es]|]; done. }
  intros []. eapply (triple_bind _ _ _ (fun _ => (holds_in (aux ++ ["naming"]) q v))).
  { intros w [Hw Hcwd]. unfold os_system_ar_x.
    destruct (shell_word _); (split; [|exact Hcwd]); unfold holds in *; simpl.
    - rewrite get_ar_extract_apart; [done|].
      intros name. rewrite Hcwd, <- app_assoc. apply apart_aux.
    - rewrite Hlocal; [done|]. rewrite Hcwd. apply apart_aux. }
  intros []. eapply (triple_bind _ _ _ (fun _ => (holds_in (aux ++ ["naming"]) q v))).
  { intros w Hw. unfold listdir_cwd. destruct (listdir (cwd w) (fs w)); [done|].
    now destruct Hw. }
  intros listed.
  eapply triple_conseq; [apply (triple_for_each (holds_in (aux ++ ["naming"]) q v)) | done |].
  - intros obj _ w [Hw Hcwd]. unfold fs_call.
    destruct (os_rename _ _ _ (fs w)) as [e|x] eqn:Hmv; [exact Hw|].
    split; [|exact Hcwd]. unfold holds in *. simpl.
    unfold os_rename in Hmv. destruct (_ && _); [done|].
    rewrite Hcwd, parent_snoc in Hmv.
    eapply eq_trans; [|exact Hw].
    eapply get_rename_apart; [| |exact Hmv].
    + rewrite <- app_assoc. apply apart_aux.
    + apply apart_aux.
  - now intros _ w [Hw _].
Qed.

Lemma stage_archives_frame (binutils : string) (walked : list (path * list string)) :
  triple (holds q v) (stage_archives platform run_cmd binutils aux walked)
         (fun _ => (holds q v)) (holds q v).
Proof.
  unfold stage_archives. apply triple_for_each. intros rf _.
  apply triple_for_each. intros f _. apply stage_file_frame.
Qed.

End Frame.

Lemma aux_apart_library_path (b : Build) (k : string) (r : path) :
  build_folder b = default_build (library_folder b) ->
  apart (aux_folder b) (library_path b ++ k :: r).
Proof.
  intros Hb. unfold aux_folder, library_path, default_build in *. rewrite Hb.
  rewrite <- !app_assoc. simpl. now apply apart_diverge.
Qed.

(** Once [package_mcu_library] has its archiver, a merge command that
    reports failure ends the run with a nonzero exit (or an exception sooner)
    and nothing is left below the final artifact directory. *)
Lemma failed_merge_triple platform limit order run_cmd (b : Build) (k : string) (r : path) :
  build_folder b = default_build (library_folder b) ->
  (forall c dir x q, apart dir q -> get q (run_cmd c dir x).2 = get q x) ->
  (forall c dir x, (run_cmd c dir x).1 <> 0%Z) ->
  triple (fun w => String.eqb platform "darwin" = true ->
                   exists_ homebrew_binutils_path (fs w) = true)
         (package_mcu_library platform limit order run_cmd b)
         (fun _ _ => False)
         (holds (library_path b ++ k :: r) None).
Proof.
  intros Hb Hlocal Hfail.
  pose proof (aux_apart_library_path b k r Hb) as Hapart.
  set (q := library_path b ++ k :: r) in *.
  unfold package_mcu_library.
  eapply (triple_bind _ _ _ (fun _ _ => True)).
  { intros w Hw. unfold resolve_binutils_path.
    destruct (String.eqb platform "darwin"); [|done].
    now rewrite (Hw eq_refl). }
  intros binutils. eapply (triple_bind _ _ _ (fun _ _ => True)); [done|].
  intros []. eapply (triple_bind _ _ _ (fun _ => holds q None)).
  { intros w _. unfold fs_do, holds, rmtree_ignore_errors. simpl.
    destruct (get (library_path b) (fs w)) as [[d|es]|] eqn:Hlp.
    - unfold q. now rewrite get_app, Hlp.
    - apply get_remove_below. unfold library_path. now destruct (library_folder b).
    - unfold q. now rewrite get_app, Hlp. }
  intros []. eapply (triple_bind _ _ _ (fun _ => holds q None)).
  { apply triple_fs_call; [|auto]. intros w x Hw Hmk. unfold holds in *. simpl.
    rewrite (get_makedirs_frame _ q _ _ Hmk); [done|]. apply Hapart. }
  intros []. eapply (triple_bind _ _ _ (fun _ => holds q None)).
  { apply triple_fs_call; [|auto]. intros w x Hw Hmk. unfold holds in *. simpl.
    rewrite (get_makedirs_frame _ q _ _ Hmk); [done|].
    unfold q. intros Hpre. apply prefix_length in Hpre.
    rewrite length_app in Hpre. simpl in Hpre. lia. }
  intros []. eapply (triple_bind _ _ _ (fun _ => holds q None)).
  { intros w Hw. now apply (stage_archives_frame (aux_folder b) q None platform run_cmd Hapart Hlocal). }
  intros []. eapply (triple_bind _ _ _ (fun _ => holds_in (aux_folder b) q None)).
  { intros w Hw. unfold chdir.
    destruct (get (aux_folder b) (fs w)) as [[|es]|]; done. }
  intros []. eapply (triple_bind _ _ _ (fun rc w => rc <> 0%Z /\ holds q None w)).
  { intros w [Hw Hcwd]. unfold run_merge.
    destruct (run_cmd _ (cwd w) (fs w)) as [rc x] eqn:Hrun. split.
    - specialize (Hfail (merge_command_line binutils) (cwd w) (fs w)).
      now rewrite Hrun in Hfail.
    - unfold holds in *. simpl.
      specialize (Hlocal (merge_command_line binutils) (cwd w) (fs w) q).
      rewrite Hrun in Hlocal. simpl in Hlocal. rewrite Hlocal; [done|].
      now rewrite Hcwd. }
  intros rc w [Hrc Hw].
  apply Z.eqb_neq in Hrc. rewrite Hrc. simpl. unfold bind, print, sys_exit. simpl.
  split; [done|exact Hw].
Qed.

(** C7: the merge step removes what is below the final artifact directory
    before it stages anything, and when the merge command reports a nonzero
    status the run ends with a nonzero exit, so that no library, and
    nothing else, is left below that directory. *)
Theorem failed_merge_leaves_no_library platform limit order run_cmd (b : Build) (w : World) :
  build_folder b = default_build (library_folder b) ->
  (String.eqb platform "darwin" = true ->
   exists_ homebrew_binutils_path (fs w) = true) ->
  (forall c dir x q, apart dir q -> get q (run_cmd c dir x).2 = get q x) ->
  (forall c dir x, (run_cmd c dir x).1 <> 0%Z) ->
  match package_mcu_library platform limit order run_cmd b w with
  | Returns _ _ => False
  | Exits code w' =>
      code <> 0%Z /\ get (library b) (fs w') = None /\
      forall k r, get (library_path b ++ k :: r) (fs w') = None
  | Raises _ w' =>
      get (library b) (fs w') = None /\
      forall k r, get (library_path b ++ k :: r) (fs w') = None
  end.
Proof.
  intros Hb Hbin Hlocal Hfail.
  assert (Hall : forall k r,
    match package_mcu_library platform limit order run_cmd b w with
    | Returns _ _ => False
    | Exits code w' => code <> 0%Z /\ get (library_path b ++ k :: r) (fs w') = None
    | Raises _ w' => get (library_path b ++ k :: r) (fs w') = None
    end).
  { intros k r.
    exact (failed_merge_triple platform limit order run_cmd b k r Hb Hlocal Hfail w Hbin). }
  pose proof (Hall "libmicroros.a" []) as Hlib.
  destruct (package_mcu_library platform limit order run_cmd b w) as [a w'|c w'|e w'].
  - exact Hlib.
  - destruct Hlib as [Hc Hlib]. repeat split; [exact Hc|exact Hlib|].
    intros k r. apply (Hall k r).
  - split; [exact Hlib|exact Hall].
Qed.

Lemma failed_merge_leaves_no_library_witness :
  match package_mcu_library "linux" 8 Samples.as_listed Samples.failing_cmd Samples.sample_build
          (Samples.world_of Samples.built_tree) with
  | Returns _ _ => False
  | Exits code w' =>
      code <> 0%Z /\ get (library Samples.sample_build) (fs w') = None /\
      forall k r, get (library_path Samples.sample_build ++ k :: r) (fs w') = None
  | Raises _ w' =>
      get (library Samples.sample_build) (fs w') = None /\
      forall k r, get (library_path Samples.sample_build ++ k :: r) (fs w') = None
  end.
Proof.
  apply (failed_merge_leaves_no_library "linux" 8 Samples.as_listed Samples.failing_cmd
           Samples.sample_build (Samples.world_of Samples.built_tree)).
  - reflexivity.
  - discriminate.
  - reflexivity.
  - discriminate.
Defined.

(** On the sample project the failing merge exits with status 1; the stale
    library is gone and the artifact directory is empty. *)
Example failed_merge_sample :
  match package_mcu_library "linux" 8 Samples.as_listed Samples.failing_cmd Samples.sample_build
          (Samples.world_of Samples.built_tree) with
  | Exits code w' =>
      code = 1%Z /\
      get (library Samples.sample_build) (fs w') = None /\
      get (library_path Samples.sample_build) (fs w') = Some (Dir ∅) /\
      get (library Samples.sample_build) Samples.built_tree
        = Some (Samples.file "stale library")
  | _ => False
  end.
Proof. vm_compute. repeat split. Qed.

Lemma exists_false (p : path) (n : node) : exists_ p n = false -> get p n = None.
Proof.
  unfold exists_. intros H. apply bool_decide_eq_false in H.
  destruct (get p n); [|done]. destruct H. eauto.
Qed.

(** What the include fix of one folder changes: only what is below the
    folder, and afterwards the folder has no entry of its own name. *)
Lemma flatten_folder_effect (limit : nat) (inc : path) (g : string) (n n' : node) :
  flatten_folder limit inc g n = (n', None) ->
  confined (inc ++ [g]) n n' /\ get (inc ++ [g; g]) n' = None.
Proof.
  unfold flatten_folder.
  replace (inc ++ [g; g]) with ((inc ++ [g]) ++ [g]) by now rewrite <- app_assoc.
  destruct (exists_ ((inc ++ [g]) ++ [g]) n) eqn:Hex.
  - destruct (copytree limit ignore_nothing Move true _ _ n) as [n1 [e|]] eqn:Hcp; [done|].
    unfold rmtree. destruct (get ((inc ++ [g]) ++ [g]) n1) as [[d|es]|]; try done.
    intros [= <-]. split.
    + apply (confined_trans _ _ n1).
      * eapply (confined_copytree _ _ Move); [| |exact Hcp].
        -- intros _. now exists g, [].
        -- exists []. now rewrite app_nil_r.
      * apply confined_update.
    + pose proof (get_remove_below ((inc ++ [g]) ++ [g]) [] n1) as Hrm.
      rewrite app_nil_r in Hrm. apply Hrm. now destruct inc.
  - intros [= <-]. split; [apply confined_refl|]. now apply exists_false.
Qed.

Lemma flatten_folders_effect (limit : nat) (inc : path) (folders : list string) :
  forall n n', flatten_folders limit inc folders n = (n', None) ->
    (forall f, get (inc ++ [f; f]) n = None \/ f ∈ folders ->
               get (inc ++ [f; f]) n' = None) /\
    (forall f, f ∉ folders -> get (inc ++ [f]) n' = get (inc ++ [f]) n) /\
    (isdir inc n = true -> isdir inc n' = true).
Proof.
  induction folders as [|g rest IH]; intros n n'; simpl.
  - intros [= <-]. split; [|done]. intros f [?|Hin]; [done|]. now apply not_elem_of_nil in Hin.
  - destruct (flatten_folder limit inc g n) as [n1 [e|]] eqn:Hg; [done|].
    intros Hrest. apply flatten_folder_effect in Hg as [[Hframe Hdirs] Hgone].
    destruct (IH _ _ Hrest) as (IH1 & IH2 & IH3). split; [|split].
    + intros f Hf. apply IH1.
      destruct (decide (f = g)) as [->|Hne]; [now left|].
      destruct Hf as [Hf|Hf].
      * left. rewrite Hframe; [done|]. now apply (apart_diverge inc [] [f]).
      * right. apply elem_of_cons in Hf as [?|?]; done.
    + intros f Hf. apply not_elem_of_cons in Hf as [Hne Hf].
      rewrite IH2 by done. apply Hframe. now apply (apart_diverge inc [] []).
    + intros Hdir. apply IH3, Hdirs; [|done]. now apply prefix_app_r.
Qed.

(** A pass over folders none of which has an entry of its own name does
    nothing. *)
Lemma flatten_folders_noop (limit : nat) (inc : path) (folders : list string) (n : node) :
  (forall f, f ∈ folders -> get (inc ++ [f; f]) n = None) ->
  flatten_folders limit inc folders n = (n, None).
Proof.
  induction folders as [|g rest IH]; intros Hnone; simpl; [done|].
  unfold flatten_folder.
  replace ((inc ++ [g]) ++ [g]) with (inc ++ [g; g]) by now rewrite <- app_assoc.
  unfold exists_. rewrite (Hnone g) by apply list_elem_of_here.
  rewrite bool_decide_eq_false_2 by (now intros [? ?]).
  apply IH. intros f Hf. apply Hnone. now apply list_elem_of_further.
Qed.

(** C2: when the flatten pass has run to its end on an include tree, a
    second pass over the result runs to its end too and leaves the tree
    exactly as the first pass left it. *)
Theorem flatten_idempotent (limit limit' : nat) (inc : path) (n n' : node) :
  flatten_includes limit inc n = (n', None) ->
  flatten_includes limit' inc n' = (n', None).
Proof.
  unfold flatten_includes.
  destruct (listdir inc n) as [folders|] eqn:Hls; [|done].
  intros Hpass. destruct (flatten_folders_effect _ _ _ _ _ Hpass) as (Hgone & Hkeep & Hdir).
  assert (Hisdir : isdir inc n' = true).
  { apply Hdir, listdir_isdir. eauto. }
  apply listdir_isdir in Hisdir as [folders' Hls']. rewrite Hls'.
  apply flatten_folders_noop. intros f Hf. apply Hgone.
  destruct (decide (f ∈ folders)) as [Hin|Hout]; [now right|].
  exfalso. apply (elem_of_listdir _ _ _ f Hls') in Hf.
  rewrite (Hkeep f Hout) in Hf. now apply (elem_of_listdir _ _ _ f Hls) in Hf.
Qed.

Lemma flatten_idempotent_witness :
  flatten_includes 3 ["include"] Samples.flat_includes = (Samples.flat_includes, None).
Proof.
  apply (flatten_idempotent 8 3 ["include"] Samples.nested_includes Samples.flat_includes).
  vm_compute. reflexivity.
Defined.

(** *** The staging folder, seen from inside *)

Lemma mem_char_app (c : ascii) (a b : string) :
  PyStr.mem_char c (a +:+ b) = PyStr.mem_char c a || PyStr.mem_char c b.
Proof.
  induction a as [|x a IH]; simpl; [done|]. rewrite IH. now rewrite orb_assoc.
Qed.

Lemma staged_name_underscore (f obj : string) :
  PyStr.mem_char "_"%char (staged_name f obj) = true.
Proof.
  unfold staged_name. rewrite !mem_char_app. simpl. now rewrite orb_true_r.
Qed.

Lemma staged_name_not_naming (f obj : string) : staged_name f obj <> "naming".
Proof.
  intros H. pose proof (staged_name_underscore f obj) as Hu. now rewrite H in Hu.
Qed.

Lemma staged_name_not_library (f obj : string) : staged_name f obj <> "libmicroros.a".
Proof.
  intros H. pose proof (staged_name_underscore f obj) as Hu. now rewrite H in Hu.
Qed.

Lemma makedirs_naming_fresh (S : gmap string fdata) :
  S !! "naming" = None ->
  makedirs ["naming"] (Dir (File <$> S)) = inr (staging S ∅).
Proof.
  intros HS. simpl. rewrite lookup_fmap, HS. simpl.
  unfold staging. now rewrite fmap_empty.
Qed.

Lemma makedirs_naming_again (S N : gmap string fdata) :
  makedirs ["naming"] (staging S N) = inr (staging S N).
Proof.
  unfold staging. simpl. rewrite lookup_insert_eq. simpl.
  now rewrite insert_insert_eq.
Qed.

Lemma write_file_naming (S N : gmap string fdata) (m : string) (d : fdata) :
  write_file ["naming"; m] d (staging S N) = staging S (<[m := d]> N).
Proof.
  unfold write_file, staging, isdir, put. simpl.
  rewrite lookup_insert_eq. simpl. rewrite lookup_fmap.
  rewrite alter_insert_eq. simpl.
  destruct (N !! m); simpl; now rewrite fmap_insert.
Qed.

Lemma rename_out_of_naming (S N : gmap string fdata) (obj X : string) (d : fdata) :
  N !! obj = Some d -> X <> "naming" ->
  rename ["naming"; obj] [X] (staging S N)
  = inr (staging (<[X := d]> S) (delete obj N)).
Proof.
  intros Hobj HX. unfold rename, staging, isdir, put, remove. simpl.
  rewrite lookup_insert_eq. simpl. rewrite lookup_fmap, Hobj. simpl.
  rewrite lookup_insert_ne by done. rewrite lookup_fmap.
  rewrite alter_insert_eq. simpl.
  assert (Hres : Dir (partial_alter (fun _ => Some (File d)) X
                   (<["naming" := Dir (partial_alter (fun _ => None) obj (File <$> N))]>
                      (File <$> S)))
                 = Dir (<["naming" := Dir (File <$> delete obj N)]>
                          (File <$> <[X := d]> S))).
  { f_equal. rewrite fmap_insert, fmap_delete.
    change (partial_alter (fun _ => Some (File d)) X) with (insert (M := gmap string node) X (File d)).
    now rewrite insert_insert_ne by done. }
  destruct (S !! X); simpl; now rewrite Hres.
Qed.

Lemma listdir_naming (S N : gmap string fdata) :
  listdir ["naming"] (staging S N) = Some ((map_to_list N).*1).
Proof.
  unfold listdir, staging. simpl. rewrite lookup_insert_eq. simpl.
  unfold names. rewrite map_to_list_fmap. f_equal.
  rewrite <- list_fmap_compose. now apply list_fmap_ext.
Qed.

#[global] Instance staged_name_inj (f : string) : Inj (=) (=) (staged_name f).
Proof.
  intros a b. unfold staged_name.
  generalize (PyStr.split_dot_head f). intros stem.
  induction stem as [|c stem IH]; simpl; intros H.
  - now injection H.
  - injection H as H. now apply IH.
Qed.

Lemma naming_snoc (aux : path) (name : string) :
  (aux ++ ["naming"]) ++ [name] = aux ++ ["naming"; name].
Proof. now rewrite <- app_assoc. Qed.

(** Where a clash of names would stop [os.rename], the target is free. *)
Lemma os_rename_staged (platform : string) (aux : path) (S N : gmap string fdata)
    (obj X : string) (n : node) :
  (String.eqb platform "win32" = true -> S !! X = None) ->
  X <> "naming" -> get aux n = Some (staging S N) ->
  os_rename platform (aux ++ ["naming"; obj]) (aux ++ [X]) n
  = rename (aux ++ ["naming"; obj]) (aux ++ [X]) n.
Proof.
  intros Hwin HX Haux. unfold os_rename.
  destruct (String.eqb platform "win32"); [|done]. simpl.
  unfold exists_. rewrite (get_below aux [X] n _ Haux). unfold staging. simpl.
  rewrite lookup_insert_ne by done. rewrite lookup_fmap, (Hwin eq_refl).
  rewrite bool_decide_eq_false_2; [done|]. simpl. now intros [? ?].
Qed.

(** The loop that renames what was extracted: every file of [naming] ends
    up staged under its new name. *)
Lemma rename_loop (platform : string) (aux : path) (fs0 : node) (f : string)
    (l : list string) :
  forall (S N : gmap string fdata) (w : World),
    NoDup l -> (forall k, k ∈ l <-> is_Some (N !! k)) ->
    (String.eqb platform "win32" = true ->
     forall k, k ∈ l -> S !! staged_name f k = None) ->
    get aux (fs w) = Some (staging S N) -> cwd w = aux ++ ["naming"] ->
    unchanged_apart aux fs0 w ->
    exists w',
      for_each l (fun obj w0 =>
        fs_call (os_rename platform (cwd w0 ++ [obj])
                   (parent (cwd w0) ++ [staged_name f obj])) w0) w
      = Returns tt w' /\
      get aux (fs w') = Some (staging (kmap (staged_name f) N ∪ S) ∅) /\
      cwd w' = aux ++ ["naming"] /\ unchanged_apart aux fs0 w'.
Proof.
  induction l as [|obj l IH]; intros S N w Hnd Hkeys Hwin Haux Hcwd Hframe.
  - assert (N = ∅) as ->.
    { apply map_empty. intros k. apply eq_None_not_Some. rewrite <- Hkeys.
      apply not_elem_of_nil. }
    exists w. rewrite kmap_empty, (left_id_L ∅ (∪)). done.
  - apply NoDup_cons in Hnd as [Hfresh Hnd].
    destruct (proj1 (Hkeys obj) (list_elem_of_here _ _)) as [d Hd].
    cbn [for_each]. unfold bind at 1. unfold fs_call at 1.
    rewrite Hcwd, parent_snoc, naming_snoc.
    rewrite (os_rename_staged platform aux S N obj _ (fs w));
      [|intros Hp; apply (Hwin Hp), list_elem_of_here
       |apply staged_name_not_naming|exact Haux].
    pose proof (rename_local aux ["naming"; obj] [staged_name f obj] (fs w) _
                  ltac:(done) ltac:(done) Haux) as Hmv.
    rewrite (rename_out_of_naming S N obj _ d Hd (staged_name_not_naming f obj)) in Hmv.
    destruct Hmv as (n' & Hmv & Hn'). rewrite Hmv.
    destruct (IH (<[staged_name f obj := d]> S) (delete obj N) (with_fs n' w))
      as (w' & Hrun & Haux' & Hcwd' & Hframe'); try done.
    + intros k. rewrite lookup_delete_is_Some, <- Hkeys, elem_of_cons.
      split; [intros Hk; split; [congruence|tauto]|]. intros [? [?|?]]; done.
    + intros Hp k Hk. rewrite lookup_insert_ne.
      * apply (Hwin Hp). now apply list_elem_of_further.
      * intros Heq. apply (inj (staged_name f)) in Heq. congruence.
    + intros q Hq. simpl. rewrite <- (Hframe q Hq).
      eapply get_rename_apart; [| |exact Hmv]; now apply apart_app_l.
    + exists w'. split; [exact Hrun|]. split; [|done].
      rewrite Haux'. do 2 f_equal.
      apply map_eq. intros k. rewrite !lookup_union.
      rewrite (kmap_delete (staged_name f)).
      destruct (decide (k = staged_name f obj)) as [->|Hne].
      * rewrite lookup_delete_eq, lookup_insert_eq.
        rewrite (lookup_kmap (staged_name f) N obj), Hd. simpl.
        now destruct (S !! staged_name f obj).
      * now rewrite lookup_delete_ne, lookup_insert_ne by done.
Qed.

Lemma elem_of_map_keys {A} (m : gmap string A) (k : string) :
  k ∈ (map_to_list m).*1 <-> is_Some (m !! k).
Proof.
  rewrite list_elem_of_fmap. split.
  - intros [[k' x] [-> Hin]]. apply elem_of_map_to_list in Hin. now exists x.
  - intros [x Hx]. exists (k, x). split; [done|]. now apply elem_of_map_to_list.
Qed.

Lemma foldl_insert_union (ms : list (string * fdata)) :
  forall N : gmap string fdata, NoDup ms.*1 ->
    foldl (fun acc m => <[m.1 := m.2]> acc) N ms = list_to_map ms ∪ N.
Proof.
  induction ms as [|[k d] ms IH]; intros N Hnd.
  - simpl. now rewrite (left_id_L ∅ (∪)).
  - rewrite fmap_cons in Hnd. apply NoDup_cons in Hnd as [Hfresh Hnd].
    cbn [foldl fst snd list_to_map foldr uncurry]. rewrite IH by done.
    change (insert k d (list_to_map ms)) with (<[k := d]> (list_to_map ms : gmap string fdata)).
    rewrite <- insert_union_l. symmetry. apply insert_union_r.
    now apply not_elem_of_list_to_map.
Qed.

Lemma ar_extract_naming (aux : path) (ms : list (string * fdata)) :
  forall (S N : gmap string fdata) (n : node),
    get aux n = Some (staging S N) ->
    get aux (foldl (fun x m => write_file ((aux ++ ["naming"]) ++ [m.1]) m.2 x) n ms)
    = Some (staging S (foldl (fun acc m => <[m.1 := m.2]> acc) N ms)).
Proof.
  induction ms as [|[k d] ms IH]; intros S N n Hn; simpl; [done|].
  apply IH. rewrite naming_snoc.
  rewrite (write_file_local aux ["naming"; k] d n _ ltac:(done) Hn).
  now rewrite write_file_naming.
Qed.

Lemma filter_all {A} (P : A -> bool) (l : list A) :
  (forall x, x ∈ l -> P x = true) -> List.filter P l = l.
Proof.
  induction l as [|x l IH]; intros H; simpl; [done|].
  rewrite (H x) by apply list_elem_of_here. f_equal. apply IH.
  intros y Hy. apply H. now apply list_elem_of_further.
Qed.

(** What [ar x] extracts is what [archive_members] names. *)
Lemma ar_extract_members (dir root : path) (f : string) (n fs0 : node) :
  PyStr.endswith f ".a" = true ->
  get (root ++ [f]) n = get (root ++ [f]) fs0 ->
  ar_extract dir (root ++ [f]) n
  = foldl (fun x m => write_file (dir ++ [m.1]) m.2 x) n (archive_members fs0 (root, f)).
Proof.
  intros Hf Hget. unfold ar_extract, archive_members. simpl. rewrite Hf, Hget.
  now destruct (get (root ++ [f]) fs0) as [[[|]|]|].
Qed.

Lemma kmap_staged_no_naming (f : string) (N S : gmap string fdata) :
  S !! "naming" = None -> (kmap (staged_name f) N ∪ S) !! "naming" = None.
Proof.
  intros HS. apply lookup_union_None. split; [|done].
  apply (lookup_kmap_None (staged_name f)). intros i Hi.
  symmetry in Hi. now apply staged_name_not_naming in Hi.
Qed.

(** *** The staged files, archive by archive *)

Lemma stage_map_ext (fs fs' : node) (files : list (path * string)) :
  (forall rf, rf ∈ files -> archive_members fs rf = archive_members fs' rf) ->
  forall S, stage_map fs files S = stage_map fs' files S.
Proof.
  unfold stage_map. induction files as [|rf files IH]; intros Hsame S; [done|].
  simpl. rewrite (Hsame rf) by apply list_elem_of_here.
  apply IH. intros rf' Hrf'. apply Hsame. now apply list_elem_of_further.
Qed.

Lemma lookup_staged (f : string) (ms : list (string * fdata)) (k : string) (d : fdata) :
  (kmap (staged_name f) (list_to_map ms : gmap string fdata) : gmap string fdata) !! k
    = Some d ->
  exists m, (m, d) ∈ ms /\ k = staged_name f m.
Proof.
  intros Hk. apply (lookup_kmap_Some (staged_name f)) in Hk as (m & -> & Hm).
  exists m. split; [|done]. now apply elem_of_list_to_map_2.
Qed.

(** Every staged file is a member of one of the archives. *)
Lemma stage_map_origin (fs : node) (files : list (path * string)) (k : string) (d : fdata) :
  forall S, stage_map fs files S !! k = Some d ->
    S !! k = Some d \/
    exists rf m, rf ∈ files /\ (m, d) ∈ archive_members fs rf /\ k = staged_name rf.2 m.
Proof.
  unfold stage_map. induction files as [|rf files IH]; intros S; simpl; [now left|].
  intros Hk. apply IH in Hk as [Hk|(rf' & m & Hrf' & Hm & ->)].
  - apply lookup_union_Some_raw in Hk as [Hk|[_ Hk]]; [|now left].
    apply lookup_staged in Hk as (m & Hm & ->). right.
    exists rf, m. split; [apply list_elem_of_here|done].
  - right. exists rf', m. split; [now apply list_elem_of_further|done].
Qed.

(** Archives that stage nothing under a name leave the file of that name
    as it is. *)
Lemma stage_map_untouched (fs : node) (files : list (path * string)) (k : string) :
  (forall rf m, rf ∈ files -> m ∈ (archive_members fs rf).*1 -> staged_name rf.2 m <> k) ->
  forall S, stage_map fs files S !! k = S !! k.
Proof.
  unfold stage_map. induction files as [|rf files IH]; intros Hfree S; simpl; [done|].
  rewrite IH by (intros rf' m Hrf'; apply Hfree; now apply list_elem_of_further).
  apply lookup_union_r.
  destruct (kmap (staged_name rf.2) (list_to_map (archive_members fs rf)) !! k)
    as [d|] eqn:Hk; [|done].
  apply lookup_staged in Hk as (m & Hm & ->).
  destruct (Hfree rf m (list_elem_of_here _ _)); [|done].
  apply list_elem_of_fmap. now exists (m, d).
Qed.

(** Of the members staged under one name, the one of the archive that is
    gone through last is the one that stays. *)
Lemma stage_map_last (fs : node) (pre post : list (path * string)) (rf : path * string)
    (m : string) (d : fdata) (S : gmap string fdata) :
  NoDup (archive_members fs rf).*1 ->
  (m, d) ∈ archive_members fs rf ->
  (forall rf' m', rf' ∈ post -> m' ∈ (archive_members fs rf').*1 ->
     staged_name rf'.2 m' <> staged_name rf.2 m) ->
  stage_map fs (pre ++ rf :: post) S !! staged_name rf.2 m = Some d.
Proof.
  intros Hnd Hm Hfree. unfold stage_map. rewrite foldl_app. simpl.
  fold (stage_map fs pre S).
  fold (stage_map fs post
          (kmap (staged_name rf.2) (list_to_map (archive_members fs rf)) ∪ stage_map fs pre S)).
  rewrite stage_map_untouched by exact Hfree.
  apply lookup_union_Some_l.
  rewrite (lookup_kmap (staged_name rf.2)). now apply elem_of_list_to_map_1.
Qed.

Lemma elem_of_expected_members (fs : node) (files : list (path * string))
    (rf : path * string) (m : string) (d : fdata) :
  rf ∈ files -> (m, d) ∈ archive_members fs rf ->
  (staged_name rf.2 m, d) ∈ expected_members fs files.
Proof.
  intros Hrf Hm. unfold expected_members. apply list_elem_of_In, in_concat.
  exists (staged_members rf.2 (archive_members fs rf)). split.
  - apply in_map_iff. exists rf. split; [done|]. now apply list_elem_of_In.
  - apply in_map_iff. exists (m, d). split; [done|]. now apply list_elem_of_In.
Qed.

Lemma expected_members_app (fs : node) (l1 l2 : list (path * string)) :
  expected_members fs (l1 ++ l2) = expected_members fs l1 ++ expected_members fs l2.
Proof. unfold expected_members. now rewrite map_app, concat_app. Qed.

(** A name that no archive stages stays free. *)
Lemma stage_map_free (fs : node) (files : list (path * string)) (k : string)
    (S : gmap string fdata) :
  k ∉ (expected_members fs files).*1 -> S !! k = None ->
  stage_map fs files S !! k = None.
Proof.
  intros Hk HS. destruct (stage_map fs files S !! k) as [d|] eqn:Hd; [|done].
  apply stage_map_origin in Hd as [Hd|(rf & m & Hrf & Hm & ->)]; [congruence|].
  destruct Hk. apply list_elem_of_fmap. exists (staged_name rf.2 m, d).
  split; [done|]. now apply elem_of_expected_members.
Qed.

Lemma fresh_names_head platform (n1 n2 : list string) (S : gmap string fdata) :
  fresh_names platform (n1 ++ n2) S -> fresh_names platform n1 S.
Proof.
  intros H Hp. destruct (H Hp) as [Hnd Hfree]. apply NoDup_app in Hnd as (Hnd & _ & _).
  split; [exact Hnd|]. intros k Hk. apply Hfree, elem_of_app. now left.
Qed.

Lemma fresh_names_tail platform (n1 n2 : list string) (S S' : gmap string fdata) :
  fresh_names platform (n1 ++ n2) S ->
  (forall k, k ∉ n1 -> S !! k = None -> S' !! k = None) ->
  fresh_names platform n2 S'.
Proof.
  intros H Hnew Hp. destruct (H Hp) as [Hnd Hfree].
  apply NoDup_app in Hnd as (_ & Hdisj & Hnd). split; [exact Hnd|].
  intros k Hk. apply Hnew.
  - intros Hk1. exact (Hdisj k Hk1 Hk).
  - apply Hfree, elem_of_app. now right.
Qed.

(** One file of the walk: the members of an archive [f] end up staged under
    [staged_name f]; any other file changes nothing. *)
Lemma stage_file_spec platform run_cmd (binutils : string) (aux root : path) (f : string)
    (fs0 : node) (S : gmap string fdata) (w : World) :
  aux_ready aux S w -> unchanged_apart aux fs0 w -> stageable aux fs0 (root, f) ->
  fresh_names platform (staged_members f (archive_members fs0 (root, f))).*1 S ->
  exists w',
    stage_file platform run_cmd binutils aux root f w = Returns tt w' /\
    aux_ready aux (kmap (staged_name f) (list_to_map (archive_members fs0 (root, f))) ∪ S) w' /\
    unchanged_apart aux fs0 w'.
Proof.
  intros [HS Haux] Hframe (Hapart & Hword & Hnd & Hobj) Hwin. unfold stage_file.
  cbn [fst snd] in Hapart, Hword.
  destruct (PyStr.endswith f ".a") eqn:Hf.
  2:{ exists w. unfold archive_members. simpl. rewrite Hf. simpl.
      rewrite kmap_empty, (left_id_L ∅ (∪)). done. }
  set (ms := archive_members fs0 (root, f)) in *.
  (* makedirs *)
  assert (Hmk : exists n1, makedirs (aux ++ ["naming"]) (fs w) = inr n1 /\
                           get aux n1 = Some (staging S ∅)).
  { destruct Haux as [Haux|Haux].
    - apply (makedirs_local aux ["naming"] _ _ _ Haux). now apply makedirs_naming_fresh.
    - apply (makedirs_local aux ["naming"] _ _ _ Haux). apply makedirs_naming_again. }
  destruct Hmk as (n1 & Hmk & Hn1).
  assert (Hframe1 : forall q, apart aux q -> get q n1 = get q fs0).
  { intros q Hq. rewrite <- (Hframe q Hq). apply (get_makedirs_frame _ q _ _ Hmk).
    apply (apart_app_l aux q ["naming"] Hq). }
  unfold bind at 1. unfold fs_call at 1. rewrite Hmk.
  (* chdir *)
  unfold bind at 1. unfold chdir at 1. cbn [fs with_fs].
  rewrite (get_below aux ["naming"] n1 _ Hn1).
  unfold staging at 1. cbn [get]. rewrite lookup_insert_eq. cbn [mbind option_bind].
  (* ar x *)
  unfold bind at 1. unfold os_system_ar_x at 1. rewrite (Hword eq_refl).
  cbn [fs cwd with_fs with_cwd].
  rewrite (ar_extract_members _ root f n1 fs0 Hf (Hframe1 _ Hapart)). fold ms.
  set (n2 := foldl _ n1 ms).
  assert (Hn2 : get aux n2 = Some (staging S (list_to_map ms))).
  { unfold n2. rewrite (ar_extract_naming aux ms S ∅ n1 Hn1).
    rewrite foldl_insert_union by done. now rewrite (right_id_L ∅ (∪)). }
  assert (Hframe2 : forall q, apart aux q -> get q n2 = get q fs0).
  { intros q Hq. rewrite <- (Hframe1 q Hq). unfold n2. clear Hn2 Hwin.
    generalize n1. induction ms as [|m ms' IH]; intros n; [done|]. simpl.
    rewrite IH; [|now apply NoDup_cons in Hnd as [_ ?]
                 |intros m' Hm'; apply Hobj; now apply list_elem_of_further].
    apply get_write_file_apart. rewrite <- app_assoc. now apply apart_app_l. }
  (* listdir *)
  unfold bind at 1. unfold listdir_cwd at 1. cbn [fs cwd log_command with_fs with_cwd].
  unfold listdir. rewrite (get_below aux ["naming"] n2 _ Hn2).
  pose proof (listdir_naming S (list_to_map ms)) as Hls. unfold listdir in Hls.
  destruct (get ["naming"] (staging S (list_to_map ms))) as [[|es]|]; try done.
  injection Hls as Hls. rewrite Hls.
  rewrite filter_all.
  2:{ intros k Hk. apply Hobj. apply elem_of_map_keys in Hk as [d Hd].
      apply elem_of_list_to_map_2 in Hd. apply list_elem_of_fmap. now exists (k, d). }
  (* the renames *)
  match goal with |- context [for_each _ _ ?w0] => set (w2 := w0) end.
  destruct (rename_loop platform aux fs0 f
              ((map_to_list (list_to_map ms : gmap string fdata)).*1)
              S (list_to_map ms) w2) as (w' & Hrun & Haux' & _ & Hframe');
    try done.
  - apply NoDup_fst_map_to_list.
  - intros k. apply elem_of_map_keys.
  - intros Hp k Hk. apply (Hwin Hp).
    apply elem_of_map_keys in Hk as [d Hd]. apply elem_of_list_to_map_2 in Hd.
    apply list_elem_of_fmap. exists (staged_name f k, d). split; [done|].
    apply list_elem_of_fmap. now exists (k, d).
  - exists w'. split; [exact Hrun|]. split; [|exact Hframe'].
    split; [now apply kmap_staged_no_naming|]. now right.
Qed.

Lemma stage_files_spec platform run_cmd (binutils : string) (aux root : path) (fs0 : node)
    (files : list string) :
  forall (S : gmap string fdata) (w : World),
    aux_ready aux S w -> unchanged_apart aux fs0 w ->
    (forall f, f ∈ files -> stageable aux fs0 (root, f)) ->
    fresh_names platform (expected_members fs0 (map (fun f => (root, f)) files)).*1 S ->
    exists w',
      for_each files (fun f => stage_file platform run_cmd binutils aux root f) w
      = Returns tt w' /\
      aux_ready aux (stage_map fs0 (map (fun f => (root, f)) files) S) w' /\
      unchanged_apart aux fs0 w'.
Proof.
  induction files as [|f files IH]; intros S w Hready Hframe Hgood Hwin.
  - now exists w.
  - change (map (fun f0 => (root, f0)) (f :: files))
      with ([(root, f)] ++ map (fun f0 => (root, f0)) files) in Hwin.
    rewrite expected_members_app, fmap_app in Hwin.
    assert (Hone : expected_members fs0 [(root, f)]
                   = staged_members f (archive_members fs0 (root, f))).
    { unfold expected_members. simpl. now rewrite app_nil_r. }
    rewrite Hone in Hwin.
    destruct (stage_file_spec platform run_cmd binutils aux root f fs0 S w Hready Hframe
                (Hgood f (list_elem_of_here _ _)) (fresh_names_head _ _ _ _ Hwin))
      as (w1 & Hrun1 & Hready1 & Hframe1).
    destruct (IH _ w1 Hready1 Hframe1) as (w' & Hrun & Hready' & Hframe').
    { intros f' Hf'. apply Hgood. now apply list_elem_of_further. }
    { apply (fresh_names_tail _ _ _ _ _ Hwin). intros k Hk HS.
      apply lookup_union_None. split; [|exact HS].
      apply eq_None_not_Some. intros [d Hd]. apply lookup_staged in Hd as (m & Hm & ->).
      destruct Hk. apply list_elem_of_fmap. exists (staged_name f m, d). split; [done|].
      apply list_elem_of_fmap. now exists (m, d). }
    exists w'. cbn [for_each]. unfold bind. rewrite Hrun1. done.
Qed.

(** The staging loops as a whole. *)
Lemma stage_archives_spec platform run_cmd (binutils : string) (aux : path) (fs0 : node)
    (walked : list (path * list string)) :
  forall (S : gmap string fdata) (w : World),
    aux_ready aux S w -> unchanged_apart aux fs0 w ->
    (forall rf, rf ∈ walked_files walked -> stageable aux fs0 rf) ->
    fresh_names platform (expected_members fs0 (walked_files walked)).*1 S ->
    exists w',
      stage_archives platform run_cmd binutils aux walked w = Returns tt w' /\
      aux_ready aux (stage_map fs0 (walked_files walked) S) w' /\
      unchanged_apart aux fs0 w'.
Proof.
  unfold stage_archives.
  induction walked as [|[root files] walked IH]; intros S w Hready Hframe Hgood Hwin.
  - now exists w.
  - unfold walked_files in *. cbn [map concat fst snd] in *.
    rewrite expected_members_app, fmap_app in Hwin.
    destruct (stage_files_spec platform run_cmd binutils aux root fs0 files S w
                Hready Hframe)
      as (w1 & Hrun1 & Hready1 & Hframe1).
    { intros f Hf. apply Hgood. apply elem_of_app. left.
      apply list_elem_of_fmap. now exists f. }
    { exact (fresh_names_head _ _ _ _ Hwin). }
    destruct (IH _ w1 Hready1 Hframe1) as (w' & Hrun & Hready' & Hframe').
    { intros rf Hrf. apply Hgood. apply elem_of_app. now right. }
    { apply (fresh_names_tail _ _ _ _ _ Hwin). intros k Hk HS.
      now apply stage_map_free. }
    exists w'. cbn [for_each]. unfold bind. cbn [fst snd]. rewrite Hrun1.
    split; [exact Hrun|]. split; [|exact Hframe'].
    unfold stage_map in *. now rewrite foldl_app.
Qed.

(** *** The merge command on the staging folder *)

Lemma matching_files_staged (S : gmap string fdata) :
  (forall k, is_Some (S !! k) -> glob_objects k = true) ->
  matching_files (File <$> S) = map_to_list S.
Proof.
  intros Hglob. unfold matching_files. rewrite map_to_list_fmap.
  assert (Hall : forall kd, kd ∈ map_to_list S -> glob_objects kd.1 = true).
  { intros [k d] Hin. apply elem_of_map_to_list in Hin. apply Hglob. eauto. }
  induction (map_to_list S) as [|[k d] l IH]; [done|].
  cbn [fmap list_fmap omap list_omap prod_map fst snd id].
  pose proof (Hall (k, d) (list_elem_of_here _ _)) as Hk. simpl in Hk.
  rewrite Hk. f_equal.
  apply IH. intros kd Hkd. apply Hall. now apply list_elem_of_further.
Qed.

Lemma matching_files_staging (S : gmap string fdata) :
  S !! "naming" = None ->
  (forall k, is_Some (S !! k) -> glob_objects k = true) ->
  matching_files (<["naming" := Dir ∅]> (File <$> S)) ≡ₚ map_to_list S.
Proof.
  intros HS Hglob. unfold matching_files.
  rewrite map_to_list_insert by now rewrite lookup_fmap, HS.
  cbn [omap list_omap snd]. fold (matching_files (File <$> S)).
  now rewrite matching_files_staged.
Qed.

Lemma get_foldl_remove_apart (aux q : path) (members : list (string * fdata)) :
  (forall m, m ∈ members -> apart (aux ++ [m.1]) q) ->
  forall n, get q (foldl (fun x m => remove (aux ++ [m.1]) x) n members) = get q n.
Proof.
  induction members as [|m members IH]; intros Hq n; simpl; [done|].
  rewrite IH by (intros m' Hm'; apply Hq; now apply list_elem_of_further).
  apply get_remove_apart, Hq, list_elem_of_here.
Qed.

Lemma merge_ready_staging (S : gmap string fdata) (es : gmap string node) :
  S !! "libmicroros.a" = None ->
  (forall k, is_Some (S !! k) -> shell_word k = true) ->
  es = File <$> S \/ es = <["naming" := Dir ∅]> (File <$> S) ->
  merge_ready es = true.
Proof.
  intros Hlib Hword Hes. unfold merge_ready. apply andb_true_intro. split.
  - apply bool_decide_eq_true.
    destruct Hes as [->| ->]; [|rewrite lookup_insert_ne by done];
      now rewrite lookup_fmap, Hlib.
  - apply forallb_forall. intros [k c] Hin.
    apply list_elem_of_In, elem_of_map_to_list in Hin. cbn [fst snd].
    assert (Hc : k = "naming" \/ exists d, c = File d /\ S !! k = Some d).
    { destruct Hes as [->| ->].
      - right. rewrite lookup_fmap in Hin. destruct (S !! k) as [d|]; [|done].
        exists d. split; [|done]. now injection Hin as <-.
      - destruct (decide (k = "naming")) as [->|Hne]; [now left|right].
        rewrite lookup_insert_ne in Hin by done.
        rewrite lookup_fmap in Hin. destruct (S !! k) as [d|]; [|done].
        exists d. split; [|done]. now injection Hin as <-. }
    destruct Hc as [->|(d & -> & Hd)]; [reflexivity|].
    simpl. rewrite (Hword k) by eauto. apply orb_true_r.
Qed.

(** With every tool succeeding, the merge command leaves an archive of the
    staged files in the staging folder and touches nothing away from it. *)
Lemma merge_command_spec (aux : path) (S : gmap string fdata) (n : node) :
  S !! "naming" = None -> S !! "libmicroros.a" = None ->
  (forall k, is_Some (S !! k) -> glob_objects k = true) ->
  (forall k, is_Some (S !! k) -> shell_word k = true) ->
  (get aux n = Some (Dir (File <$> S)) \/ get aux n = Some (staging S ∅)) ->
  exists members n',
    merge_command aux n = Some (0%Z, n') /\
    members ≡ₚ map_to_list S /\
    get (aux ++ ["libmicroros.a"]) n' = Some (File (Archive members)) /\
    (forall q, apart aux q -> get q n' = get q n).
Proof.
  intros Hnaming Hlib Hglob Hword Haux. unfold merge_command.
  assert (Hes : exists es, get aux n = Some (Dir es) /\
                           matching_files es ≡ₚ map_to_list S /\
                           es !! "libmicroros.a" = None /\
                           merge_ready es = true).
  { destruct Haux as [Haux|Haux].
    - exists (File <$> S). split; [done|]. split; [|split].
      + now rewrite matching_files_staged.
      + now rewrite lookup_fmap, Hlib.
      + apply (merge_ready_staging S); auto.
    - eexists. split; [exact Haux|]. rewrite fmap_empty. split; [|split].
      + now apply matching_files_staging.
      + rewrite lookup_insert_ne by done. now rewrite lookup_fmap, Hlib.
      + apply (merge_ready_staging S); auto. }
  destruct Hes as (es & Hget & Hperm & Hfree & Hready). rewrite Hget, Hready.
  set (members := matching_files es) in *.
  exists members. eexists. split; [reflexivity|]. split; [exact Hperm|].
  assert (Hkeys : forall m, m ∈ members -> m.1 <> "libmicroros.a").
  { intros [k d] Hm. rewrite Hperm in Hm. apply elem_of_map_to_list in Hm.
    simpl. intros ->. congruence. }
  split.
  - rewrite get_foldl_remove_apart.
    + rewrite (get_below aux ["libmicroros.a"] _ (write_file ["libmicroros.a"] (Archive members) (Dir es))).
      * unfold write_file, isdir, put. simpl. rewrite Hfree. simpl.
        change (partial_alter (fun _ => Some (File (Archive members))) "libmicroros.a" es)
          with (<["libmicroros.a" := File (Archive members)]> es).
        now rewrite lookup_insert_eq.
      * now apply write_file_local.
    + intros m Hm. apply (apart_diverge aux [] []). now apply Hkeys.
  - intros q Hq. rewrite get_foldl_remove_apart.
    + apply get_write_file_apart. now apply apart_app_l.
    + intros m _. now apply apart_app_l.
Qed.

Lemma flatten_folder_confined (limit : nat) (inc : path) (g : string) (n n' : node) r :
  flatten_folder limit inc g n = (n', r) -> confined (inc ++ [g]) n n'.
Proof.
  unfold flatten_folder.
  destruct (exists_ ((inc ++ [g]) ++ [g]) n); [|intros [= <- _]; apply confined_refl].
  destruct (copytree limit ignore_nothing Move true _ _ n) as [n1 r1] eqn:Hcp.
  assert (Hc : confined (inc ++ [g]) n n1).
  { eapply (confined_copytree _ _ Move); [| |exact Hcp].
    - intros _. now exists g, [].
    - exists []. now rewrite app_nil_r. }
  destruct r1 as [e|]; [intros [= <- _]; exact Hc|].
  unfold rmtree. destruct (get ((inc ++ [g]) ++ [g]) n1) as [[d|es]|];
    try (intros [= <- _]; exact Hc).
  intros [= <- _]. apply (confined_trans _ _ n1); [exact Hc|]. apply confined_update.
Qed.

(** The flatten pass, however it ends, changes nothing away from the
    include root. *)
Lemma flatten_includes_frame (limit : nat) (inc q : path) (n n' : node) r :
  flatten_includes limit inc n = (n', r) -> apart inc q -> get q n' = get q n.
Proof.
  unfold flatten_includes. destruct (listdir inc n) as [folders|]; [|now intros [= <- _]].
  intros Hpass Hq. revert n Hpass.
  induction folders as [|g rest IH]; intros n; simpl; [now intros [= <- _]|].
  destruct (flatten_folder limit inc g n) as [n1 r1] eqn:Hg.
  apply flatten_folder_confined in Hg as [Hframe _].
  assert (H1 : get q n1 = get q n) by (apply Hframe; now apply apart_app_l).
  destruct r1 as [e|]; [now intros [= <- _]|].
  intros Hrest. now rewrite (IH _ Hrest).
Qed.

(** *** The staged files as a list *)

Lemma staged_members_keys (f : string) (ms : list (string * fdata)) (k : string) :
  k ∈ (staged_members f ms).*1 -> exists m, m ∈ ms.*1 /\ k = staged_name f m.
Proof.
  unfold staged_members. rewrite <- list_fmap_compose.
  intros Hk. apply list_elem_of_fmap in Hk as [[m d] [-> Hin]].
  exists m. split; [|done]. apply list_elem_of_fmap. now exists (m, d).
Qed.

Lemma expected_members_keys (fs : node) (files : list (path * string)) (k : string) :
  k ∈ (expected_members fs files).*1 ->
  exists rf m, rf ∈ files /\ m ∈ (archive_members fs rf).*1 /\ k = staged_name rf.2 m.
Proof.
  unfold expected_members. induction files as [|rf files IH]; simpl.
  - intros H. now apply not_elem_of_nil in H.
  - rewrite fmap_app, elem_of_app. intros [Hk|Hk].
    + apply staged_members_keys in Hk as (m & Hm & ->).
      exists rf, m. split; [apply list_elem_of_here|done].
    + destruct (IH Hk) as (rf' & m & Hrf & Hm & ->).
      exists rf', m. split; [now apply list_elem_of_further|done].
Qed.

Lemma kmap_staged_members (f : string) (ms : list (string * fdata)) :
  kmap (staged_name f) (list_to_map ms : gmap string fdata)
  =@{gmap string fdata} list_to_map (staged_members f ms).
Proof.
  rewrite (kmap_list_to_map (staged_name f)). f_equal.
Qed.

(** When no staged name occurs twice, the staged files are exactly the
    expected members. *)
Lemma stage_map_expected (fs : node) (files : list (path * string)) :
  forall S0 : gmap string fdata,
    NoDup (expected_members fs files).*1 ->
    stage_map fs files S0 = list_to_map (expected_members fs files) ∪ S0.
Proof.
  unfold stage_map, expected_members.
  induction files as [|rf files IH]; intros S0 Hnd.
  - simpl. now rewrite (left_id_L ∅ (∪)).
  - cbn [map concat foldl] in *. rewrite fmap_app in Hnd. apply NoDup_app in Hnd as (Hnd1 & Hdisj & Hnd2).
    rewrite IH by done. rewrite kmap_staged_members, list_to_map_app.
    rewrite (assoc_L (∪)). f_equal. apply map_union_comm.
    apply map_disjoint_spec. intros k x y Hx Hy.
    apply elem_of_list_to_map_2 in Hx. apply elem_of_list_to_map_2 in Hy.
    apply (Hdisj k).
    + apply list_elem_of_fmap. now exists (k, y).
    + apply list_elem_of_fmap. now exists (k, x).
Qed.

(** *** Staged names *)

Lemma staged_members_fst (f : string) (ms : list (string * fdata)) :
  (staged_members f ms).*1 = staged_name f <$> ms.*1.
Proof.
  induction ms as [|m ms IH]; [done|].
  cbn [staged_members map fmap list_fmap fst]. f_equal. exact IH.
Qed.

Lemma rmtree_ignore_gone (p : path) (n : node) :
  p <> [] -> (forall d, get p n <> Some (File d)) ->
  get p (rmtree_ignore_errors p n) = None.
Proof.
  intros Hp Hfile. unfold rmtree_ignore_errors.
  destruct (get p n) as [[d|es]|] eqn:Hget; [now destruct (Hfile d)| |done].
  pose proof (get_remove_below p [] n Hp) as H. now rewrite app_nil_r in H.
Qed.

Lemma isdir_rmtree_ignore_above (q r : path) (k : string) (n : node) :
  isdir q n = true -> isdir q (rmtree_ignore_errors (q ++ k :: r) n) = true.
Proof.
  intros H. unfold rmtree_ignore_errors.
  destruct (get (q ++ k :: r) n) as [[|]|]; try done. now apply isdir_update_above.
Qed.

Lemma makedirs_child (p : path) (k : string) (n : node) :
  isdir p n = true -> get (p ++ [k]) n = None ->
  exists n', makedirs (p ++ [k]) n = inr n' /\ get (p ++ [k]) n' = Some (Dir ∅).
Proof.
  unfold isdir. destruct (get p n) as [[d|es]|] eqn:Hp; try done. intros _ Hk.
  rewrite (get_below p [k] n _ Hp) in Hk. simpl in Hk.
  destruct (es !! k) as [c|] eqn:Hes; [done|].
  destruct (makedirs_local p [k] n (Dir es) (Dir (<[k := Dir ∅]> es)) Hp) as (n' & Hmk & Hn').
  { simpl. now rewrite Hes. }
  exists n'. split; [done|]. rewrite (get_below p [k] n' _ Hn'). simpl.
  now rewrite lookup_insert_eq.
Qed.

Lemma isdir_prefix (p r : path) (n : node) :
  isdir (p ++ r) n = true -> isdir p n = true.
Proof.
  unfold isdir. rewrite get_app. destruct (get p n) as [[d|es]|]; try done.
  simpl. now destruct r.
Qed.

Section Layout.
(** The folders of the default layout lie apart from one another. *)
Variable b : Build.
Hypothesis Hlayout : build_folder b = default_build (library_folder b).

Lemma aux_apart_lp : apart (aux_folder b) (library_path b).
Proof.
  pose proof (aux_apart_library_path b "x" [] Hlayout) as [H1 H2]. split.
  - intros H. apply H1. etrans; [exact H|]. now apply prefix_app_r.
  - intros H. unfold aux_folder, library_path, default_build in *.
    rewrite Hlayout, <- !app_assoc in H. apply prefix_app_inv in H.
    now apply prefix_cons_inv_1 in H.
Qed.

Lemma aux_apart_lib_tree (t : path) :
  apart (aux_folder b) ((mcu_folder b ++ ["install"; "lib"]) ++ t).
Proof.
  unfold aux_folder, mcu_folder. rewrite <- !app_assoc. now apply apart_diverge.
Qed.

Lemma lp_apart_lib_tree (t : path) :
  apart (library_path b) ((mcu_folder b ++ ["install"; "lib"]) ++ t).
Proof.
  unfold library_path, mcu_folder, default_build in *.
  rewrite Hlayout, <- !app_assoc. now apply apart_diverge.
Qed.

Lemma includes_apart_library : apart (includes b) (library b).
Proof. unfold includes, library. now apply (apart_diverge _ [] []). Qed.

Lemma aux_apart_library : apart (aux_folder b) (library b).
Proof. unfold library. now apply (aux_apart_library_path b _ []). Qed.

(** The two removals and the two [makedirs] leave both folders empty and
    touch nothing away from them. *)
Lemma prepare_spec (fs0 : node) :
  isdir (build_folder b) fs0 = true ->
  (forall d, get (aux_folder b) fs0 <> Some (File d)) ->
  (forall d, get (library_path b) fs0 <> Some (File d)) ->
  exists fs3 fs4,
    makedirs (aux_folder b)
      (rmtree_ignore_errors (library_path b)
         (rmtree_ignore_errors (aux_folder b) fs0)) = inr fs3 /\
    makedirs (library_path b) fs3 = inr fs4 /\
    get (aux_folder b) fs4 = Some (Dir ∅) /\
    get (library_path b) fs4 = Some (Dir ∅) /\
    (forall q, apart (aux_folder b) q -> apart (library_path b) q ->
               get q fs4 = get q fs0).
Proof.
  intros Hbuild Haux Hlp.
  pose proof aux_apart_lp as Hap.
  set (fs1 := rmtree_ignore_errors (aux_folder b) fs0).
  set (fs2 := rmtree_ignore_errors (library_path b) fs1).
  assert (Haux1 : get (aux_folder b) fs1 = None).
  { apply rmtree_ignore_gone; [|done]. unfold aux_folder. now destruct (build_folder b). }
  assert (Hbuild1 : isdir (build_folder b) fs1 = true)
    by now apply isdir_rmtree_ignore_above.
  assert (Hlp1 : get (library_path b) fs1 = get (library_path b) fs0)
    by now apply get_rmtree_ignore_apart.
  assert (Hlp2 : get (library_path b) fs2 = None).
  { apply rmtree_ignore_gone; [|now rewrite Hlp1].
    unfold library_path. now destruct (library_folder b). }
  assert (Haux2 : get (aux_folder b) fs2 = None).
  { unfold fs2. rewrite get_rmtree_ignore_apart; [done|]. now apply apart_sym. }
  assert (Hbuild2 : isdir (build_folder b) fs2 = true).
  { unfold isdir, fs2. rewrite get_rmtree_ignore_apart; [exact Hbuild1|].
    unfold library_path. rewrite Hlayout. unfold default_build.
    now apply (apart_diverge _ [] []). }
  destruct (makedirs_child (build_folder b) "aux" fs2 Hbuild2 Haux2) as (fs3 & Hmk3 & Haux3).
  assert (Hlp3 : get (library_path b) fs3 = None).
  { rewrite (get_makedirs_frame _ _ _ _ Hmk3); [done|]. apply Hap. }
  assert (Hlib3 : isdir (library_folder b) fs3 = true).
  { apply (makedirs_preserves_isdir _ _ _ _ Hmk3).
    apply (isdir_prefix _ ["build"]). now rewrite Hlayout in Hbuild2. }
  destruct (makedirs_child (library_folder b) "libmicroros" fs3 Hlib3 Hlp3)
    as (fs4 & Hmk4 & Hlp4).
  exists fs3, fs4. split; [exact Hmk3|]. split; [exact Hmk4|].
  split; [|split; [exact Hlp4|]].
  - rewrite (get_makedirs_frame _ _ _ _ Hmk4); [exact Haux3|]. apply Hap.
  - intros q Hq1 Hq2.
    rewrite (get_makedirs_frame _ _ _ _ Hmk4) by apply Hq2.
    rewrite (get_makedirs_frame _ _ _ _ Hmk3) by apply Hq1.
    unfold fs2, fs1. now rewrite !get_rmtree_ignore_apart.
Qed.

End Layout.

Lemma walked_files_roots order (top : path) (fs : node) (rf : path * string) :
  rf ∈ walked_files (walk order top fs) -> exists t, rf.1 = top ++ t.
Proof.
  unfold walked_files, walk. destruct (get top fs) as [n|]; [|intros H; now apply not_elem_of_nil in H].
  intros Hin. apply list_elem_of_In, in_concat in Hin as (l & Hl & Hrf).
  apply in_map_iff in Hl as ([r files] & <- & Hwalk).
  apply in_map_iff in Hrf as (f & <- & _).
  apply list_elem_of_In, walk_node_roots in Hwalk as [t ->]. now exists t.
Qed.

Lemma walked_files_complete order (top t : path) (f : string) (d : fdata) (fs : node) :
  (forall p l, order p l ≡ₚ l) ->
  get (top ++ t ++ [f]) fs = Some (File d) ->
  (top ++ t, f) ∈ walked_files (walk order top fs).
Proof.
  intros Hperm Hget. rewrite get_app in Hget. unfold walk.
  destruct (get top fs) as [n|]; [|done]. simpl in Hget.
  destruct (walk_node_complete order n t Hperm top f d Hget) as (files & Hin & Hf).
  unfold walked_files. apply list_elem_of_In, in_concat.
  exists (map (fun f0 => (top ++ t, f0)) files). split.
  - apply in_map_iff. exists (top ++ t, files). split; [done|]. now apply list_elem_of_In.
  - apply in_map_iff. exists f. split; [done|]. now apply list_elem_of_In.
Qed.

Lemma glob_staged_name (f m : string) :
  PyStr.endswith m ".obj" = true -> glob_objects (staged_name f m) = true.
Proof.
  intros Hm. unfold glob_objects, staged_name.
  change "__" with ("_" +:+ "_").
  rewrite PyStrFacts.append_assoc, PyStrFacts.split_dot_head_not_hidden. simpl.
  rewrite <- !PyStrFacts.append_assoc.
  rewrite (PyStrFacts.endswith_append _ m ".obj" Hm). apply orb_true_r.
Qed.

Lemma length_append (a b : string) :
  String.length (a +:+ b) = String.length a + String.length b.
Proof. induction a as [|x a IH]; simpl; [done|]. now rewrite IH. Qed.

Lemma append_cancel_r (a b c : string) : a +:+ c = b +:+ c -> a = b.
Proof.
  revert b. induction a as [|x a IH]; intros [|y b] H; simpl in H.
  - done.
  - apply (f_equal String.length) in H. rewrite !length_append in H.
    simpl in H. lia.
  - apply (f_equal String.length) in H. rewrite !length_append in H.
    simpl in H. lia.
  - injection H as -> H. f_equal. now apply IH.
Qed.

(** Members of one name get the same staged name only from archives of
    one stem. *)
Lemma staged_name_same_member (f f' m : string) :
  staged_name f m = staged_name f' m ->
  PyStr.split_dot_head f = PyStr.split_dot_head f'.
Proof. unfold staged_name. apply append_cancel_r. Qed.

(** *** The merged library *)

(** In the default layout, with the archiver at hand and its tools
    succeeding, the library file holds the staged files: one member for
    each staged name.  Where [os.rename] does not replace a file, this
    needs the staged names to be distinct. *)
Lemma package_library_staged platform limit order run_cmd (b : Build) (w : World) :
  build_folder b = default_build (library_folder b) ->
  (String.eqb platform "darwin" = true -> exists_ homebrew_binutils_path (fs w) = true) ->
  isdir (build_folder b) (fs w) = true ->
  (forall d, get (aux_folder b) (fs w) <> Some (File d)) ->
  (forall d, get (library_path b) (fs w) <> Some (File d)) ->
  (forall binutils dir x r,
     merge_command dir x = Some r -> run_cmd (merge_command_line binutils) dir x = r) ->
  (forall rf, rf ∈ walked_files (walk order (mcu_folder b ++ ["install"; "lib"]) (fs w)) ->
     well_named (fs w) rf /\ NoDup (archive_members (fs w) rf).*1) ->
  fresh_names platform
    (expected_members (fs w)
       (walked_files (walk order (mcu_folder b ++ ["install"; "lib"]) (fs w)))).*1 ∅ ->
  exists members,
    members ≡ₚ map_to_list
                 (stage_map (fs w)
                    (walked_files (walk order (mcu_folder b ++ ["install"; "lib"]) (fs w)))
                    ∅) /\
    get (library b)
        (fs (final_state (package_mcu_library platform limit order run_cmd b w)))
    = Some (File (Archive members)).
Proof.
  intros Hlayout Hbin Hbuild Hauxf Hlpf Htools Hmembers Hfresh.
  set (top := mcu_folder b ++ ["install"; "lib"]) in *.
  set (files := walked_files (walk order top (fs w))) in *.
  destruct (prepare_spec b Hlayout (fs w) Hbuild Hauxf Hlpf)
    as (fs3 & fs4 & Hmk3 & Hmk4 & Haux4 & Hlp4 & Hframe4).
  (* the input archives are out of the way of the preparation *)
  assert (Hin4 : forall t, get (top ++ t) fs4 = get (top ++ t) (fs w)).
  { intros t. apply Hframe4; [apply aux_apart_lib_tree|now apply lp_apart_lib_tree]. }
  assert (Hwalk4 : walk order top fs4 = walk order top (fs w)).
  { unfold walk. pose proof (Hin4 []) as H. rewrite app_nil_r in H. now rewrite H. }
  assert (Hmem4 : forall rf, rf ∈ files -> archive_members fs4 rf = archive_members (fs w) rf).
  { intros rf Hrf. apply walked_files_roots in Hrf as [t Ht].
    unfold archive_members. rewrite Ht, <- app_assoc. now rewrite Hin4. }
  assert (Hexp4 : expected_members fs4 files = expected_members (fs w) files).
  { unfold expected_members. f_equal. apply map_ext_in. intros rf Hrf.
    f_equal. apply Hmem4. now apply list_elem_of_In. }
  remember (package_mcu_library platform limit order run_cmd b w) as o eqn:Ho.
  unfold package_mcu_library in Ho.
  (* the archiver is found *)
  unfold bind at 1 in Ho.
  assert (Hres : exists binutils, resolve_binutils_path platform w = Returns binutils w).
  { unfold resolve_binutils_path. destruct (String.eqb platform "darwin"); [|now eexists].
    rewrite (Hbin eq_refl). now eexists. }
  destruct Hres as [binutils Hres]. rewrite Hres in Ho.
  (* the folders are prepared *)
  unfold bind at 1 in Ho. unfold fs_do at 1 in Ho.
  unfold bind at 1 in Ho. unfold fs_do at 1 in Ho. cbn [fs with_fs] in Ho.
  unfold bind at 1 in Ho. unfold fs_call at 1 in Ho. cbn [fs with_fs] in Ho.
  rewrite Hmk3 in Ho.
  unfold bind at 1 in Ho. unfold fs_call at 1 in Ho. cbn [fs with_fs] in Ho.
  rewrite Hmk4 in Ho.
  (* the archives are staged *)
  unfold bind at 1 in Ho. cbn [fs with_fs] in Ho. fold top in Ho. rewrite Hwalk4 in Ho.
  match type of Ho with context [stage_archives _ _ _ _ _ ?w0] => set (w4 := w0) in * end.
  destruct (stage_archives_spec platform run_cmd binutils (aux_folder b) fs4
              (walk order top (fs w)) ∅ w4)
    as (w5 & Hrun5 & [HS5 Hready5] & Hframe5).
  { split; [apply lookup_empty|]. left. now rewrite fmap_empty. }
  { now intros q _. }
  { intros rf Hrf. fold files in Hrf. unfold stageable. rewrite (Hmem4 rf Hrf).
    destruct (Hmembers rf Hrf) as [[Hword Hobj] Hnd']. split; [|split; [exact Hword|]].
    - apply walked_files_roots in Hrf as [t Ht]. rewrite Ht, <- app_assoc.
      apply aux_apart_lib_tree.
    - split; [exact Hnd'|]. intros m Hm.
      now apply PyStrFacts.endswith_dot_obj, Hobj. }
  { fold files. now rewrite Hexp4. }
  rewrite Hrun5 in Ho. fold files in Hready5, HS5.
  rewrite (stage_map_ext fs4 (fs w) files Hmem4) in Hready5, HS5.
  set (S := stage_map (fs w) files ∅) in *.
  assert (Hkeys : forall k, is_Some (S !! k) ->
            exists rf m, rf ∈ files /\ m ∈ (archive_members (fs w) rf).*1 /\
                         k = staged_name rf.2 m).
  { intros k [d Hk]. apply stage_map_origin in Hk as [Hk|(rf & m & Hrf & Hm & ->)];
      [now rewrite lookup_empty in Hk|].
    exists rf, m. split; [done|]. split; [|done].
    apply list_elem_of_fmap. now exists (m, d). }
  (* the merge command *)
  destruct (merge_command_spec (aux_folder b) S (fs w5))
    as (members & fs6 & Hmerge & Hperm & Hlib6 & Hframe6).
  { exact HS5. }
  { apply eq_None_not_Some. intros H. apply Hkeys in H as (rf & m & _ & _ & H).
    symmetry in H. now apply staged_name_not_library in H. }
  { intros k H. apply Hkeys in H as (rf & m & Hrf & Hm & ->).
    apply glob_staged_name. now apply (Hmembers rf Hrf). }
  { intros k H. apply Hkeys in H as (rf & m & Hrf & Hm & ->).
    now apply (Hmembers rf Hrf). }
  { exact Hready5. }
  exists members. split; [exact Hperm|].
  pose proof (aux_apart_lp b Hlayout) as Hap.
  assert (Hlp6 : get (library_path b) fs6 = Some (Dir ∅)).
  { rewrite (Hframe6 _ Hap), (Hframe5 _ Hap). exact Hlp4. }
  (* chdir *)
  unfold bind at 1 in Ho. unfold chdir at 1 in Ho.
  assert (Hdir5 : exists es, get (aux_folder b) (fs w5) = Some (Dir es))
    by (destruct Hready5 as [H|H]; rewrite H; eauto).
  destruct Hdir5 as [es5 Hes5]. rewrite Hes5 in Ho.
  (* the merge command returns 0 *)
  unfold bind at 1 in Ho. unfold run_merge at 1 in Ho.
  cbn [cwd fs with_cwd] in Ho. rewrite (Htools binutils _ _ _ Hmerge) in Ho.
  change (negb (0 =? 0)%Z) with false in Ho. cbv iota in Ho.
  (* the archive is moved to its final place *)
  unfold bind at 1 in Ho. unfold fs_call at 1 in Ho.
  cbn [cwd fs log_command with_fs with_cwd] in Ho.
  set (x := File (Archive members)) in *.
  set (src := aux_folder b ++ ["libmicroros.a"]) in *.
  assert (Hmv : os_rename platform src (library b) fs6
                = inr (put (library b) x (remove src fs6))).
  { assert (Hno : exists_ (library b) fs6 = false).
    { unfold exists_, library. rewrite (get_below _ ["libmicroros.a"] fs6 _ Hlp6).
      apply bool_decide_eq_false_2. simpl. rewrite lookup_empty. now intros [? ?]. }
    unfold os_rename. rewrite Hno, andb_false_r.
    unfold rename. rewrite Hlib6. unfold library. rewrite parent_snoc.
    unfold isdir. rewrite Hlp6. rewrite (get_below _ ["libmicroros.a"] fs6 _ Hlp6).
    reflexivity. }
  rewrite Hmv in Ho.
  set (fs7 := put (library b) x (remove src fs6)) in *.
  assert (Hlib7 : get (library b) fs7 = Some x).
  { apply get_put_child. unfold isdir. rewrite get_remove_apart; [now rewrite Hlp6|].
    unfold src. now apply apart_app_l. }
  (* the include steps do not touch it *)
  unfold bind at 1 in Ho. unfold fs_try at 1 in Ho. cbn [fs with_fs] in Ho.
  destruct (copytree limit ignore_nothing Copy2 false _ (includes b) fs7) as [fs8 r8] eqn:Hcp.
  assert (Hlib8 : get (library b) fs8 = Some x).
  { rewrite <- Hlib7.
    eapply (confined_copytree (includes b) _ Copy2) in Hcp as [Hframe8 _].
    - apply Hframe8, includes_apart_library.
    - discriminate.
    - exists []. now rewrite app_nil_r. }
  destruct r8 as [e8|]; [now subst o|].
  unfold fs_try in Ho. cbn [fs with_fs] in Ho.
  destruct (flatten_includes limit (includes b) fs8) as [fs9 r9] eqn:Hfl.
  assert (Hlib9 : get (library b) fs9 = Some x).
  { rewrite <- Hlib8. eapply flatten_includes_frame; [exact Hfl|].
    apply includes_apart_library. }
  destruct r9; now subst o.
Qed.

(** C1, as the code has it.  In the default layout, with the archiver at
    hand and its tools succeeding, on any platform and whatever the order
    in which the directories list their entries: when the archives that
    [os.walk] finds below the install [lib] tree have paths and member
    names that the unquoted command lines carry as they are, the member
    names end in [.obj], and the staged names [<stem>__<name>] of all their
    members are pairwise distinct, then the library file ends up holding
    exactly one member [<stem>__<name>] for every member of every archive,
    with that member's content, and no two members share a name.  The
    archives that [os.walk] finds are all of them: every member of every
    file [*.a] at any depth below the [lib] folder is in the library under
    its staged name.  Members of one name clash only between archives of
    one stem (the archive's file name up to its first dot). *)
Theorem merged_library_members platform limit order run_cmd (b : Build) (w : World) :
  build_folder b = default_build (library_folder b) ->
  (String.eqb platform "darwin" = true -> exists_ homebrew_binutils_path (fs w) = true) ->
  isdir (build_folder b) (fs w) = true ->
  (forall d, get (aux_folder b) (fs w) <> Some (File d)) ->
  (forall d, get (library_path b) (fs w) <> Some (File d)) ->
  (forall binutils dir x r,
     merge_command dir x = Some r -> run_cmd (merge_command_line binutils) dir x = r) ->
  (forall rf, rf ∈ walked_files (walk order (mcu_folder b ++ ["install"; "lib"]) (fs w)) ->
     well_named (fs w) rf) ->
  NoDup (expected_members (fs w)
           (walked_files (walk order (mcu_folder b ++ ["install"; "lib"]) (fs w)))).*1 ->
  (exists members,
     members ≡ₚ expected_members (fs w)
                  (walked_files (walk order (mcu_folder b ++ ["install"; "lib"]) (fs w))) /\
     NoDup members.*1 /\
     get (library b)
         (fs (final_state (package_mcu_library platform limit order run_cmd b w)))
     = Some (File (Archive members)) /\
     ((forall p l, order p l ≡ₚ l) ->
      forall t f ms m d,
        get ((mcu_folder b ++ ["install"; "lib"]) ++ t ++ [f]) (fs w)
        = Some (File (Archive ms)) ->
        PyStr.endswith f ".a" = true -> (m, d) ∈ ms ->
        (staged_name f m, d) ∈ members)) /\
  (forall f f' m, PyStr.split_dot_head f <> PyStr.split_dot_head f' ->
                  staged_name f m <> staged_name f' m).
Proof.
  intros Hlayout Hbin Hbuild Hauxf Hlpf Htools Hnamed Hnd.
  split; [|intros f f' m Hne Heq; now apply Hne, (staged_name_same_member f f' m)].
  set (files := walked_files (walk order (mcu_folder b ++ ["install"; "lib"]) (fs w))) in *.
  assert (Hnd1 : forall rf, rf ∈ files -> NoDup (archive_members (fs w) rf).*1).
  { intros rf Hrf. apply list_elem_of_split in Hrf as (l1 & l2 & Hfiles).
    rewrite Hfiles in Hnd.
    change (rf :: l2) with ([rf] ++ l2) in Hnd.
    rewrite !expected_members_app, !fmap_app in Hnd.
    apply NoDup_app in Hnd as (_ & _ & Hnd). apply NoDup_app in Hnd as (Hnd & _ & _).
    unfold expected_members in Hnd. simpl in Hnd. rewrite app_nil_r in Hnd.
    rewrite staged_members_fst in Hnd. now apply NoDup_fmap_1 in Hnd. }
  destruct (package_library_staged platform limit order run_cmd b w
              Hlayout Hbin Hbuild Hauxf Hlpf Htools)
    as (members & Hperm & Hlib).
  { intros rf Hrf. split; [now apply Hnamed|now apply Hnd1]. }
  { intros _. split; [exact Hnd|]. intros k _. apply lookup_empty. }
  fold files in Hperm.
  assert (HS : stage_map (fs w) files ∅ = list_to_map (expected_members (fs w) files)).
  { rewrite stage_map_expected by exact Hnd. now rewrite (right_id_L ∅ (∪)). }
  assert (Hall : members ≡ₚ expected_members (fs w) files).
  { rewrite Hperm, HS. now apply map_to_list_to_map. }
  exists members. split; [exact Hall|]. split; [|split; [exact Hlib|]].
  - rewrite Hperm. apply NoDup_fst_map_to_list.
  - intros Horder t f ms m d Hfile Hf Hm. rewrite Hall.
    apply (elem_of_expected_members (fs w) files
             ((mcu_folder b ++ ["install"; "lib"]) ++ t, f)).
    + now apply (walked_files_complete order _ t f (Archive ms)).
    + unfold archive_members. cbn [fst snd]. now rewrite Hf, <- app_assoc, Hfile.
Qed.

(** The libraries [librcl.a] and [librcl_action.a], each with a member
    [main.c.obj]. *)
Lemma merged_library_members_witness :
  (exists members,
     members ≡ₚ expected_members Samples.action_tree
                  (walked_files (walk Samples.as_listed
                                   (mcu_folder Samples.sample_build ++ ["install"; "lib"])
                                   Samples.action_tree)) /\
     NoDup members.*1 /\
     get (library Samples.sample_build)
         (fs (final_state (package_mcu_library "linux" 8 Samples.as_listed Samples.tools
                             Samples.sample_build (Samples.world_of Samples.action_tree))))
     = Some (File (Archive members)) /\
     ((forall p l, Samples.as_listed p l ≡ₚ l) ->
      forall t f ms m d,
        get ((mcu_folder Samples.sample_build ++ ["install"; "lib"]) ++ t ++ [f])
            (fs (Samples.world_of Samples.action_tree))
        = Some (File (Archive ms)) ->
        PyStr.endswith f ".a" = true -> (m, d) ∈ ms ->
        (staged_name f m, d) ∈ members)) /\
  (forall f f' m, PyStr.split_dot_head f <> PyStr.split_dot_head f' ->
                  staged_name f m <> staged_name f' m).
Proof.
  apply (merged_library_members "linux" 8 Samples.as_listed Samples.tools
           Samples.sample_build (Samples.world_of Samples.action_tree)).
  - reflexivity.
  - discriminate.
  - reflexivity.
  - intros d. vm_compute. discriminate.
  - intros d. vm_compute. discriminate.
  - intros binutils dir x r Hr. unfold Samples.tools. now rewrite Hr.
  - intros rf Hrf. vm_compute in Hrf.
    repeat (apply elem_of_cons in Hrf as [->|Hrf]); [| |now apply not_elem_of_nil in Hrf].
    + split; [reflexivity|]. intros m Hm. vm_compute in Hm.
      repeat (apply elem_of_cons in Hm as [->|Hm]); [split; reflexivity|].
      now apply not_elem_of_nil in Hm.
    + split; [reflexivity|]. intros m Hm. vm_compute in Hm.
      repeat (apply elem_of_cons in Hm as [->|Hm]); [split; reflexivity|].
      now apply not_elem_of_nil in Hm.
  - vm_compute. repeat (apply NoDup_cons; split; [set_solver|]). apply NoDup_nil_2.
Defined.

(** On the sample project the library holds the three members, the two
    [main.c.obj] under different names. *)
Example merged_library_sample :
  get (library Samples.sample_build)
      (fs (final_state (package_mcu_library "linux" 8 Samples.as_listed Samples.tools
                          Samples.sample_build (Samples.world_of Samples.built_tree))))
  = Some (File (Archive [("librcl__main.c.obj", Blob "rcl main");
                         ("librcl__node.c.obj", Blob "rcl node");
                         ("librmw__main.c.obj", Blob "rmw main")])).
Proof. vm_compute. reflexivity. Qed.

(** C1 as stated fails.  Two archives called [libfoo.a] in two directories
    have the same stem: their members [main.obj] get the same staged name,
    and the merged library holds one member where the archives have two;
    which of the two it is follows the order in which the [lib] directory
    lists its entries.  And a member whose name does not end in [obj] is
    never staged: the merged library lacks it. *)
Lemma merged_library_counterexample :
  length (expected_members Samples.same_stem_tree
            (walked_files (walk Samples.as_listed
                             (mcu_folder Samples.sample_build ++ ["install"; "lib"])
                             Samples.same_stem_tree))) = 2 /\
  get (library Samples.sample_build)
      (fs (final_state (package_mcu_library "linux" 8 Samples.as_listed Samples.tools
                          Samples.sample_build (Samples.world_of Samples.same_stem_tree))))
  = Some (File (Archive [("libfoo__main.obj", Blob "second")])) /\
  get (library Samples.sample_build)
      (fs (final_state (package_mcu_library "linux" 8 Samples.backwards Samples.tools
                          Samples.sample_build (Samples.world_of Samples.same_stem_tree))))
  = Some (File (Archive [("libfoo__main.obj", Blob "first")])) /\
  get (library Samples.sample_build)
      (fs (final_state (package_mcu_library "linux" 8 Samples.as_listed Samples.tools
                          Samples.sample_build (Samples.world_of Samples.dot_o_tree))))
  = Some (File (Archive [])).
Proof. repeat split; vm_compute; reflexivity. Qed.

End MergeFacts.

(** ** The driver *)

Module DriverFacts.
Import FS Shutil Pipeline Merge Driver.

(** C6: when the library file is there, [run] prints one line and returns.
    The file system, the process environment, the package objects and the
    list of commands given to the shell are what they were, whatever the
    stages and the external tools would have done. *)
Theorem run_already_built platform python_exec limit order run_cmd
    {Repository : Type} (dev_environments mcu_environments : list Repository)
    ignore_packages clone get_packages load_yaml clone_extra distro python_env
    (b : Build) (meta toolchain user_meta : string) (w : World) :
  exists_ (library b) (fs w) = true ->
  run platform python_exec limit order run_cmd dev_environments mcu_environments
      ignore_packages clone get_packages load_yaml clone_extra distro python_env
      b meta toolchain user_meta w
  = Returns tt {| fs := fs w; cwd := cwd w;
                  stdout := stdout w ++ ["micro-ROS already built"];
                  commands := commands w; env := env w; pkgs := pkgs w |}.
Proof. intros Hbuilt. unfold run. now rewrite Hbuilt. Qed.

Lemma run_already_built_witness :
  run "linux" "/usr/bin/python3" 8 Samples.as_listed Samples.failing_cmd
      (@nil unit) (@nil unit) [] (fun _ _ => ret tt) (fun _ h => ([], h))
      (fun _ _ => Manifest.Absent) (fun _ _ _ => ret tt) "jazzy" "venv/bin/activate"
      Samples.sample_build "colcon.meta" "toolchain.cmake" ""
      (Samples.world_of Samples.built_tree)
  = Returns tt {| fs := Samples.built_tree; cwd := [];
                  stdout := [] ++ ["micro-ROS already built"];
                  commands := []; env := env (Samples.world_of Samples.built_tree);
                  pkgs := pkgs (Samples.world_of Samples.built_tree) |}.
Proof.
  apply (run_already_built "linux" "/usr/bin/python3" 8 Samples.as_listed Samples.failing_cmd
           (@nil unit) (@nil unit) [] (fun _ _ => ret tt) (fun _ h => ([], h))
           (fun _ _ => Manifest.Absent) (fun _ _ _ => ret tt) "jazzy" "venv/bin/activate"
           Samples.sample_build "colcon.meta" "toolchain.cmake" ""
           (Samples.world_of Samples.built_tree)).
  reflexivity.
Defined.


(** [check_env] makes the bytecode-cache folder below the build folder and
    names it in [self.env] only. *)
Example check_env_makes_pycache :
  let w' := final_state (check_env Samples.sample_build
                           (Samples.world_of Samples.unbuilt_tree)) in
  get ["proj"; "build"; "pycache"] (fs w') = Some (Dir ∅) /\
  Env.self_env (env w') !! "PYTHONPYCACHEPREFIX" = Some "proj/build/pycache" /\
  Env.environ (env w') !! "PYTHONPYCACHEPREFIX" = None.
Proof. vm_compute. repeat split. Qed.

Lemma not_ignored_iff (rel : path) :
  "extra_packages.repos" ∉ rel <-> Forall (fun k => ignore_manifest k = false) rel.
Proof.
  rewrite Forall_forall. unfold ignore_manifest. split.
  - intros Hnot k Hk. apply String.eqb_neq. intros ->. contradiction.
  - intros Hall Hin. apply Hall in Hin. now rewrite String.eqb_refl in Hin.
Qed.

Lemma ignored_iff (rel : path) :
  "extra_packages.repos" ∈ rel <-> Exists (fun k => ignore_manifest k = true) rel.
Proof.
  rewrite Exists_exists. unfold ignore_manifest. split.
  - intros Hin. exists "extra_packages.repos". now rewrite String.eqb_refl.
  - intros (k & Hk & Heq). apply String.eqb_eq in Heq. now subst.
Qed.

(** C4, as the code has it: after the overlay every file of the caller's
    folder whose relative path has no component called
    [extra_packages.repos] has replaced the file at the same relative path
    of the target sources, and nothing is copied to a target path that has
    a component of that name: the manifest is not copied, and neither is
    anything else of that name, at any depth. *)
Theorem overlay_precedence (limit : nat) (b : Build) (tree tree' : node)
    (raised : option exn) :
  apart (packages_folder b) (mcu_src_folder b) ->
  overlay_packages limit b tree = (tree', raised) ->
  raised <> Some RecursionError ->
  (forall rel d d0,
     rel <> [] -> "extra_packages.repos" ∉ rel ->
     get (packages_folder b ++ rel) tree = Some (File d) ->
     get (mcu_src_folder b ++ rel) tree = Some (File d0) ->
     get (mcu_src_folder b ++ rel) tree' = Some (File d)) /\
  (forall rel,
     "extra_packages.repos" ∈ rel ->
     get (mcu_src_folder b ++ rel) tree' = get (mcu_src_folder b ++ rel) tree).
Proof.
  intros Hap Hcopy Hraised. unfold overlay_packages in Hcopy. split.
  - intros rel d d0 Hne Hrel Hsrc Hdst. apply not_ignored_iff in Hrel.
    now apply (ShutilFacts.copytree_overwrites ignore_manifest limit
                 _ _ _ _ _ rel d d0 Hap Hcopy).
  - intros rel Hrel. apply ignored_iff in Hrel.
    now apply (ShutilFacts.copytree_skips ignore_manifest limit true _ _ _ _ _ rel Hrel Hcopy).
Qed.

Lemma overlay_precedence_witness :
  (forall rel d d0,
     rel <> [] -> "extra_packages.repos" ∉ rel ->
     get (packages_folder Samples.sample_build ++ rel) Samples.overlay_tree = Some (File d) ->
     get (mcu_src_folder Samples.sample_build ++ rel) Samples.overlay_tree = Some (File d0) ->
     get (mcu_src_folder Samples.sample_build ++ rel)
         (overlay_packages 8 Samples.sample_build Samples.overlay_tree).1 = Some (File d)) /\
  (forall rel,
     "extra_packages.repos" ∈ rel ->
     get (mcu_src_folder Samples.sample_build ++ rel)
         (overlay_packages 8 Samples.sample_build Samples.overlay_tree).1
     = get (mcu_src_folder Samples.sample_build ++ rel) Samples.overlay_tree).
Proof.
  apply (overlay_precedence 8 Samples.sample_build Samples.overlay_tree
           (overlay_packages 8 Samples.sample_build Samples.overlay_tree).1
           (overlay_packages 8 Samples.sample_build Samples.overlay_tree).2).
  - apply (PipelineFacts.apart_diverge ["proj"] [] ["mcu"; "src"]). discriminate.
  - apply surjective_pairing.
  - vm_compute. discriminate.
Defined.

(** On the sample the overlay's [foo.txt] and package win, and the manifest
    does not reach the target sources. *)
Example overlay_sample :
  let tree' := (overlay_packages 8 Samples.sample_build Samples.overlay_tree).1 in
  get (mcu_src_folder Samples.sample_build ++ ["foo.txt"]) tree'
    = Some (Samples.file "overlay foo") /\
  get (mcu_src_folder Samples.sample_build ++ ["my_pkg"; "package.xml"]) tree'
    = Some (Samples.file "local package") /\
  get (mcu_src_folder Samples.sample_build ++ ["extra_packages.repos"]) tree' = None.
Proof. vm_compute. repeat split. Qed.

(** C4 as stated fails: a file of the caller's folder that lies in a
    package and is called [extra_packages.repos] does not replace the file
    at the same relative path of the target sources. *)
Lemma overlay_nested_manifest_counterexample :
  let rel := ["pkg"; "extra_packages.repos"] in
  get (packages_folder Samples.sample_build ++ rel) Samples.nested_manifest_tree
    = Some (Samples.file "overlay copy") /\
  overlay_packages 8 Samples.sample_build Samples.nested_manifest_tree
    = (Samples.nested_manifest_tree, None) /\
  get (mcu_src_folder Samples.sample_build ++ rel)
      (overlay_packages 8 Samples.sample_build Samples.nested_manifest_tree).1
    = Some (Samples.file "catalog copy").
Proof. vm_compute. repeat split. Qed.

End DriverFacts.

(** ** More on the package lists *)

Module PackagesLaws.
Import Packages PackagesFacts.

(** X1: calling [ignore_package] again with the same name changes nothing more,
    and two calls can be made in either order. *)
Theorem ignore_package_repeat_and_swap (n1 n2 : string) (b : Build) :
  ignore_package n1 (ignore_package n1 b) = ignore_package n1 b /\
  ignore_package n1 (ignore_package n2 b) = ignore_package n2 (ignore_package n1 b).
Proof.
  destruct b as [h d m]. unfold ignore_package. simpl. split; f_equal.
  - apply map_eq. intros l. rewrite !fold_mark_lookup.
    destruct (h !! l) as [p|]; simpl; [|done]. f_equal.
    destruct (bool_decide (l ∈ m) && (pkg_name p =? n1)%string) eqn:Ht; simpl.
    + now rewrite Ht.
    + now rewrite Ht.
  - apply map_eq. intros l. rewrite !fold_mark_lookup.
    destruct (h !! l) as [p|]; simpl; [|done]. f_equal.
    destruct (bool_decide (l ∈ m)); simpl; [|done].
    destruct (pkg_name p =? n1)%string eqn:H1, (pkg_name p =? n2)%string eqn:H2;
      simpl; rewrite ?H1, ?H2; done.
Qed.

(** X2: neither marking loop clears a flag, renames a package or adds or drops
    an object: behind every reference there is, afterwards, the same
    package, ignored if it was ignored before. *)
Theorem marking_only_sets_flags (name : string) (ignore_list : list string)
    (found : list loc) (b : Build) (l : loc) :
  match heap b !! l with
  | Some p =>
      (exists p', heap (ignore_package name b) !! l = Some p' /\
         pkg_name p' = pkg_name p /\ pkg_path p' = pkg_path p /\
         (pkg_ignored p = true -> pkg_ignored p' = true)) /\
      (exists p', auto_ignore ignore_list found (heap b) !! l = Some p' /\
         pkg_name p' = pkg_name p /\ pkg_path p' = pkg_path p /\
         (pkg_ignored p = true -> pkg_ignored p' = true))
  | None =>
      heap (ignore_package name b) !! l = None /\
      auto_ignore ignore_list found (heap b) !! l = None
  end.
Proof.
  unfold auto_ignore. simpl. rewrite !fold_mark_lookup.
  destruct (heap b !! l) as [p|]; simpl; [|done].
  split; eexists; (split; [reflexivity|]); destruct (_ && _); done.
Qed.

Section SecondCall.
Context {Repository : Type}.
Variable get_packages : Repository -> gmap loc Package -> list loc * gmap loc Package.

(** X3: one target repository: the packages registered in [mcu_packages] are
    those of the first [get_packages()] call, while the ignore test is run
    on the objects of the second call.  An object that the second call does
    not return keeps its flag whatever its name, also when it has just been
    registered. *)
Theorem download_repo_marks_second_call (ignore_list : list string) (b : Build)
    (repo : Repository) (registered found : list loc) (h1 h2 : gmap loc Package) :
  get_packages repo (heap b) = (registered, h1) ->
  get_packages repo h1 = (found, h2) ->
  mcu_packages (download_repo get_packages ignore_list b repo).1
    = mcu_packages b ++ registered /\
  dev_packages (download_repo get_packages ignore_list b repo).1 = dev_packages b /\
  (forall l, l ∉ found ->
     heap (download_repo get_packages ignore_list b repo).1 !! l = h2 !! l) /\
  (forall l p, l ∈ found -> h2 !! l = Some p ->
     heap (download_repo get_packages ignore_list b repo).1 !! l
     = Some (if auto_ignored ignore_list (pkg_name p) then ignore p else p)).
Proof.
  intros H1 H2. unfold download_repo. rewrite H1, H2. simpl.
  split; [done|]. split; [done|]. unfold auto_ignore. split.
  - intros l Hl. rewrite fold_mark_lookup. destruct (h2 !! l); simpl; [|done].
    now rewrite bool_decide_eq_false_2.
  - intros l p Hl Hp. rewrite fold_mark_lookup, Hp. simpl.
    now rewrite bool_decide_eq_true_2.
Qed.

End SecondCall.

(** With package objects built anew by every call, the object that is
    registered is not the one that gets the flag. *)
Lemma download_repo_marks_second_call_witness :
  let b' := (download_repo Samples.fresh_packages [] Samples.no_packages tt).1 in
  mcu_packages b' = mcu_packages Samples.no_packages ++ [0] /\
  dev_packages b' = dev_packages Samples.no_packages /\
  (forall l, l ∉ [1] ->
     heap b' !! l
     = ({[ 0 := mkPackage "rcl_cpp" "src/rcl_cpp" false;
           1 := mkPackage "rcl_cpp" "src/rcl_cpp" false ]} : gmap loc Package) !! l) /\
  (forall l p, l ∈ [1] ->
     ({[ 0 := mkPackage "rcl_cpp" "src/rcl_cpp" false;
         1 := mkPackage "rcl_cpp" "src/rcl_cpp" false ]} : gmap loc Package) !! l = Some p ->
     heap b' !! l = Some (if auto_ignored [] (pkg_name p) then ignore p else p)).
Proof.
  intros b'.
  apply (download_repo_marks_second_call Samples.fresh_packages [] Samples.no_packages tt
           [0] [1] {[ 0 := mkPackage "rcl_cpp" "src/rcl_cpp" false ]}).
  - reflexivity.
  - vm_compute. reflexivity.
Defined.

Example registered_object_keeps_flag :
  let b' := (download_repo Samples.fresh_packages [] Samples.no_packages tt).1 in
  mcu_packages b' = [0] /\
  pkg_ignored <$> heap b' !! 0 = Some false /\
  pkg_ignored <$> heap b' !! 1 = Some true.
Proof. vm_compute. repeat split. Qed.

End PackagesLaws.

(** ** More on the environment set-up *)

Module EnvLaws.
Import Env.

(** X4: [check_env] writes three variables of the process environment and no
    other; [self.env] is afterwards the new environment, plus the two
    bytecode settings when the cache directory could be set up.  The
    bytecode settings never reach the process environment itself, and what
    [self.env] held before is dropped. *)
Theorem check_env_frame (pycache : option string) (st st' : state) (k : string) :
  check_env pycache st = Returns tt st' ->
  (k <> "PATH" -> k <> "AMENT_PREFIX_PATH" -> k <> "RMW_IMPLEMENTATION" ->
   environ st' !! k = environ st !! k) /\
  (k <> "PYTHONPYCACHEPREFIX" -> k <> "PYTHONDONTWRITEBYTECODE" ->
   self_env st' !! k = environ st' !! k) /\
  (forall dir, pycache = Some dir ->
     self_env st' !! "PYTHONPYCACHEPREFIX" = Some dir /\
     self_env st' !! "PYTHONDONTWRITEBYTECODE" = Some "1").
Proof.
  unfold check_env.
  set (env1 := match environ st !! "ROS_DISTRO" with
               | Some distro => _ | None => _ end).
  assert (H1 : forall e, env1 = inr e ->
            k <> "PATH" -> k <> "AMENT_PREFIX_PATH" -> e !! k = environ st !! k).
  { unfold env1. intros e.
    destruct (environ st !! "ROS_DISTRO") as [distro|]; [|now intros [= <-]].
    destruct (truthy (Some distro)); [|now intros [= <-]].
    destruct (environ st !! "PATH") as [path|]; [|done].
    intros [= <-] ? ?. now rewrite lookup_delete_ne, lookup_insert_ne. }
  destruct env1 as [e|e]; [done|]. specialize (H1 e eq_refl).
  intros [= <-]. simpl. split; [|split].
  - intros ? ? ?. destruct (truthy (e !! "RMW_IMPLEMENTATION")).
    + rewrite lookup_insert_ne by done. now apply H1.
    + now apply H1.
  - intros ? ?. destruct pycache; [|done]. now rewrite !lookup_insert_ne.
  - intros dir ->. split.
    + rewrite lookup_insert_ne by done. apply lookup_insert_eq.
    + apply lookup_insert_eq.
Qed.

Lemma check_env_frame_witness :
  let st' := final_state (check_env (Some "proj/build/pycache") sourced_ros) in
  ("ROS_DISTRO" <> "PATH" -> "ROS_DISTRO" <> "AMENT_PREFIX_PATH" ->
   "ROS_DISTRO" <> "RMW_IMPLEMENTATION" ->
   environ st' !! "ROS_DISTRO" = environ sourced_ros !! "ROS_DISTRO") /\
  ("ROS_DISTRO" <> "PYTHONPYCACHEPREFIX" -> "ROS_DISTRO" <> "PYTHONDONTWRITEBYTECODE" ->
   self_env st' !! "ROS_DISTRO" = environ st' !! "ROS_DISTRO") /\
  (forall dir, Some "proj/build/pycache" = Some dir ->
     self_env st' !! "PYTHONPYCACHEPREFIX" = Some dir /\
     self_env st' !! "PYTHONDONTWRITEBYTECODE" = Some "1").
Proof.
  intros st'.
  apply (check_env_frame (Some "proj/build/pycache") sourced_ros st' "ROS_DISTRO").
  reflexivity.
Defined.

(** X5: [check_env] never leaves through [sys.exit], and it raises in one case
    only: [ROS_DISTRO] holds a non-empty value while [PATH] is unset.  The
    exception is then the [AttributeError] of [None.replace], and nothing
    has been written. *)
Theorem check_env_raises_iff (pycache : option string) (st : state) :
  match check_env pycache st with
  | Returns _ _ =>
      ~ (truthy (environ st !! "ROS_DISTRO") = true /\ environ st !! "PATH" = None)
  | Raises e st' =>
      e = AttributeError /\ st' = st /\
      truthy (environ st !! "ROS_DISTRO") = true /\ environ st !! "PATH" = None
  | Exits _ _ => False
  end.
Proof.
  unfold check_env.
  destruct (environ st !! "ROS_DISTRO") as [distro|] eqn:Hros.
  - destruct (truthy (Some distro)) eqn:Ht.
    + destruct (environ st !! "PATH") as [path|]; [|done]. now intros [_ ?].
    + now intros [? _].
  - now intros [? _].
Qed.

(** Replacing a text that does not occur changes nothing. *)
Lemma replace_absent (old new s : string) :
  Manifest.substring_of old s = false -> PyStr.replace old new s = s.
Proof.
  unfold PyStr.replace. induction s as [|c s IH]; [done|].
  cbn [Manifest.substring_of]. intros H. apply orb_false_iff in H as [Hs Hrest].
  cbn [PyStr.replace_from]. rewrite Hs. f_equal. now apply IH.
Qed.

(** X6: a search path that does not contain the segment of the active
    distribution is written back as it was. *)
Theorem check_env_keeps_clean_path (pycache : option string) (st : state)
    (distro path : string) :
  environ st !! "ROS_DISTRO" = Some distro ->
  environ st !! "PATH" = Some path ->
  Manifest.substring_of (ros_bin_segment distro) path = false ->
  exists st', check_env pycache st = Returns tt st' /\
              environ st' !! "PATH" = Some path.
Proof.
  intros Hros Hpath Hclean. unfold check_env. rewrite Hros, Hpath.
  destruct (truthy (Some distro)).
  - eexists. split; [reflexivity|]. simpl. rewrite replace_absent by done.
    destruct (truthy _);
      rewrite ?lookup_insert_ne by done;
      rewrite lookup_delete_ne by done; apply lookup_insert_eq.
  - eexists. split; [reflexivity|]. simpl.
    destruct (truthy _); rewrite ?lookup_insert_ne by done; done.
Qed.

Lemma check_env_keeps_clean_path_witness :
  exists st',
    check_env None {| environ := {[ "ROS_DISTRO" := "jazzy"; "PATH" := "/usr/bin:/bin" ]};
                      self_env := ∅ |} = Returns tt st' /\
    environ st' !! "PATH" = Some "/usr/bin:/bin".
Proof.
  apply (check_env_keeps_clean_path None
           {| environ := {[ "ROS_DISTRO" := "jazzy"; "PATH" := "/usr/bin:/bin" ]};
              self_env := ∅ |} "jazzy" "/usr/bin:/bin"); reflexivity.
Defined.

End EnvLaws.

(** ** More on manifest loading *)

Module ManifestLaws.
Import Manifest ManifestFacts.

(** Subscripting anything but a mapping with a string raises
    [TypeError]. *)
Lemma read_entry_not_mapping (v : yaml) :
  ~ is_mapping v -> read_entry v = inl TypeError.
Proof.
  intros Hv. destruct v as [[| |s]|l|m]; try reflexivity.
  destruct Hv. now exists m.
Qed.

(** The loop from a point where the entries [pre] have been visited: the
    mappings [mid] are resolved, then an entry that is no mapping ends the
    loop. *)
Lemma load_entries_stops (es pre mid suf : list (scalar * yaml)) (k : scalar) (v : yaml) :
  es = (pre ++ mid ++ (k, v) :: suf)%list ->
  NoDup (map fst es) ->
  Forall (fun kv => is_mapping (snd kv)) mid ->
  ~ is_mapping v ->
  load_entries (YMap es) (map (fun kv => YScalar (fst kv)) (mid ++ (k, v) :: suf))
               (omap resolve_entry pre)
  = (omap resolve_entry (pre ++ mid), Some TypeError).
Proof.
  revert pre. induction mid as [|[k' v'] mid IH]; intros pre -> Hnd Hall Hv.
  - cbn [app map fst load_entries]. rewrite app_nil_r.
    assert (Hfresh : k ∉ map fst pre).
    { rewrite map_app in Hnd. apply NoDup_app in Hnd as (_ & Hd & _).
      intros Hin. apply (Hd k Hin). simpl. set_solver. }
    cbn [getitem]. rewrite dict_get_app_fresh by done.
    now rewrite read_entry_not_mapping.
  - apply Forall_cons in Hall as [[m Hm] Hall]. simpl in Hm. subst v'.
    assert (Hfresh : k' ∉ map fst pre).
    { rewrite map_app in Hnd. apply NoDup_app in Hnd as (_ & Hd & _).
      intros Hin. apply (Hd k' Hin). simpl. set_solver. }
    cbn [app map fst load_entries getitem].
    rewrite dict_get_app_fresh by done. rewrite read_entry_mapping.
    specialize (IH (pre ++ [(k', YMap m)])%list).
    rewrite <- !app_assoc in IH. simpl in IH.
    rewrite omap_app in IH. simpl in IH. unfold resolve_entry at 2 in IH.
    simpl in IH.
    replace (pre ++ (k', YMap m) :: mid) with (pre ++ [(k', YMap m)] ++ mid) by done.
    destruct (dict_get (SStr "type") m) as [ty|].
    + destruct (dict_get (SStr "url") m) as [url|].
      * rewrite dict_set_fresh.
        -- apply IH; done.
        -- intros Hin. apply Hfresh. now apply omap_keys_subset.
      * simpl in IH. rewrite app_nil_r in IH. apply IH; done.
    + simpl in IH. rewrite app_nil_r in IH. apply IH; done.
Qed.

(** X7: the first entry that is not a mapping of attributes ends the loading:
    the complete entries before it are returned, the entries after it are
    dropped whatever they hold, and one error line is printed. *)
Theorem load_stops_at_first_non_mapping (m pre suf : list (scalar * yaml))
    (k : scalar) (v : yaml) (out : list string) :
  dict_get (SStr "repositories") m = Some (YMap (pre ++ (k, v) :: suf)) ->
  NoDup (map fst (pre ++ (k, v) :: suf)) ->
  Forall (fun kv => is_mapping (snd kv)) pre ->
  ~ is_mapping v ->
  get_repositories_from_yaml (Loaded (YMap m)) out
  = Returns (omap resolve_entry pre) (out ++ ["Error on extra_packages.repos"]).
Proof.
  intros Hm Hnd Hall Hv.
  unfold get_repositories_from_yaml, load_body, getitem, YStr. rewrite Hm.
  replace (truthy (YMap (pre ++ (k, v) :: suf))) with true by now destruct pre.
  cbn [iterate].
  pose proof (load_entries_stops _ [] pre suf k v eq_refl Hnd Hall Hv) as Hloop.
  change (omap resolve_entry []) with (@nil (scalar * repo)) in Hloop.
  cbn [app] in Hloop. now rewrite Hloop.
Qed.

(** A complete entry, then a list where attributes are expected, then
    another complete entry. *)
Lemma load_stops_at_first_non_mapping_witness :
  get_repositories_from_yaml
    (Loaded (YMap [(SStr "repositories",
                    YMap ([(SStr "a", git_entry "https://example.org/a.git")] ++
                          (SStr "b", YList [YStr "git"]) ::
                          [(SStr "c", git_entry "https://example.org/c.git")]))])) []
  = Returns (omap resolve_entry [(SStr "a", git_entry "https://example.org/a.git")])
            ([] ++ ["Error on extra_packages.repos"]).
Proof.
  apply (load_stops_at_first_non_mapping
           [(SStr "repositories",
             YMap ([(SStr "a", git_entry "https://example.org/a.git")] ++
                   (SStr "b", YList [YStr "git"]) ::
                   [(SStr "c", git_entry "https://example.org/c.git")]))]
           [(SStr "a", git_entry "https://example.org/a.git")]
           [(SStr "c", git_entry "https://example.org/c.git")]
           (SStr "b") (YList [YStr "git"]) []).
  - reflexivity.
  - simpl. repeat (apply NoDup_cons; split; [set_solver|]). apply NoDup_nil_2.
  - apply Forall_cons. split; [eexists; reflexivity|]. apply Forall_nil_2.
  - intros [m Hm]. discriminate Hm.
Defined.

(** X8: which failures are reported.  A document whose root is not a
    mapping, a root without the [repositories] key and malformed text
    give the empty dict and one error line; a [repositories] value that is
    empty or null gives the empty dict and no line; and so does a file
    that is not there, whose exception the [finally: return] swallows. *)
Theorem load_reports_errors (out : list string) :
  (forall root, ~ is_mapping root ->
     get_repositories_from_yaml (Loaded root) out
     = Returns [] (out ++ ["Error on extra_packages.repos"])) /\
  (forall m, dict_get (SStr "repositories") m = None ->
     get_repositories_from_yaml (Loaded (YMap m)) out
     = Returns [] (out ++ ["Error on extra_packages.repos"])) /\
  get_repositories_from_yaml Malformed out
    = Returns [] (out ++ ["Error on extra_packages.repos"]) /\
  (forall m repositories,
     dict_get (SStr "repositories") m = Some repositories ->
     truthy repositories = false ->
     get_repositories_from_yaml (Loaded (YMap m)) out = Returns [] out) /\
  get_repositories_from_yaml Absent out = Returns [] out.
Proof.
  split; [|split; [|split; [|split]]]; try reflexivity.
  - intros root Hroot. unfold get_repositories_from_yaml, load_body.
    destruct root as [[| |s]|l|m]; try reflexivity. destruct Hroot. now exists m.
  - intros m Hm. unfold get_repositories_from_yaml, load_body, getitem, YStr.
    now rewrite Hm.
  - intros m repositories Hm Hfalse.
    unfold get_repositories_from_yaml, load_body, getitem, YStr. now rewrite Hm, Hfalse.
Qed.

Lemma dict_get_set {V} (k k' : scalar) (v : V) (d : list (scalar * V)) :
  dict_get k (dict_set k' v d) = if decide (k' = k) then Some v else dict_get k d.
Proof.
  induction d as [|[k0 v0] d IH]; simpl.
  - now destruct (decide (k' = k)).
  - destruct (decide (k0 = k')) as [->|Hne]; simpl.
    + now destruct (decide (k' = k)).
    + rewrite IH. destruct (decide (k0 = k)) as [->|?]; [|done].
      now rewrite decide_False.
Qed.

Lemma read_entry_fields (attributes : yaml) (r : repo) :
  read_entry attributes = inr r ->
  getitem attributes (YStr "type") = inr (repo_type r) /\
  getitem attributes (YStr "url") = inr (repo_url r) /\
  match repo_version r with
  | Some ver => getitem attributes (YStr "version") = inr ver
  | None => contains "version" attributes = inr false
  end.
Proof.
  unfold read_entry.
  destruct (getitem attributes (YStr "type")) as [e|ty]; [done|].
  destruct (getitem attributes (YStr "url")) as [e|url]; [done|].
  destruct (contains "version" attributes) as [e|[|]]; [done| |now intros [= <-]].
  destruct (getitem attributes (YStr "version")) as [e|ver]; [done|].
  now intros [= <-].
Qed.

(** The loop only ever stores what it read from the entry under the key. *)
Lemma load_entries_sound (repositories : yaml) (paths : list yaml) :
  forall repos repos' raised,
    load_entries repositories paths repos = (repos', raised) ->
    (forall k r, dict_get k repos = Some r ->
       exists attributes, getitem repositories (YScalar k) = inr attributes /\
                          read_entry attributes = inr r) ->
    forall k r, dict_get k repos' = Some r ->
      exists attributes, getitem repositories (YScalar k) = inr attributes /\
                         read_entry attributes = inr r.
Proof.
  induction paths as [|path rest IH]; intros repos repos' raised; simpl.
  - now intros [= <- _].
  - destruct (getitem repositories path) as [e|attributes] eqn:Hget;
      [now intros [= <- _]|].
    destruct (read_entry attributes) as [e|r0] eqn:Hread.
    + destruct e; try (now intros [= <- _]). apply IH.
    + destruct path as [key| |]; try (now intros [= <- _]).
      intros Hloop Hinv. eapply IH; [exact Hloop|].
      intros k r. rewrite dict_get_set. destruct (decide (key = k)) as [<-|?].
      * intros [= <-]. eauto.
      * apply Hinv.
Qed.

(** X9: whatever the document, every entry of the returned dict was read from
    the document: its key is a key of [repositories], its [type] and [url]
    are those of the entry under that key, and it has a [version] exactly
    when that entry has one. *)
Theorem loaded_entries_come_from_document (doc : load_result) (out out' : list string)
    (repos : list (scalar * repo)) (k : scalar) (r : repo) :
  get_repositories_from_yaml doc out = Returns repos out' ->
  dict_get k repos = Some r ->
  exists root repositories attributes,
    doc = Loaded root /\
    getitem root (YStr "repositories") = inr repositories /\
    getitem repositories (YScalar k) = inr attributes /\
    getitem attributes (YStr "type") = inr (repo_type r) /\
    getitem attributes (YStr "url") = inr (repo_url r) /\
    match repo_version r with
    | Some ver => getitem attributes (YStr "version") = inr ver
    | None => contains "version" attributes = inr false
    end.
Proof.
  unfold get_repositories_from_yaml.
  destruct (load_body doc) as [repos0 raised] eqn:Hbody. intros [= <- _] Hk.
  unfold load_body in Hbody.
  destruct doc as [| |root]; try (injection Hbody as <- _; done).
  destruct (getitem root (YStr "repositories")) as [e|repositories] eqn:Hroot;
    [injection Hbody as <- _; done|].
  destruct (truthy repositories); [|injection Hbody as <- _; done].
  destruct (iterate repositories) as [e|paths]; [injection Hbody as <- _; done|].
  destruct (load_entries_sound _ _ _ _ _ Hbody) with (k := k) (r := r)
    as (attributes & Hget & Hread); [done|exact Hk|].
  exists root, repositories, attributes.
  split; [done|]. split; [done|]. split; [done|]. now apply read_entry_fields.
Qed.

Lemma loaded_entries_come_from_document_witness :
  exists root repositories attributes,
    Loaded three_entries = Loaded root /\
    getitem root (YStr "repositories") = inr repositories /\
    getitem repositories (YScalar (SStr "c")) = inr attributes /\
    getitem attributes (YStr "type") = inr (YStr "git") /\
    getitem attributes (YStr "url") = inr (YStr "https://example.org/c.git") /\
    getitem attributes (YStr "version") = inr (YStr "main").
Proof.
  apply (loaded_entries_come_from_document (Loaded three_entries) [] []
           [(SStr "a", mkRepo (YStr "git") (YStr "https://example.org/a.git") None);
            (SStr "c", mkRepo (YStr "git") (YStr "https://example.org/c.git")
                              (Some (YStr "main")))]
           (SStr "c")
           (mkRepo (YStr "git") (YStr "https://example.org/c.git") (Some (YStr "main"))));
    reflexivity.
Defined.

End ManifestLaws.

(** ** More on copying trees *)

Module ShutilLaws.
Import FS Shutil FSFacts PipelineFacts ShutilFacts.

Section Places.
Variable ignore : string -> bool.
Variable cf : copy_function.
Variable ok : bool.

(** *** What a copy leaves alone *)

Lemma apply_copy_frame (src dst q : path) (n n' : node) :
  apply_copy cf src dst n = inr n' ->
  (cf = Move -> apart src q) -> apart dst q -> get q n' = get q n.
Proof.
  intros Hcp Hs Hd. destruct cf; simpl in Hcp.
  - now apply (get_copy2_apart _ _ _ _ _ Hcp).
  - specialize (Hs eq_refl). unfold move in Hcp. destruct (isdir dst n).
    + destruct (exists_ _ n); [done|].
      eapply get_rename_apart; [exact Hs| |exact Hcp]. now apply apart_app_l.
    + eapply get_rename_apart; [exact Hs|exact Hd|exact Hcp].
Qed.

Lemma makedirs_for_inv (dst : path) (n n1 : node) :
  makedirs_for ok dst n = inr n1 -> makedirs dst n = inr n1.
Proof. unfold makedirs_for. destruct ok; [done|]. now destruct (exists_ dst n). Qed.

Lemma copytree_frame (limit : nat) :
  forall src dst q n n' r,
    copytree limit ignore cf ok src dst n = (n', r) ->
    (cf = Move -> apart src q) -> apart dst q -> get q n' = get q n.
Proof.
  induction limit as [|limit IH]; intros src dst q n n' r; simpl.
  - now intros [= <- _].
  - destruct (get src n) as [[d|es]|]; try (now intros [= <- _]).
    destruct (makedirs_for ok dst n) as [e|n1] eqn:Hmk; [now intros [= <- _]|].
    apply makedirs_for_inv in Hmk.
    destruct (copy_entries _ ignore cf src dst (map_to_list es) n1 false)
      as [[n2 errors] stop] eqn:Hloop.
    intros Hres Hs Hd. assert (n' = n2) as ->
      by (destruct stop, errors; now injection Hres as <- _).
    rewrite <- (get_makedirs_frame _ q _ _ Hmk) by apply Hd.
    clear Hmk Hres. revert Hloop. generalize false. generalize n1.
    induction (map_to_list es) as [|[name entry] rest IHl]; intros m errs.
    + now intros [= <- _ _].
    + cbn [copy_entries]. destruct (ignore name); [apply IHl|].
      destruct entry as [d|es'].
      * destruct (apply_copy cf (src ++ [name]) (dst ++ [name]) m) as [e|m1] eqn:Hcp;
          [apply IHl|].
        intros H. rewrite (IHl _ _ H).
        apply (apply_copy_frame _ _ _ _ _ Hcp); [|now apply apart_app_l].
        intros Hcf. now apply apart_app_l, Hs.
      * destruct (copytree limit ignore cf ok (src ++ [name]) (dst ++ [name]) m)
          as [m1 r1] eqn:Hr.
        assert (Hm1 : get q m1 = get q m).
        { apply (IH _ _ _ _ _ _ Hr); [|now apply apart_app_l].
          intros Hcf. now apply apart_app_l, Hs. }
        destruct r1 as [e|]; [destruct e|];
          try (intros H; now rewrite (IHl _ _ H)).
        now intros [= <- _ _].
Qed.

(** An error that the loop has seen stays recorded. *)
Lemma copy_entries_clean recurse (src dst : path) entries :
  forall n errors n',
    copy_entries recurse ignore cf src dst entries n errors = (n', false, false) ->
    errors = false.
Proof.
  induction entries as [|[name entry] rest IH]; intros n errors n'; cbn [copy_entries].
  - now intros [= _ ->].
  - destruct (ignore name); [apply IH|]. destruct entry as [d|es].
    + destruct (apply_copy cf _ _ n) as [e|n1]; [|apply IH].
      intros H. now apply IH in H.
    + destruct (recurse _ _ n) as [n1 [e|]]; [|apply IH].
      destruct e; try (intros H; now apply IH in H). done.
Qed.

(** *** Where a copy puts a file *)

Section Level.
Variable limit : nat.
Hypothesis IHlimit : forall src dst n n' rel d,
  apart src dst ->
  copytree limit ignore cf ok src dst n = (n', None) ->
  rel <> [] -> Forall (fun k => ignore k = false) rel ->
  get (src ++ rel) n = Some (File d) ->
  (forall es, get (dst ++ rel) n <> Some (Dir es)) ->
  get (dst ++ rel) n' = Some (File d).

Variables src dst : path.
Hypothesis Hkeep : forall a n, isdir dst n = true -> isdir dst (remove (src ++ [a]) n) = true.

Lemma place_entry (name : string) (rel : path) (y : node) (d : fdata) (n n1 : node) :
  apart (src ++ [name]) (dst ++ [name]) ->
  ignore name = false -> Forall (fun k => ignore k = false) rel ->
  get rel y = Some (File d) ->
  get (src ++ [name]) n = Some y ->
  (forall es, get (dst ++ name :: rel) n <> Some (Dir es)) ->
  copy_entries (copytree limit ignore cf ok) ignore cf src dst [(name, y)] n false
    = (n1, false, false) ->
  get (dst ++ name :: rel) n1 = Some (File d).
Proof.
  intros Hap Hname Hrel Hy Hsrc Hfree. cbn [copy_entries]. rewrite Hname.
  destruct (get_File_below rel y d Hy) as [[-> ->]|[Hne [es ->]]].
  - assert (Hnodir : isdir (dst ++ [name]) n = false).
    { unfold isdir. destruct (get (dst ++ [name]) n) as [[|es]|] eqn:Hd; try done.
      now destruct (Hfree es). }
    destruct (apply_copy cf (src ++ [name]) (dst ++ [name]) n) as [e|n2] eqn:Hcp; [done|].
    intros [= <-]. destruct cf; simpl in Hcp.
    + unfold copy2 in Hcp. rewrite Hsrc, Hnodir in Hcp.
      destruct (get (dst ++ [name]) n) as [[|]|]; try done;
        rewrite parent_snoc in Hcp;
        (destruct (isdir dst n) eqn:Hdir; [|done]); injection Hcp as <-;
        now apply get_put_child.
    + unfold move in Hcp. rewrite Hnodir in Hcp. unfold rename in Hcp.
      rewrite Hsrc, parent_snoc in Hcp. destruct (isdir dst n) eqn:Hdir; [|done].
      destruct (get (dst ++ [name]) n) as [[|es]|] eqn:Hd; try done;
        try (now destruct (Hfree es));
        injection Hcp as <-; apply get_put_child; now apply Hkeep.
  - destruct (copytree limit ignore cf ok (src ++ [name]) (dst ++ [name]) n)
      as [n2 r] eqn:Hr.
    destruct r as [e|]; [now destruct e|]. intros [= <-].
    replace (dst ++ name :: rel) with ((dst ++ [name]) ++ rel) in *
      by (now rewrite <- app_assoc).
    eapply (IHlimit _ _ _ _ rel d); [exact Hap|exact Hr|done|done| |exact Hfree].
    now rewrite (get_below _ rel n _ Hsrc).
Qed.

Lemma copy_entries_frame_any (q : path) entries :
  (forall e, e ∈ entries.*1 ->
     (cf = Move -> apart (src ++ [e]) q) /\ apart (dst ++ [e]) q) ->
  forall n errors n' errors' stop,
    copy_entries (copytree limit ignore cf ok) ignore cf src dst entries n errors
      = (n', errors', stop) ->
    get q n' = get q n.
Proof.
  induction entries as [|[name entry] rest IH]; intros Hq n errors n' errors' stop.
  - now intros [= <- _ _].
  - destruct (Hq name (list_elem_of_here _ _)) as [Hs Hd].
    assert (Hrest : forall e, e ∈ rest.*1 ->
              (cf = Move -> apart (src ++ [e]) q) /\ apart (dst ++ [e]) q)
      by (intros e He; apply Hq; now apply list_elem_of_further).
    cbn [copy_entries]. destruct (ignore name); [now apply IH|].
    destruct entry as [d|es].
    + destruct (apply_copy cf (src ++ [name]) (dst ++ [name]) n) as [e|n1] eqn:Hcp;
        [now apply IH|].
      intros H. rewrite (IH Hrest _ _ _ _ _ H).
      now apply (apply_copy_frame _ _ _ _ _ Hcp).
    + destruct (copytree limit ignore cf ok (src ++ [name]) (dst ++ [name]) n)
        as [n1 r] eqn:Hr.
      pose proof (copytree_frame _ _ _ q _ _ _ Hr Hs Hd) as H1.
      destruct r as [e|]; [destruct e|];
        try (intros H; now rewrite (IH Hrest _ _ _ _ _ H)).
      now intros [= <- _ _].
Qed.

Lemma place_loop (name : string) (rel : path) (y : node) (d : fdata)
    (entries : list (string * node)) :
  (forall a b, a ∈ entries.*1 -> b ∈ entries.*1 -> apart (src ++ [a]) (dst ++ [b])) ->
  ignore name = false -> Forall (fun k => ignore k = false) rel ->
  get rel y = Some (File d) ->
  NoDup entries.*1 -> (name, y) ∈ entries ->
  forall n n',
    get (src ++ [name]) n = Some y ->
    (forall es, get (dst ++ name :: rel) n <> Some (Dir es)) ->
    copy_entries (copytree limit ignore cf ok) ignore cf src dst entries n false
      = (n', false, false) ->
    get (dst ++ name :: rel) n' = Some (File d).
Proof.
  intros Hsep Hname Hrel Hy.
  induction entries as [|[e x] rest IH]; intros Hnd Hin n n' Hsrc Hfree.
  - now apply not_elem_of_nil in Hin.
  - rewrite fmap_cons in Hnd. apply NoDup_cons in Hnd as [Hfresh Hnd]. simpl in Hfresh.
    rewrite copy_entries_cons.
    destruct (copy_entries _ ignore cf src dst [(e, x)] n false)
      as [[n1 errors1] stop1] eqn:Hhead.
    destruct stop1; [done|]. intros Hrest.
    assert (errors1 = false) as -> by (now apply copy_entries_clean in Hrest).
    assert (Hsep' : forall a b, a ∈ rest.*1 -> b ∈ rest.*1 ->
              apart (src ++ [a]) (dst ++ [b])).
    { intros a b Ha Hb. apply Hsep; rewrite fmap_cons; now apply list_elem_of_further. }
    assert (Hname_in : name ∈ ((e, x) :: rest).*1).
    { apply list_elem_of_fmap. now exists (name, y). }
    apply elem_of_cons in Hin as [[= <- <-]|Hin].
    + rewrite (copy_entries_frame_any (dst ++ name :: rel) rest) with (n := n1)
        (errors := false) (n' := n') (errors' := false) (stop := false);
        [|intros e' He'|exact Hrest].
      * apply (place_entry name rel y d n n1); try done.
        apply Hsep; apply list_elem_of_here.
      * assert (e' <> name) by (now intros ->). split.
        -- intros _. replace (dst ++ name :: rel) with ((dst ++ [name]) ++ rel)
             by (now rewrite <- app_assoc).
           apply apart_sym, apart_app_l, apart_sym. apply Hsep.
           ++ rewrite fmap_cons. now apply list_elem_of_further.
           ++ apply list_elem_of_here.
        -- now apply (apart_diverge dst [] rel).
    + assert (Hne : e <> name).
      { intros ->. apply Hfresh. apply list_elem_of_fmap. now exists (name, y). }
      assert (Hin' : name ∈ rest.*1) by (apply list_elem_of_fmap; now exists (name, y)).
      assert (He : e ∈ ((e, x) :: rest).*1) by apply list_elem_of_here.
      apply (IH Hsep' Hnd Hin n1 n'); [| |exact Hrest].
      * rewrite <- Hsrc.
        apply (copy_entries_frame_any _ [(e, x)]) with (2 := Hhead).
        intros e' He'. apply list_elem_of_singleton in He' as ->. split.
        -- intros _. now apply (apart_diverge src [] []).
        -- apply apart_sym. now apply Hsep.
      * intros es.
        assert (Hsame : get (dst ++ name :: rel) n1 = get (dst ++ name :: rel) n);
          [|rewrite Hsame; apply Hfree].
        apply (copy_entries_frame_any _ [(e, x)]) with (2 := Hhead).
        intros e' He'. apply list_elem_of_singleton in He' as ->. split.
        -- intros _. replace (dst ++ name :: rel) with ((dst ++ [name]) ++ rel)
             by (now rewrite <- app_assoc).
           apply apart_sym, apart_app_l, apart_sym. now apply Hsep.
        -- now apply (apart_diverge dst [] rel).
Qed.

End Level.

Lemma remove_keeps_apart_dir (src dst : path) (a : string) (n : node) :
  apart src dst -> isdir dst n = true -> isdir dst (remove (src ++ [a]) n) = true.
Proof.
  intros Hap Hdir. unfold isdir in *. rewrite get_remove_apart; [done|].
  now apply apart_app_l.
Qed.

(** A copy that runs to its end has put every file of the source, unless
    the pattern ignores one of its path components, at the same relative
    path of the destination, provided no directory was in its place. *)
Lemma copytree_places (limit : nat) :
  forall src dst n n' rel d,
    apart src dst ->
    copytree limit ignore cf ok src dst n = (n', None) ->
    rel <> [] -> Forall (fun k => ignore k = false) rel ->
    get (src ++ rel) n = Some (File d) ->
    (forall es, get (dst ++ rel) n <> Some (Dir es)) ->
    get (dst ++ rel) n' = Some (File d).
Proof.
  induction limit as [|limit IH]; intros src dst n n' rel d Hap; cbn [copytree]; [done|].
  intros Hcp Hne Hrel Hsrc Hfree.
  destruct rel as [|name rel]; [done|]. clear Hne.
  apply Forall_cons in Hrel as [Hname Hrel].
  rewrite get_app in Hsrc.
  destruct (get src n) as [[ds|es]|] eqn:Hs; [done| |done].
  simpl in Hsrc. destruct (es !! name) as [y|] eqn:Hy; [|done]. simpl in Hsrc.
  destruct (makedirs_for ok dst n) as [e|n1] eqn:Hmk; [done|].
  apply makedirs_for_inv in Hmk.
  destruct (copy_entries _ ignore cf src dst (map_to_list es) n1 false)
    as [[n2 errors] stop] eqn:Hloop.
  destruct stop; [now destruct errors|]. destruct errors; [done|].
  injection Hcp as <-.
  apply (place_loop limit IH src dst (fun a m => remove_keeps_apart_dir src dst a m Hap)
           name rel y d (map_to_list es)) with (n := n1); try done.
  - intros a b _ _. now apply apart_app_both.
  - apply NoDup_fst_map_to_list.
  - now apply elem_of_map_to_list.
  - rewrite (get_makedirs_frame _ _ _ _ Hmk).
    + rewrite (get_below src [name] n _ Hs). simpl. now rewrite Hy.
    + intros Hpre. destruct Hap as [Hsd _]. apply Hsd.
      etrans; [|exact Hpre]. now apply prefix_app_r.
  - intros es'. rewrite (get_makedirs_frame _ _ _ _ Hmk); [apply Hfree|].
    intros Hpre. apply prefix_length in Hpre. rewrite length_app in Hpre.
    simpl in Hpre. lia.
Qed.

End Places.

End ShutilLaws.

(** ** Exact copies *)

Module ShutilExact.
Import FS Shutil FSFacts PipelineFacts ShutilFacts ShutilLaws.

(** *** A copy into a fresh destination *)

Lemma makedirs_fresh (p : path) :
  forall n n', makedirs p n = inr n' -> get p n = None -> get p n' = Some (Dir ∅).
Proof.
  induction p as [|k p IH]; intros n n'; simpl; [now destruct n|].
  destruct n as [d|es]; [done|].
  destruct (makedirs p (default (Dir ∅) (es !! k))) as [e|c] eqn:Hmk; [done|].
  intros [= <-] Hnone. simpl. rewrite lookup_insert_eq. simpl.
  destruct (es !! k) as [x|] eqn:Hk; simpl in *.
  - now apply (IH x).
  - destruct p as [|k2 p]; [simpl in Hmk; now injection Hmk as <-|].
    now apply (IH (Dir ∅)).
Qed.

Lemma get_put_entry (p : path) (k : string) (x n : node) (D : gmap string node) :
  get p n = Some (Dir D) ->
  get p (put (p ++ [k]) x n) = Some (Dir (<[k := x]> D)).
Proof.
  intros Hp. unfold put. now rewrite (get_update_below p [k] _ n _ ltac:(done) Hp).
Qed.

Lemma copytree_fresh_inv (limit : nat) ignore (cf : copy_function) (src dst : path)
    (n n' : node) :
  copytree limit ignore cf false src dst n = (n', None) -> get dst n = None.
Proof.
  destruct limit as [|limit]; [done|]. simpl.
  destruct (get src n) as [[d|es]|]; try done.
  unfold makedirs_for. destruct (exists_ dst n) eqn:Hex; [done|].
  intros _. now apply MergeFacts.exists_false.
Qed.

Section Exact.
Variable ignore : string -> bool.
Variable ok : bool.
Hypothesis Hall : forall name, ignore name = false.

Section Level.
Variable limit : nat.
Hypothesis IHlimit : forall src dst n n',
  apart src dst -> get dst n = None ->
  copytree limit ignore Copy2 ok src dst n = (n', None) ->
  get dst n' = get src n.

Lemma exact_loop (src dst : path) (entries : list (string * node)) :
  apart src dst -> NoDup entries.*1 ->
  forall n n' (D : gmap string node),
    get dst n = Some (Dir D) ->
    (forall e, e ∈ entries -> D !! e.1 = None) ->
    (forall e, e ∈ entries -> get (src ++ [e.1]) n = Some e.2) ->
    copy_entries (copytree limit ignore Copy2 ok) ignore Copy2 src dst entries n false
      = (n', false, false) ->
    get dst n' = Some (Dir (list_to_map entries ∪ D)).
Proof.
  intros Hap. induction entries as [|[name y] rest IH]; intros Hnd n n' D Hdst Hfree Hsrc.
  - intros [= <-]. simpl. now rewrite (left_id_L ∅ (∪)).
  - rewrite fmap_cons in Hnd. apply NoDup_cons in Hnd as [Hfresh Hnd]. simpl in Hfresh.
    rewrite copy_entries_cons.
    destruct (copy_entries _ ignore Copy2 src dst [(name, y)] n false)
      as [[n1 errors1] stop1] eqn:Hhead.
    destruct stop1; [done|]. intros Hrest.
    assert (errors1 = false) as -> by (now apply copy_entries_clean in Hrest).
    pose proof (Hfree (name, y) (list_elem_of_here _ _)) as HDname. simpl in HDname.
    pose proof (Hsrc (name, y) (list_elem_of_here _ _)) as Hy. simpl in Hy.
    assert (Hnone : get (dst ++ [name]) n = None).
    { rewrite (get_below dst [name] n _ Hdst). simpl. now rewrite HDname. }
    assert (H1 : get dst n1 = Some (Dir (<[name := y]> D))).
    { cbn [copy_entries] in Hhead. rewrite Hall in Hhead. destruct y as [d|es'].
      - assert (Hnodir : isdir (dst ++ [name]) n = false)
          by (unfold isdir; now rewrite Hnone).
        assert (Hdir : isdir dst n = true) by (unfold isdir; now rewrite Hdst).
        cbn [apply_copy] in Hhead. unfold copy2 in Hhead.
        rewrite Hy in Hhead. cbv zeta in Hhead.
        rewrite Hnodir, Hnone, parent_snoc, Hdir in Hhead.
        injection Hhead as <-. now apply get_put_entry.
      - destruct (copytree limit ignore Copy2 ok (src ++ [name]) (dst ++ [name]) n)
          as [n2 r] eqn:Hr.
        destruct r as [e|]; [now destruct e|]. injection Hhead as <-.
        pose proof (IHlimit _ _ _ _ (apart_app_both _ _ [name] [name] Hap) Hnone Hr) as Hsub.
        rewrite Hy in Hsub.
        assert (Hconf : confined dst n n2).
        { eapply (confined_copytree dst ignore Copy2); [| |exact Hr]; [discriminate|].
          now exists [name]. }
        destruct Hconf as [_ Hdirs].
        assert (Hdir : isdir dst n2 = true).
        { apply Hdirs; [done|]. unfold isdir. now rewrite Hdst. }
        unfold isdir in Hdir. destruct (get dst n2) as [[|D2]|] eqn:HD2; try done.
        f_equal. f_equal. apply map_eq. intros k.
        destruct (decide (k = name)) as [->|Hk].
        + rewrite lookup_insert_eq.
          rewrite (get_below dst [name] n2 _ HD2) in Hsub. simpl in Hsub.
          now destruct (D2 !! name).
        + rewrite lookup_insert_ne by done.
          assert (Hsame : get (dst ++ [k]) n2 = get (dst ++ [k]) n).
          { apply (copytree_frame _ _ _ _ _ _ _ _ _ _ Hr); [discriminate|].
            apply (apart_diverge dst [] []). congruence. }
          rewrite (get_below dst [k] n2 _ HD2), (get_below dst [k] n _ Hdst) in Hsame.
          simpl in Hsame. destruct (D2 !! k), (D !! k); simpl in Hsame; congruence. }
    rewrite (IH Hnd n1 n' _ H1); [| | |exact Hrest].
    + simpl. rewrite <- insert_union_l. do 2 f_equal. symmetry. apply insert_union_r.
      apply not_elem_of_list_to_map_1. exact Hfresh.
    + intros e He. rewrite lookup_insert_ne; [apply Hfree; now apply list_elem_of_further|].
      intros Heq. apply Hfresh. rewrite Heq. apply list_elem_of_fmap. now exists e.
    + intros e He. rewrite <- (Hsrc e) by (now apply list_elem_of_further).
      apply (copy_entries_frame_any ignore Copy2 ok limit src dst _ [(name, y)])
        with (2 := Hhead).
      intros e' He'. apply list_elem_of_singleton in He' as ->. split; [discriminate|].
      apply apart_app_both. now apply apart_sym.
Qed.

End Level.

(** When nothing is ignored, a copy that runs to its end into a
    destination that was not there leaves at the destination exactly the
    tree of the source. *)
Lemma copytree_exact (limit : nat) :
  forall src dst n n',
    apart src dst -> get dst n = None ->
    copytree limit ignore Copy2 ok src dst n = (n', None) ->
    get dst n' = get src n.
Proof.
  induction limit as [|limit IH]; intros src dst n n' Hap Hnone; cbn [copytree]; [done|].
  destruct (get src n) as [[ds|es]|] eqn:Hs; [done| |done].
  destruct (makedirs_for ok dst n) as [e|n1] eqn:Hmk; [done|].
  apply makedirs_for_inv in Hmk.
  destruct (copy_entries _ ignore Copy2 src dst (map_to_list es) n1 false)
    as [[n2 errors] stop] eqn:Hloop.
  destruct stop; [now destruct errors|]. destruct errors; [done|].
  intros [= <-].
  rewrite (exact_loop limit IH src dst (map_to_list es) Hap (NoDup_fst_map_to_list _)
             n1 n2 ∅); [|now apply (makedirs_fresh dst n)| | |exact Hloop].
  - now rewrite (right_id_L ∅ (∪)), list_to_map_to_list.
  - intros e _. apply lookup_empty.
  - intros [name y] He. apply elem_of_map_to_list in He. simpl.
    rewrite (get_makedirs_frame _ _ _ _ Hmk).
    + rewrite (get_below src [name] n _ Hs). simpl. now rewrite He.
    + intros Hpre. destruct Hap as [Hsd _]. apply Hsd.
      etrans; [|exact Hpre]. now apply prefix_app_r.
Qed.

End Exact.

End ShutilExact.

(** ** More on the merge step *)

Module MergeLaws.
Import FS Shutil Pipeline Merge FSFacts PipelineFacts ShutilFacts MergeFacts.

(** *** What the merge step leaves alone *)

Lemma tools_local (c : string) (dir q : path) (n : node) :
  apart dir q -> get q (Samples.tools c dir n).2 = get q n.
Proof.
  intros Hq. unfold Samples.tools, merge_command.
  destruct (get dir n) as [[d|es]|]; try done.
  destruct (merge_ready es); [|done].
  simpl. rewrite get_foldl_remove_apart.
  - apply get_write_file_apart. now apply apart_app_l.
  - intros m _. now apply apart_app_l.
Qed.

Lemma package_frame_triple platform limit order run_cmd (b : Build) (q : path) (v : option node) :
  (forall c dir x q, apart dir q -> get q (run_cmd c dir x).2 = get q x) ->
  apart (aux_folder b) q -> apart (library_path b) q ->
  triple (holds q v) (package_mcu_library platform limit order run_cmd b)
         (fun _ => holds q v) (holds q v).
Proof.
  intros Hlocal Haux Hlp. unfold package_mcu_library.
  eapply (triple_bind _ _ _ (fun _ => holds q v)).
  { intros w Hw. unfold resolve_binutils_path.
    destruct (String.eqb platform "darwin"); [|done].
    destruct (exists_ homebrew_binutils_path (fs w)); [done|].
    unfold bind, print, sys_exit. simpl. now split. }
  intros binutils. eapply (triple_bind _ _ _ (fun _ => holds q v)).
  { intros w Hw. unfold fs_do, holds in *. simpl.
    now rewrite get_rmtree_ignore_apart. }
  intros []. eapply (triple_bind _ _ _ (fun _ => holds q v)).
  { intros w Hw. unfold fs_do, holds in *. simpl.
    now rewrite get_rmtree_ignore_apart. }
  intros []. eapply (triple_bind _ _ _ (fun _ => holds q v)).
  { apply triple_fs_call; [|auto]. intros w x Hw Hmk. unfold holds in *. simpl.
    rewrite (get_makedirs_frame _ q _ _ Hmk); [done|]. apply Haux. }
  intros []. eapply (triple_bind _ _ _ (fun _ => holds q v)).
  { apply triple_fs_call; [|auto]. intros w x Hw Hmk. unfold holds in *. simpl.
    rewrite (get_makedirs_frame _ q _ _ Hmk); [done|]. apply Hlp. }
  intros []. eapply (triple_bind _ _ _ (fun _ => holds q v)).
  { intros w Hw. now apply (stage_archives_frame (aux_folder b) q v platform run_cmd Haux Hlocal). }
  intros []. eapply (triple_bind _ _ _ (fun _ => holds_in (aux_folder b) q v)).
  { intros w Hw. unfold chdir.
    destruct (get (aux_folder b) (fs w)) as [[|es]|]; done. }
  intros []. eapply (triple_bind _ _ _ (fun _ => holds_in (aux_folder b) q v)).
  { intros w [Hw Hcwd]. unfold run_merge.
    destruct (run_cmd _ (cwd w) (fs w)) as [rc x] eqn:Hrun. split; [|exact Hcwd].
    unfold holds in *. simpl.
    specialize (Hlocal (merge_command_line binutils) (cwd w) (fs w) q).
    rewrite Hrun in Hlocal. simpl in Hlocal. rewrite Hlocal; [done|].
    now rewrite Hcwd. }
  intros rc. destruct (negb (rc =? 0)%Z).
  { intros w [Hw _]. unfold bind, print, sys_exit. simpl. now split. }
  eapply (triple_bind _ _ _ (fun _ => holds q v)).
  { intros w [Hw Hcwd]. unfold fs_call.
    destruct (os_rename _ _ _ (fs w)) as [e|x] eqn:Hmv; [exact Hw|].
    unfold os_rename in Hmv. destruct (_ && _); [done|].
    unfold holds in *. simpl. rewrite <- Hw.
    eapply get_rename_apart; [| |exact Hmv].
    - rewrite Hcwd. now apply apart_app_l.
    - unfold library. now apply apart_app_l. }
  assert (Hinc : apart (includes b) q) by (unfold includes; now apply apart_app_l).
  intros []. eapply (triple_bind _ _ _ (fun _ => holds q v)).
  { intros w Hw. unfold fs_try.
    destruct (copytree limit ignore_nothing Copy2 false _ (includes b) (fs w))
      as [x r] eqn:Hcp.
    eapply (confined_copytree (includes b) _ Copy2) in Hcp as [Hframe _].
    - assert (holds q v (with_fs x w)) by (unfold holds in *; simpl; now rewrite Hframe).
      now destruct r.
    - discriminate.
    - exists []. now rewrite app_nil_r. }
  intros [] w Hw. unfold fs_try.
  destruct (flatten_includes limit (includes b) (fs w)) as [x r] eqn:Hfl.
  assert (holds q v (with_fs x w)).
  { unfold holds in *. simpl. rewrite <- Hw. eapply flatten_includes_frame; eauto. }
  now destruct r.
Qed.

(** X10: however the merge step ends, what lies away from the staging folder
    and from the library folder is as it was before: the step reads the
    install tree and writes to those two folders only. *)
Theorem package_mcu_library_frame platform limit order run_cmd (b : Build) (w : World)
    (q : path) :
  (forall c dir x q, apart dir q -> get q (run_cmd c dir x).2 = get q x) ->
  apart (aux_folder b) q -> apart (library_path b) q ->
  get q (fs (final_state (package_mcu_library platform limit order run_cmd b w)))
  = get q (fs w).
Proof.
  intros Hlocal Haux Hlp.
  pose proof (package_frame_triple platform limit order run_cmd b q (get q (fs w))
                Hlocal Haux Hlp w eq_refl) as H.
  destruct (package_mcu_library platform limit order run_cmd b w); simpl; [done| |done].
  now destruct H.
Qed.

Lemma package_mcu_library_frame_witness :
  get ["proj"; "build"; "mcu"; "install"; "lib"; "librcl.a"]
      (fs (final_state (package_mcu_library "linux" 8 Samples.as_listed Samples.tools
                          Samples.sample_build (Samples.world_of Samples.built_tree))))
  = get ["proj"; "build"; "mcu"; "install"; "lib"; "librcl.a"]
        (fs (Samples.world_of Samples.built_tree)).
Proof.
  apply (package_mcu_library_frame "linux" 8 Samples.as_listed Samples.tools
           Samples.sample_build (Samples.world_of Samples.built_tree)).
  - intros c dir x q. apply tools_local.
  - apply (apart_diverge ["proj"; "build"] [] ["install"; "lib"; "librcl.a"]). discriminate.
  - apply (apart_diverge ["proj"] [] ["mcu"; "install"; "lib"; "librcl.a"]). discriminate.
Defined.

(** X11: on macOS without the Homebrew binutils the merge step prints one line
    and leaves with status 1 before it has removed or created anything: a
    library of an earlier build stays where it is. *)
Theorem package_mcu_library_needs_binutils (limit : nat) order run_cmd (b : Build) (w : World) :
  exists_ homebrew_binutils_path (fs w) = false ->
  exists line,
    package_mcu_library "darwin" limit order run_cmd b w
    = Exits 1 {| fs := fs w; cwd := cwd w; stdout := stdout w ++ [line];
                 commands := commands w; env := env w; pkgs := pkgs w |}.
Proof.
  intros Hmissing. unfold package_mcu_library, resolve_binutils_path, bind at 1.
  simpl. rewrite Hmissing. eexists. reflexivity.
Qed.

Lemma package_mcu_library_needs_binutils_witness :
  exists line,
    package_mcu_library "darwin" 8 Samples.as_listed Samples.failing_cmd Samples.sample_build
      (Samples.world_of Samples.built_tree)
    = Exits 1 {| fs := Samples.built_tree; cwd := []; stdout := [] ++ [line];
                 commands := [];
                 env := env (Samples.world_of Samples.built_tree);
                 pkgs := pkgs (Samples.world_of Samples.built_tree) |}.
Proof.
  apply (package_mcu_library_needs_binutils 8 Samples.as_listed Samples.failing_cmd Samples.sample_build
           (Samples.world_of Samples.built_tree)).
  reflexivity.
Defined.

(** *** What a normal return means *)

Lemma bind_Returns {S A B} (m : S -> outcome S A) (k : A -> S -> outcome S B)
    (s s' : S) (b : B) :
  bind m k s = Returns b s' ->
  exists a s1, m s = Returns a s1 /\ k a s1 = Returns b s'.
Proof. unfold bind. destruct (m s) as [a s1| |]; [eauto|done..]. Qed.

Lemma fs_call_Returns op (w w' : World) :
  fs_call op w = Returns tt w' -> exists x, op (fs w) = inr x /\ w' = with_fs x w.
Proof.
  unfold fs_call. destruct (op (fs w)) as [e|x]; [done|]. intros [= <-]. eauto.
Qed.

Lemma fs_try_Returns op (w w' : World) :
  fs_try op w = Returns tt w' -> exists x, op (fs w) = (x, None) /\ w' = with_fs x w.
Proof.
  unfold fs_try. destruct (op (fs w)) as [x [e|]]; [done|]. intros [= <-]. eauto.
Qed.

Lemma rename_lands (src lp : path) (k : string) (n n' : node) :
  apart src lp -> rename src (lp ++ [k]) n = inr n' ->
  is_Some (get (lp ++ [k]) n').
Proof.
  intros Hap. unfold rename. destruct (get src n) as [x|]; [|done].
  rewrite parent_snoc. destruct (isdir lp n) eqn:Hdir; [|done].
  assert (Hput : get (lp ++ [k]) (put (lp ++ [k]) x (remove src n)) = Some x).
  { apply get_put_child. unfold isdir in *. now rewrite get_remove_apart. }
  destruct x, (get (lp ++ [k]) n) as [[|ds]|]; try done;
    try (intros [= <-]; rewrite Hput; eauto).
  case_bool_decide; [|done]. intros [= <-]; rewrite Hput; eauto.
Qed.

Lemma copytree_makes_dst (limit : nat) ignore (cf : copy_function) (ok : bool)
    (src dst : path) (n n' : node) :
  (cf = Move -> below dst src) ->
  copytree limit ignore cf ok src dst n = (n', None) -> isdir dst n' = true.
Proof.
  intros Hsrc. destruct limit as [|limit]; [done|]. simpl.
  destruct (get src n) as [[d|es]|]; try done.
  destruct (makedirs_for ok dst n) as [e|n1] eqn:Hmk; [done|].
  assert (Hdir : isdir dst n1 = true).
  { unfold makedirs_for in Hmk.
    assert (makedirs dst n = inr n1) as Hmk'
      by (destruct ok; [done|]; now destruct (exists_ dst n)).
    apply makedirs_isdir in Hmk' as [es' Hes']. unfold isdir. now rewrite Hes'. }
  destruct (copy_entries _ ignore cf src dst (map_to_list es) n1 false)
    as [[n2 errors] stop] eqn:Hloop.
  intros Hres. assert (n' = n2) as -> by (destruct stop, errors; congruence).
  assert (Hc : confined dst n1 n2).
  { eapply (confined_copy_entries dst ignore cf); [| | |exact Hloop].
    - intros s d x x' r. apply confined_copytree.
    - exact Hsrc.
    - exists []. now rewrite app_nil_r. }
  destruct Hc as [_ Hdirs]. now apply Hdirs.
Qed.

Lemma package_returns platform limit order run_cmd (b : Build) (w w' : World) :
  build_folder b = default_build (library_folder b) ->
  package_mcu_library platform limit order run_cmd b w = Returns tt w' ->
  is_Some (get (library b) (fs w')) /\
  isdir (includes b) (fs w') = true /\
  forall f, get (includes b ++ [f; f]) (fs w') = None.
Proof.
  intros Hlayout Hrun. unfold package_mcu_library in Hrun.
  apply bind_Returns in Hrun as (binutils & w1 & _ & Hrun).
  apply bind_Returns in Hrun as ([] & w2 & _ & Hrun).
  apply bind_Returns in Hrun as ([] & w3 & _ & Hrun).
  apply bind_Returns in Hrun as ([] & w4 & _ & Hrun).
  apply bind_Returns in Hrun as ([] & w5 & _ & Hrun).
  apply bind_Returns in Hrun as ([] & w6 & _ & Hrun).
  apply bind_Returns in Hrun as ([] & w7 & Hcd & Hrun).
  apply bind_Returns in Hrun as (rc & w8 & Hmerge & Hrun).
  assert (Hcwd : cwd w8 = aux_folder b).
  { unfold chdir in Hcd. destruct (get (aux_folder b) (fs w6)) as [[|es]|]; try done.
    injection Hcd as <-. unfold run_merge in Hmerge.
    destruct (run_cmd _ (cwd _) (fs _)) as [rc' x]. now injection Hmerge as _ <-. }
  destruct (negb (rc =? 0)%Z).
  { apply bind_Returns in Hrun as ([] & w9 & _ & Hrun). done. }
  apply bind_Returns in Hrun as ([] & w9 & Hmv & Hrun).
  apply bind_Returns in Hrun as ([] & w10 & Hcp & Hfl).
  apply fs_call_Returns in Hmv as (x9 & Hmv & ->).
  apply fs_try_Returns in Hcp as (x10 & Hcp & ->).
  apply fs_try_Returns in Hfl as (x11 & Hfl & ->). simpl in *.
  rewrite Hcwd in Hmv. unfold os_rename in Hmv.
  destruct (_ && _) in Hmv; [done|]. apply rename_lands in Hmv;
    [|apply apart_app_l; now apply aux_apart_lp].
  pose proof (includes_apart_library b) as Hap.
  assert (H10 : is_Some (get (library b) x10)).
  { eapply (confined_copytree (includes b) _ Copy2) in Hcp as Hc.
    - destruct Hc as [Hframe _]. now rewrite Hframe.
    - discriminate.
    - exists []. now rewrite app_nil_r. }
  split; [|split].
  - now rewrite (flatten_includes_frame _ _ _ _ _ _ Hfl Hap).
  - apply copytree_makes_dst in Hcp; [|discriminate].
    unfold flatten_includes in Hfl.
    destruct (listdir (includes b) x10) as [folders|]; [|done].
    now apply (flatten_folders_effect _ _ _ _ _ Hfl).
  - intros f. unfold flatten_includes in Hfl.
    destruct (listdir (includes b) x10) as [folders|] eqn:Hls; [|done].
    destruct (flatten_folders_effect _ _ _ _ _ Hfl) as (Hgone & _ & _).
    apply Hgone. destruct (decide (f ∈ folders)) as [Hin|Hout]; [now right|left].
    destruct (get (includes b ++ [f]) x10) as [c|] eqn:Hf.
    + destruct Hout. apply (elem_of_listdir _ _ _ f Hls). now rewrite Hf.
    + replace (includes b ++ [f; f]) with ((includes b ++ [f]) ++ [f])
        by now rewrite <- app_assoc.
      now rewrite get_app, Hf.
Qed.

(** X12: when the merge step returns normally, the library file is in place
    and the include root is a directory none of whose folders has an entry
    of its own name. *)
Theorem package_mcu_library_returns platform limit order run_cmd (b : Build) (w w' : World) :
  build_folder b = default_build (library_folder b) ->
  package_mcu_library platform limit order run_cmd b w = Returns tt w' ->
  exists_ (library b) (fs w') = true /\
  isdir (includes b) (fs w') = true /\
  forall f, exists_ (includes b ++ [f; f]) (fs w') = false.
Proof.
  intros Hlayout Hrun.
  destruct (package_returns _ _ _ _ _ _ _ Hlayout Hrun) as (Hlib & Hinc & Hflat).
  split; [now apply bool_decide_eq_true|]. split; [exact Hinc|].
  intros f. apply bool_decide_eq_false. rewrite Hflat. now intros [? ?].
Qed.

Lemma package_mcu_library_returns_witness :
  let w' := final_state (package_mcu_library "linux" 8 Samples.as_listed Samples.tools
                           Samples.sample_build (Samples.world_of Samples.built_tree)) in
  exists_ (library Samples.sample_build) (fs w') = true /\
  isdir (includes Samples.sample_build) (fs w') = true /\
  forall f, exists_ (includes Samples.sample_build ++ [f; f]) (fs w') = false.
Proof.
  intros w'.
  apply (package_mcu_library_returns "linux" 8 Samples.as_listed Samples.tools
           Samples.sample_build (Samples.world_of Samples.built_tree) w').
  - reflexivity.
  - vm_compute. reflexivity.
Defined.

(** *** Staged names *)

Lemma split_dot_head_first_dot (a rest : string) :
  PyStr.mem_char "."%char a = false ->
  PyStr.split_dot_head (a +:+ "." +:+ rest) = a.
Proof.
  induction a as [|c a IH]; [done|].
  change (String c a +:+ "." +:+ rest) with (String c (a +:+ "." +:+ rest)).
  cbn [PyStr.mem_char PyStr.split_dot_head]. intros H.
  apply orb_false_iff in H as [Hc Ha]. rewrite Hc. f_equal. now apply IH.
Qed.

(** X13: whatever the archive and the member are called, the staged file does
    not take the name of the extraction folder or of the merged archive
    and is not a hidden file; when the member name ends in [.obj] the
    pattern of the merge command matches it. *)
Theorem staged_name_safe (f obj : string) :
  staged_name f obj <> "naming" /\
  staged_name f obj <> "libmicroros.a" /\
  PyStr.startswith (staged_name f obj) "." = false /\
  (PyStr.endswith obj ".obj" = true -> glob_objects (staged_name f obj) = true).
Proof.
  split; [apply staged_name_not_naming|].
  split; [apply staged_name_not_library|].
  split; [|apply glob_staged_name].
  unfold staged_name. change "__" with ("_" +:+ "_").
  rewrite PyStrFacts.append_assoc. apply PyStrFacts.split_dot_head_not_hidden.
Qed.

(** X14: only the text before the first dot of the archive's file name goes
    into a staged name: archives whose names agree up to their first dot
    stage a member under the same name. *)
Theorem staged_name_first_dot (a r1 r2 obj : string) :
  PyStr.mem_char "."%char a = false ->
  staged_name (a +:+ "." +:+ r1) obj = a +:+ "__" +:+ obj /\
  staged_name (a +:+ "." +:+ r1) obj = staged_name (a +:+ "." +:+ r2) obj.
Proof.
  intros Ha. unfold staged_name. now rewrite !split_dot_head_first_dot.
Qed.

Lemma staged_name_first_dot_witness :
  staged_name ("librcl" +:+ "." +:+ "v1.a") "main.c.obj" = "librcl" +:+ "__" +:+ "main.c.obj" /\
  staged_name ("librcl" +:+ "." +:+ "v1.a") "main.c.obj"
  = staged_name ("librcl" +:+ "." +:+ "a") "main.c.obj".
Proof. apply (staged_name_first_dot "librcl" "v1.a" "a" "main.c.obj"). reflexivity. Defined.

(** *** The folders of a build *)

(** X15: in the default layout no work folder lies in another: the dev and the
    target workspaces, the staging folder and the library folder are
    pairwise apart, as are the library file and the include root. *)
Theorem default_layout_apart (b : Build) :
  build_folder b = default_build (library_folder b) ->
  apart (dev_folder b) (mcu_folder b) /\
  apart (dev_folder b) (aux_folder b) /\
  apart (mcu_folder b) (aux_folder b) /\
  apart (library_path b) (dev_folder b) /\
  apart (library_path b) (mcu_folder b) /\
  apart (library_path b) (aux_folder b) /\
  apart (library b) (includes b).
Proof.
  intros Hb. unfold dev_folder, mcu_folder, aux_folder, library, includes, library_path.
  repeat split; try (apply (apart_diverge _ [] []); discriminate);
    rewrite Hb; unfold default_build; rewrite <- app_assoc;
    apply (apart_diverge _ [] [_]); discriminate.
Qed.

Lemma default_layout_apart_witness :
  apart (dev_folder Samples.sample_build) (mcu_folder Samples.sample_build) /\
  apart (dev_folder Samples.sample_build) (aux_folder Samples.sample_build) /\
  apart (mcu_folder Samples.sample_build) (aux_folder Samples.sample_build) /\
  apart (library_path Samples.sample_build) (dev_folder Samples.sample_build) /\
  apart (library_path Samples.sample_build) (mcu_folder Samples.sample_build) /\
  apart (library_path Samples.sample_build) (aux_folder Samples.sample_build) /\
  apart (library Samples.sample_build) (includes Samples.sample_build).
Proof. apply (default_layout_apart Samples.sample_build). reflexivity. Defined.

End MergeLaws.

(** ** More on the include fix *)

Module FlattenLaws.
Import FS Shutil Pipeline Merge FSFacts PipelineFacts ShutilFacts MergeFacts ShutilLaws.

(** A pass over folders changes nothing at a path that is apart from each
    of them, however it ends. *)
Lemma flatten_folders_frame (limit : nat) (inc q : path) (folders : list string) :
  (forall f, f ∈ folders -> apart (inc ++ [f]) q) ->
  forall n n' r, flatten_folders limit inc folders n = (n', r) -> get q n' = get q n.
Proof.
  induction folders as [|f rest IH]; intros Hq n n' r; simpl; [now intros [= <- _]|].
  destruct (flatten_folder limit inc f n) as [n1 r1] eqn:Hf.
  apply flatten_folder_confined in Hf as [Hframe _].
  assert (H1 : get q n1 = get q n) by (apply Hframe, Hq, list_elem_of_here).
  destruct r1 as [e|]; [now intros [= <- _]|].
  intros Hrest. rewrite <- H1. apply (IH (fun f' Hf' => Hq f' (list_elem_of_further _ _ _ Hf')) _ _ _ Hrest).
Qed.

(** The fix of one folder [g]: a file below [g/g] ends up one level
    higher. *)
Lemma flatten_folder_places (limit : nat) (inc : path) (g : string) (rel : path)
    (d : fdata) (n n' : node) :
  flatten_folder limit inc g n = (n', None) ->
  get (inc ++ [g; g; g]) n = None ->
  rel <> [] ->
  get (inc ++ g :: g :: rel) n = Some (File d) ->
  (forall es, get (inc ++ g :: rel) n <> Some (Dir es)) ->
  get (inc ++ g :: rel) n' = Some (File d).
Proof.
  unfold flatten_folder. set (dst := inc ++ [g]). set (src := dst ++ [g]).
  replace (inc ++ [g; g; g]) with (src ++ [g]) by (unfold src, dst; now rewrite <- !app_assoc).
  replace (inc ++ g :: g :: rel) with (src ++ rel) by (unfold src, dst; now rewrite <- !app_assoc).
  replace (inc ++ g :: rel) with (dst ++ rel) by (unfold dst; now rewrite <- !app_assoc).
  intros Hrun Hnone Hne Hfile Hfree.
  destruct rel as [|name rel]; [done|]. clear Hne.
  rewrite get_app in Hfile.
  destruct (get src n) as [[ds|es]|] eqn:Hs; [done| |done].
  simpl in Hfile. destruct (es !! name) as [y|] eqn:Hy; [|done]. simpl in Hfile.
  assert (Hex : exists_ src n = true) by (apply bool_decide_eq_true; rewrite Hs; eauto).
  rewrite Hex in Hrun.
  destruct (copytree limit ignore_nothing Move true src dst n) as [n1 [e|]] eqn:Hcp; [done|].
  assert (Hname : name <> g).
  { intros ->. rewrite (get_below src [g] n _ Hs) in Hnone. simpl in Hnone.
    now rewrite Hy in Hnone. }
  assert (H1 : get (dst ++ name :: rel) n1 = Some (File d)).
  { destruct limit as [|limit]; [done|]. cbn [copytree] in Hcp. rewrite Hs in Hcp.
    assert (Hdir : isdir dst n = true).
    { apply (isdir_prefix dst [g]). fold src. unfold isdir. now rewrite Hs. }
    unfold makedirs_for in Hcp. rewrite (makedirs_existing dst n Hdir) in Hcp.
    destruct (copy_entries _ ignore_nothing Move src dst (map_to_list es) n false)
      as [[n2 errors] stop] eqn:Hloop.
    destruct stop; [now destruct errors|]. destruct errors; [done|].
    injection Hcp as <-.
    apply (place_loop ignore_nothing Move true limit
             (copytree_places ignore_nothing Move true limit) src dst)
      with (y := y) (entries := map_to_list es) (n := n); try done.
    - intros a m Hm. unfold src. rewrite <- app_assoc. now apply isdir_update_above.
    - intros a b _ Hb. unfold src. rewrite <- app_assoc.
      apply (apart_diverge dst [a] []). intros <-.
      apply list_elem_of_fmap in Hb as ([b' x] & Hb' & Hin). simpl in Hb'. subst b'.
      apply elem_of_map_to_list in Hin.
      rewrite (get_below src [g] n _ Hs) in Hnone. simpl in Hnone.
      now rewrite Hin in Hnone.
    - clear. induction rel; now constructor.
    - apply NoDup_fst_map_to_list.
    - now apply elem_of_map_to_list.
    - rewrite (get_below src [name] n _ Hs). simpl. now rewrite Hy. }
  unfold rmtree in Hrun. destruct (get src n1) as [[?|?]|]; try done.
  injection Hrun as <-. rewrite get_remove_apart; [exact H1|].
  unfold src. apply (apart_diverge dst [] rel). congruence.
Qed.

Lemma flatten_folders_places (limit : nat) (inc : path) (g : string) (rel : path)
    (d : fdata) (folders : list string) :
  NoDup folders -> g ∈ folders -> rel <> [] ->
  forall n n',
    flatten_folders limit inc folders n = (n', None) ->
    get (inc ++ [g; g; g]) n = None ->
    get (inc ++ g :: g :: rel) n = Some (File d) ->
    (forall es, get (inc ++ g :: rel) n <> Some (Dir es)) ->
    get (inc ++ g :: rel) n' = Some (File d).
Proof.
  intros Hnd Hin Hne. induction folders as [|f rest IH]; intros n n'.
  - now apply not_elem_of_nil in Hin.
  - apply NoDup_cons in Hnd as [Hfresh Hnd]. simpl.
    destruct (flatten_folder limit inc f n) as [n1 [e|]] eqn:Hf; [done|].
    intros Hrest Hnone Hfile Hfree.
    destruct (decide (f = g)) as [->|Hfg].
    + rewrite (flatten_folders_frame limit inc _ rest) with (n := n1) (r := None);
        [|intros f' Hf'|exact Hrest].
      * now apply (flatten_folder_places limit inc g rel d n n1).
      * apply (apart_diverge inc [] rel). now intros ->.
    + apply elem_of_cons in Hin as [?|Hin]; [congruence|].
      apply flatten_folder_confined in Hf as [Hframe _].
      assert (Hsame : forall t, get (inc ++ g :: t) n1 = get (inc ++ g :: t) n).
      { intros t. apply Hframe. now apply (apart_diverge inc [] t). }
      apply (IH Hnd Hin n1 n' Hrest).
      * now rewrite (Hsame [g; g]).
      * now rewrite Hsame.
      * intros es. rewrite Hsame. apply Hfree.
Qed.

Lemma flatten_places (limit : nat) (inc : path) (g : string) (rel : path)
    (d : fdata) (n n' : node) :
  flatten_includes limit inc n = (n', None) ->
  get (inc ++ [g; g; g]) n = None ->
  rel <> [] ->
  get (inc ++ g :: g :: rel) n = Some (File d) ->
  (forall es, get (inc ++ g :: rel) n <> Some (Dir es)) ->
  get (inc ++ g :: rel) n' = Some (File d).
Proof.
  intros Hpass Hnone Hne Hfile Hfree. unfold flatten_includes in Hpass.
  destruct (listdir inc n) as [folders|] eqn:Hls; [|done].
  assert (Hg : g ∈ folders).
  { apply (elem_of_listdir _ _ _ g Hls).
    replace (inc ++ g :: g :: rel) with ((inc ++ [g]) ++ g :: rel) in Hfile
      by (now rewrite <- app_assoc).
    rewrite get_app in Hfile. destruct (get (inc ++ [g]) n); [eauto|done]. }
  apply (flatten_folders_places limit inc g rel d folders) with (n := n); try done.
  unfold listdir in Hls. destruct (get inc n) as [[|es]|]; try done.
  injection Hls as <-. apply NoDup_fst_map_to_list.
Qed.

(** X16: the point of the include fix: when the pass runs to its end, a header
    that was at [<folder>/<folder>/<rest>] is at [<folder>/<rest>], and
    nothing is left at its old place.  The header must not meet a
    directory at its new place, and the folder must not be nested a third
    time. *)
Theorem flatten_moves_headers_up (limit : nat) (inc : path) (g : string) (rel : path)
    (d : fdata) (n n' : node) :
  flatten_includes limit inc n = (n', None) ->
  get (inc ++ [g; g; g]) n = None ->
  rel <> [] ->
  get (inc ++ g :: g :: rel) n = Some (File d) ->
  (forall es, get (inc ++ g :: rel) n <> Some (Dir es)) ->
  get (inc ++ g :: rel) n' = Some (File d) /\
  get (inc ++ g :: g :: rel) n' = None.
Proof.
  intros Hpass Hnone Hne Hfile Hfree. split.
  - now apply (flatten_places limit inc g rel d n n').
  - unfold flatten_includes in Hpass.
    destruct (listdir inc n) as [folders|] eqn:Hls; [|done].
    destruct (flatten_folders_effect _ _ _ _ _ Hpass) as (Hgone & _ & _).
    replace (inc ++ g :: g :: rel) with ((inc ++ [g; g]) ++ rel)
      by (now rewrite <- app_assoc).
    rewrite get_app, (Hgone g); [done|].
    right. apply (elem_of_listdir _ _ _ g Hls).
    replace (inc ++ g :: g :: rel) with ((inc ++ [g]) ++ g :: rel) in Hfile
      by (now rewrite <- app_assoc).
    rewrite get_app in Hfile. destruct (get (inc ++ [g]) n); [eauto|done].
Qed.

Lemma flatten_moves_headers_up_witness :
  get (["include"] ++ "rcl" :: ["types"; "init.h"]) Samples.flat_includes
    = Some (File (Blob "init")) /\
  get (["include"] ++ "rcl" :: "rcl" :: ["types"; "init.h"]) Samples.flat_includes = None.
Proof.
  apply (flatten_moves_headers_up 8 ["include"] "rcl" ["types"; "init.h"] (Blob "init")
           Samples.nested_includes Samples.flat_includes).
  - vm_compute. reflexivity.
  - reflexivity.
  - discriminate.
  - reflexivity.
  - intros es. vm_compute. discriminate.
Defined.

Lemma flatten_plain (limit : nat) (inc : path) (g : string)
    (n n' : node) (r : option exn) :
  flatten_includes limit inc n = (n', r) ->
  get (inc ++ [g; g]) n = None ->
  get (inc ++ [g]) n' = get (inc ++ [g]) n.
Proof.
  unfold flatten_includes. destruct (listdir inc n) as [folders|]; [|now intros [= <- _]].
  revert n. induction folders as [|f rest IH]; intros n; simpl; [now intros [= <- _]|].
  destruct (decide (f = g)) as [->|Hfg].
  - intros Hpass Hnone. unfold flatten_folder in Hpass.
    replace ((inc ++ [g]) ++ [g]) with (inc ++ [g; g]) in Hpass
      by (now rewrite <- app_assoc).
    unfold exists_ in Hpass. rewrite Hnone in Hpass.
    rewrite bool_decide_eq_false_2 in Hpass by (now intros [? ?]).
    now apply IH.
  - destruct (flatten_folder limit inc f n) as [n1 r1] eqn:Hf.
    apply flatten_folder_confined in Hf as [Hframe _].
    assert (Hsame : forall t, get (inc ++ g :: t) n1 = get (inc ++ g :: t) n).
    { intros t. apply Hframe. now apply (apart_diverge inc [] t). }
    destruct r1 as [e|]; [intros [= <- _] _; apply (Hsame [])|].
    intros Hrest Hnone. rewrite <- (Hsame []). apply IH; [done|].
    now rewrite (Hsame [g]).
Qed.

(** X17: a folder of the include root that has no entry of its own name is not
    touched by the pass, however the pass ends: every path below it holds
    what it held. *)
Theorem flatten_keeps_plain_folders (limit : nat) (inc : path) (g : string) (rel : path)
    (n n' : node) (r : option exn) :
  flatten_includes limit inc n = (n', r) ->
  get (inc ++ [g; g]) n = None ->
  get (inc ++ g :: rel) n' = get (inc ++ g :: rel) n.
Proof.
  intros Hpass Hnone.
  replace (inc ++ g :: rel) with ((inc ++ [g]) ++ rel) by (now rewrite <- app_assoc).
  rewrite (get_app (inc ++ [g]) rel n'), (get_app (inc ++ [g]) rel n).
  now rewrite (flatten_plain limit inc g n n' r Hpass Hnone).
Qed.

Lemma flatten_keeps_plain_folders_witness :
  get (["include"] ++ "rmw" :: ["rmw.h"]) Samples.flat_includes
  = get (["include"] ++ "rmw" :: ["rmw.h"]) Samples.nested_includes.
Proof.
  apply (flatten_keeps_plain_folders 8 ["include"] "rmw" ["rmw.h"]
           Samples.nested_includes Samples.flat_includes None).
  - vm_compute. reflexivity.
  - reflexivity.
Defined.

End FlattenLaws.

(** ** More on the merged library *)

Module StagingLaws.
Import FS Shutil Pipeline Merge FSFacts PipelineFacts ShutilFacts MergeFacts.

(** *** The merged library in general *)

(** X18: where [os.rename] replaces an existing file (every platform but
    Windows), with names that the command lines carry as they are and
    whatever the archives are called: the library holds one member for each
    staged name; every member is a member of one of the archives under its
    staged name; and of the members that get the same staged name, the one
    of the archive that [os.walk] reports last, in the order in which the
    file system lists the directories, is the one in the library. *)
Theorem merged_library_last_wins platform limit order run_cmd (b : Build) (w : World) :
  build_folder b = default_build (library_folder b) ->
  (String.eqb platform "darwin" = true -> exists_ homebrew_binutils_path (fs w) = true) ->
  String.eqb platform "win32" = false ->
  isdir (build_folder b) (fs w) = true ->
  (forall d, get (aux_folder b) (fs w) <> Some (File d)) ->
  (forall d, get (library_path b) (fs w) <> Some (File d)) ->
  (forall binutils dir x r,
     merge_command dir x = Some r -> run_cmd (merge_command_line binutils) dir x = r) ->
  (forall rf, rf ∈ walked_files (walk order (mcu_folder b ++ ["install"; "lib"]) (fs w)) ->
     well_named (fs w) rf /\ NoDup (archive_members (fs w) rf).*1) ->
  exists members,
    get (library b)
        (fs (final_state (package_mcu_library platform limit order run_cmd b w)))
    = Some (File (Archive members)) /\
    NoDup members.*1 /\
    (forall k d, (k, d) ∈ members ->
       exists rf m,
         rf ∈ walked_files (walk order (mcu_folder b ++ ["install"; "lib"]) (fs w)) /\
         (m, d) ∈ archive_members (fs w) rf /\ k = staged_name rf.2 m) /\
    (forall pre rf post m d,
       walked_files (walk order (mcu_folder b ++ ["install"; "lib"]) (fs w))
       = pre ++ rf :: post ->
       (m, d) ∈ archive_members (fs w) rf ->
       (forall rf' m', rf' ∈ post -> m' ∈ (archive_members (fs w) rf').*1 ->
          staged_name rf'.2 m' <> staged_name rf.2 m) ->
       (staged_name rf.2 m, d) ∈ members).
Proof.
  intros Hlayout Hbin Hposix Hbuild Hauxf Hlpf Htools Hmembers.
  destruct (package_library_staged platform limit order run_cmd b w
              Hlayout Hbin Hbuild Hauxf Hlpf Htools Hmembers)
    as (members & Hperm & Hlib).
  { intros Hwin. congruence. }
  exists members. split; [exact Hlib|]. split; [|split].
  - rewrite Hperm. apply NoDup_fst_map_to_list.
  - intros k d Hk. rewrite Hperm in Hk. apply elem_of_map_to_list in Hk.
    apply stage_map_origin in Hk as [Hk|Hk]; [now rewrite lookup_empty in Hk|exact Hk].
  - intros pre rf post m d Hfiles Hm Hlast. rewrite Hperm.
    apply elem_of_map_to_list. rewrite Hfiles. apply stage_map_last; [|done..].
    apply Hmembers. rewrite Hfiles. apply elem_of_app. right. apply list_elem_of_here.
Qed.

(** Two archives called [libfoo.a], both with a member [main.obj], in
    directories that are listed last one first. *)
Lemma merged_library_last_wins_witness :
  exists members,
    get (library Samples.sample_build)
        (fs (final_state (package_mcu_library "linux" 8 Samples.backwards Samples.tools
                            Samples.sample_build (Samples.world_of Samples.same_stem_tree))))
    = Some (File (Archive members)) /\
    NoDup members.*1 /\
    (forall k d, (k, d) ∈ members ->
       exists rf m,
         rf ∈ walked_files (walk Samples.backwards
                              (mcu_folder Samples.sample_build ++ ["install"; "lib"])
                              (fs (Samples.world_of Samples.same_stem_tree))) /\
         (m, d) ∈ archive_members (fs (Samples.world_of Samples.same_stem_tree)) rf /\
         k = staged_name rf.2 m) /\
    (forall pre rf post m d,
       walked_files (walk Samples.backwards
                       (mcu_folder Samples.sample_build ++ ["install"; "lib"])
                       (fs (Samples.world_of Samples.same_stem_tree)))
       = pre ++ rf :: post ->
       (m, d) ∈ archive_members (fs (Samples.world_of Samples.same_stem_tree)) rf ->
       (forall rf' m', rf' ∈ post ->
          m' ∈ (archive_members (fs (Samples.world_of Samples.same_stem_tree)) rf').*1 ->
          staged_name rf'.2 m' <> staged_name rf.2 m) ->
       (staged_name rf.2 m, d) ∈ members).
Proof.
  apply (merged_library_last_wins "linux" 8 Samples.backwards Samples.tools
           Samples.sample_build (Samples.world_of Samples.same_stem_tree)).
  - reflexivity.
  - discriminate.
  - reflexivity.
  - reflexivity.
  - intros d. vm_compute. discriminate.
  - intros d. vm_compute. discriminate.
  - intros binutils dir x r Hr. unfold Samples.tools. now rewrite Hr.
  - intros rf Hrf. vm_compute in Hrf.
    repeat (apply elem_of_cons in Hrf as [->|Hrf]); [| |now apply not_elem_of_nil in Hrf].
    + split; [split; [reflexivity|]|].
      * intros m Hm. vm_compute in Hm.
        repeat (apply elem_of_cons in Hm as [->|Hm]); [split; reflexivity|].
        now apply not_elem_of_nil in Hm.
      * vm_compute. repeat (apply NoDup_cons; split; [set_solver|]). apply NoDup_nil_2.
    + split; [split; [reflexivity|]|].
      * intros m Hm. vm_compute in Hm.
        repeat (apply elem_of_cons in Hm as [->|Hm]); [split; reflexivity|].
        now apply not_elem_of_nil in Hm.
      * vm_compute. repeat (apply NoDup_cons; split; [set_solver|]). apply NoDup_nil_2.
Defined.

End StagingLaws.

(** ** Installing the headers *)

Module HeaderLaws.
Import FS Shutil Pipeline Merge FSFacts PipelineFacts ShutilFacts MergeFacts.
Import ShutilLaws ShutilExact MergeLaws FlattenLaws.

Lemma package_steps_triple platform limit order run_cmd (b : Build) (n0 : node) :
  (forall c dir x q, apart dir q -> get q (run_cmd c dir x).2 = get q x) ->
  triple (fun w => fs w = n0) (package_mcu_library platform limit order run_cmd b)
    (fun _ w' => exists n8 n9,
       (forall q, apart (aux_folder b) q -> apart (library_path b) q ->
                  get q n8 = get q n0) /\
       copytree limit ignore_nothing Copy2 false
         (build_folder b ++ ["mcu"; "install"; "include"]) (includes b) n8 = (n9, None) /\
       flatten_includes limit (includes b) n9 = (fs w', None))
    (fun _ => True).
Proof.
  intros Hlocal. unfold package_mcu_library.
  set (Inv := fun w : World =>
    forall q, apart (aux_folder b) q -> apart (library_path b) q ->
              get q (fs w) = get q n0).
  eapply (triple_bind _ _ _ (fun _ => Inv)).
  { intros w Hw0. assert (Hw : Inv w) by (intros q _ _; now rewrite Hw0).
    unfold resolve_binutils_path.
    destruct (String.eqb platform "darwin"); [|exact Hw].
    destruct (exists_ homebrew_binutils_path (fs w)); [exact Hw|].
    unfold bind, print, sys_exit. simpl. now split. }
  intros binutils. eapply (triple_bind _ _ _ (fun _ => Inv)).
  { intros w Hw q Hq1 Hq2. simpl. rewrite get_rmtree_ignore_apart by done. now apply Hw. }
  intros []. eapply (triple_bind _ _ _ (fun _ => Inv)).
  { intros w Hw q Hq1 Hq2. simpl. rewrite get_rmtree_ignore_apart by done. now apply Hw. }
  intros []. eapply (triple_bind _ _ _ (fun _ => Inv)).
  { apply triple_fs_call; [|auto]. intros w x Hw Hmk q Hq1 Hq2. simpl.
    rewrite (get_makedirs_frame _ q _ _ Hmk); [now apply Hw|]. apply Hq1. }
  intros []. eapply (triple_bind _ _ _ (fun _ => Inv)).
  { apply triple_fs_call; [|auto]. intros w x Hw Hmk q Hq1 Hq2. simpl.
    rewrite (get_makedirs_frame _ q _ _ Hmk); [now apply Hw|]. apply Hq2. }
  intros []. eapply (triple_bind _ _ _ (fun _ => Inv)).
  { intros w Hw.
    destruct (stage_archives platform run_cmd binutils (aux_folder b) _ w)
      as [[] w1|c w1|e w1] eqn:Hst.
    - intros q Hq1 Hq2.
      pose proof (stage_archives_frame (aux_folder b) q (get q n0) platform run_cmd
                    Hq1 Hlocal binutils
                    (walk order (mcu_folder b ++ ["install"; "lib"]) (fs w)) w
                    (Hw q Hq1 Hq2)) as H.
      now rewrite Hst in H.
    - assert (Hx : apart (aux_folder b) (build_folder b ++ ["x"]))
        by now apply (apart_diverge (build_folder b) [] []).
      pose proof (stage_archives_frame (aux_folder b) (build_folder b ++ ["x"])
                    (get (build_folder b ++ ["x"]) (fs w)) platform run_cmd Hx Hlocal
                    binutils
                    (walk order (mcu_folder b ++ ["install"; "lib"]) (fs w)) w eq_refl) as H.
      rewrite Hst in H. now destruct H.
    - done. }
  intros []. eapply (triple_bind _ _ _ (fun _ w => Inv w /\ cwd w = aux_folder b)).
  { intros w Hw. unfold chdir.
    destruct (get (aux_folder b) (fs w)) as [[|es]|]; done. }
  intros []. eapply (triple_bind _ _ _ (fun _ w => Inv w /\ cwd w = aux_folder b)).
  { intros w [Hw Hcwd]. unfold run_merge.
    destruct (run_cmd _ (cwd w) (fs w)) as [rc x] eqn:Hrun. split; [|exact Hcwd].
    intros q Hq1 Hq2. simpl.
    specialize (Hlocal (merge_command_line binutils) (cwd w) (fs w) q).
    rewrite Hrun in Hlocal. simpl in Hlocal. rewrite Hlocal; [now apply Hw|].
    now rewrite Hcwd. }
  intros rc. destruct (negb (rc =? 0)%Z).
  { intros w [Hw _]. unfold bind, print, sys_exit. simpl. now split. }
  eapply (triple_bind _ _ _ (fun _ => Inv)).
  { intros w [Hw Hcwd]. unfold fs_call.
    destruct (os_rename _ _ _ (fs w)) as [e|x] eqn:Hmv; [done|].
    unfold os_rename in Hmv. destruct (_ && _); [done|].
    intros q Hq1 Hq2. simpl. rewrite <- (Hw q Hq1 Hq2).
    eapply get_rename_apart; [| |exact Hmv].
    - rewrite Hcwd. now apply apart_app_l.
    - unfold library. now apply apart_app_l. }
  intros []. eapply (triple_bind _ _ _ (fun _ w => exists n8,
    Inv {| fs := n8; cwd := cwd w; stdout := stdout w; commands := commands w;
           env := env w; pkgs := pkgs w |} /\
    copytree limit ignore_nothing Copy2 false
      (build_folder b ++ ["mcu"; "install"; "include"]) (includes b) n8 = (fs w, None))).
  { intros w Hw. unfold fs_try.
    destruct (copytree limit ignore_nothing Copy2 false _ (includes b) (fs w))
      as [x [e|]] eqn:Hcp; [done|].
    exists (fs w). split; [exact Hw|exact Hcp]. }
  intros [] w (n8 & Hn8 & Hcp). unfold fs_try.
  destruct (flatten_includes limit (includes b) (fs w)) as [x [e|]] eqn:Hfl; [done|].
  exists n8, (fs w). split; [exact Hn8|]. split; [exact Hcp|exact Hfl].
Qed.

(** When the merge step returns, the include root was first an exact
    copy of the install tree's include root and then went through the
    flatten pass. *)
Lemma package_include_trees platform limit order run_cmd (b : Build) (w w' : World) :
  build_folder b = default_build (library_folder b) ->
  (forall c dir x q, apart dir q -> get q (run_cmd c dir x).2 = get q x) ->
  package_mcu_library platform limit order run_cmd b w = Returns tt w' ->
  exists n9,
    (forall p, get (includes b ++ p) n9
               = get ((build_folder b ++ ["mcu"; "install"; "include"]) ++ p) (fs w)) /\
    flatten_includes limit (includes b) n9 = (fs w', None).
Proof.
  intros Hlayout Hlocal Hrun.
  pose proof (package_steps_triple platform limit order run_cmd b (fs w) Hlocal w eq_refl) as H.
  rewrite Hrun in H. destruct H as (n8 & n9 & Hn8 & Hcp & Hfl).
  exists n9. split; [|exact Hfl]. intros p.
  set (inst := build_folder b ++ ["mcu"; "install"; "include"]) in *.
  assert (Hap : apart inst (includes b)).
  { unfold inst, includes, library_path. rewrite Hlayout. unfold default_build.
    rewrite <- !app_assoc. now apply apart_diverge. }
  rewrite !get_app.
  rewrite (copytree_exact ignore_nothing false (fun _ => eq_refl) limit inst (includes b)
             n8 n9 Hap (copytree_fresh_inv _ _ _ _ _ _ _ Hcp) Hcp).
  rewrite Hn8; [done| |].
  - unfold inst, aux_folder. now apply (apart_diverge (build_folder b) [] [_; _]).
  - unfold inst, library_path. rewrite Hlayout. unfold default_build.
    rewrite <- !app_assoc. now apply (apart_diverge (library_folder b) [] [_; _; _]).
Qed.

(** X19: a folder of the install tree's include root that has no entry of its
    own name is, after a merge step that returned, in the include root of
    the library exactly as it is in the install tree. *)
Theorem package_installs_plain_folders platform limit order run_cmd (b : Build) (w w' : World)
    (g : string) :
  build_folder b = default_build (library_folder b) ->
  (forall c dir x q, apart dir q -> get q (run_cmd c dir x).2 = get q x) ->
  package_mcu_library platform limit order run_cmd b w = Returns tt w' ->
  get (build_folder b ++ ["mcu"; "install"; "include"; g; g]) (fs w) = None ->
  get (includes b ++ [g]) (fs w')
  = get (build_folder b ++ ["mcu"; "install"; "include"; g]) (fs w).
Proof.
  intros Hlayout Hlocal Hrun Hplain.
  destruct (package_include_trees _ _ _ _ _ _ _ Hlayout Hlocal Hrun) as (n9 & Hcopy & Hfl).
  rewrite (flatten_plain _ _ g _ _ _ Hfl).
  - rewrite Hcopy. now rewrite <- app_assoc.
  - rewrite Hcopy. now rewrite <- app_assoc.
Qed.

(** X20: a header that the install tree has at [<folder>/<folder>/<rest>] is,
    after a merge step that returned, at [<folder>/<rest>] in the include
    root of the library, provided the install tree has no directory at
    [<folder>/<rest>] and no [<folder>/<folder>/<folder>]. *)
Theorem package_installs_nested_headers platform limit order run_cmd (b : Build) (w w' : World)
    (g : string) (rel : path) (d : fdata) :
  build_folder b = default_build (library_folder b) ->
  (forall c dir x q, apart dir q -> get q (run_cmd c dir x).2 = get q x) ->
  package_mcu_library platform limit order run_cmd b w = Returns tt w' ->
  get (build_folder b ++ ["mcu"; "install"; "include"; g; g; g]) (fs w) = None ->
  rel <> [] ->
  get (build_folder b ++ ["mcu"; "install"; "include"] ++ g :: g :: rel) (fs w)
    = Some (File d) ->
  (forall es, get (build_folder b ++ ["mcu"; "install"; "include"] ++ g :: rel) (fs w)
              <> Some (Dir es)) ->
  get (includes b ++ g :: rel) (fs w') = Some (File d).
Proof.
  intros Hlayout Hlocal Hrun Hthird Hne Hfile Hfree.
  destruct (package_include_trees _ _ _ _ _ _ _ Hlayout Hlocal Hrun) as (n9 & Hcopy & Hfl).
  apply (flatten_places _ _ g rel d _ _ Hfl).
  - rewrite Hcopy. now rewrite <- app_assoc.
  - exact Hne.
  - rewrite Hcopy. now rewrite <- app_assoc.
  - intros es. rewrite Hcopy. rewrite <- app_assoc. apply Hfree.
Qed.

Lemma package_installs_plain_folders_witness :
  get (includes Samples.sample_build ++ ["rmw"])
      (fs (final_state (package_mcu_library "linux" 8 Samples.as_listed Samples.tools
                          Samples.sample_build (Samples.world_of Samples.built_tree))))
  = get (build_folder Samples.sample_build ++ ["mcu"; "install"; "include"; "rmw"])
        (fs (Samples.world_of Samples.built_tree)).
Proof.
  apply (package_installs_plain_folders "linux" 8 Samples.as_listed Samples.tools
           Samples.sample_build (Samples.world_of Samples.built_tree)).
  - reflexivity.
  - intros c dir x q. apply tools_local.
  - vm_compute. reflexivity.
  - reflexivity.
Defined.

Lemma package_installs_nested_headers_witness :
  get (includes Samples.sample_build ++ "rcl" :: ["rcl.h"])
      (fs (final_state (package_mcu_library "linux" 8 Samples.as_listed Samples.tools
                          Samples.sample_build (Samples.world_of Samples.built_tree))))
  = Some (File (Blob "rcl header")).
Proof.
  apply (package_installs_nested_headers "linux" 8 Samples.as_listed Samples.tools
           Samples.sample_build (Samples.world_of Samples.built_tree)).
  - reflexivity.
  - intros c dir x q. apply tools_local.
  - vm_compute. reflexivity.
  - reflexivity.
  - discriminate.
  - reflexivity.
  - intros es. vm_compute. discriminate.
Defined.

End HeaderLaws.

(** ** More on the driver *)

Module DriverLaws.
Import FS Shutil Pipeline Merge Driver FSFacts PipelineFacts ShutilFacts MergeFacts.
Import ShutilLaws MergeLaws.

(** X21: when the overlay runs to its end, every file of the caller's folder
    that has no path component called [extra_packages.repos] is at the
    same relative path of the target sources, whether it replaced a file
    or is new there, unless a directory had that path. *)
Theorem overlay_places_files (limit : nat) (b : Build) (tree tree' : node)
    (rel : path) (d : fdata) :
  apart (packages_folder b) (mcu_src_folder b) ->
  overlay_packages limit b tree = (tree', None) ->
  rel <> [] -> "extra_packages.repos" ∉ rel ->
  get (packages_folder b ++ rel) tree = Some (File d) ->
  (forall es, get (mcu_src_folder b ++ rel) tree <> Some (Dir es)) ->
  get (mcu_src_folder b ++ rel) tree' = Some (File d).
Proof.
  intros Hap Hrun Hne Hrel Hfile Hfree. unfold overlay_packages in Hrun.
  apply (copytree_places ignore_manifest Copy2 true limit _ _ _ _ rel d Hap Hrun);
    try done.
  now apply DriverFacts.not_ignored_iff.
Qed.

Lemma overlay_places_files_witness :
  get (mcu_src_folder Samples.sample_build ++ ["new_pkg"; "package.xml"])
      (overlay_packages 8 Samples.sample_build Samples.new_package_tree).1
  = Some (File (Blob "new package")).
Proof.
  apply (overlay_places_files 8 Samples.sample_build Samples.new_package_tree
           (overlay_packages 8 Samples.sample_build Samples.new_package_tree).1
           ["new_pkg"; "package.xml"] (Blob "new package")).
  - apply (apart_diverge ["proj"] [] ["mcu"; "src"]). discriminate.
  - vm_compute. reflexivity.
  - discriminate.
  - intros Hin. repeat (apply elem_of_cons in Hin as [Hin|Hin]; [discriminate Hin|]).
    now apply not_elem_of_nil in Hin.
  - reflexivity.
  - intros es. vm_compute. discriminate.
Defined.

Section Runs.
Variable platform : string.
Variable python_exec : string.
Variable limit : nat.
Variable order : path -> list string -> list string.
Variable run_cmd : string -> path -> node -> Z * node.
Context {Repository : Type}.
Variable dev_environments : list Repository.
Variable mcu_environments : list Repository.
Variable ignore_packages : list string.
Variable clone : Repository -> path -> World -> outcome World unit.
Variable get_packages :
  Repository -> gmap Packages.loc Packages.Package ->
  list Packages.loc * gmap Packages.loc Packages.Package.
Variable load_yaml : path -> node -> Manifest.load_result.
Variable clone_extra :
  Manifest.scalar -> Manifest.repo -> path -> World -> outcome World unit.
Variables (distro python_env : string).

(** X22: a build that has returned normally is not repeated: the next [run],
    with whatever arguments, finds the library, prints one line and
    returns, leaving everything else as the first run left it. *)
Theorem run_again_is_noop (b : Build) (meta toolchain user_meta : string)
    (meta' toolchain' user_meta' : string) (w w' : World) :
  build_folder b = default_build (library_folder b) ->
  run platform python_exec limit order run_cmd dev_environments mcu_environments
      ignore_packages clone get_packages load_yaml clone_extra distro python_env
      b meta toolchain user_meta w = Returns tt w' ->
  run platform python_exec limit order run_cmd dev_environments mcu_environments
      ignore_packages clone get_packages load_yaml clone_extra distro python_env
      b meta' toolchain' user_meta' w'
  = Returns tt {| fs := fs w'; cwd := cwd w';
                  stdout := stdout w' ++ ["micro-ROS already built"];
                  commands := commands w'; env := env w'; pkgs := pkgs w' |}.
Proof.
  intros Hlayout Hrun.
  assert (Hbuilt : exists_ (library b) (fs w') = true).
  { unfold run in Hrun. destruct (exists_ (library b) (fs w)) eqn:Hex.
    - injection Hrun as <-. exact Hex.
    - apply bind_Returns in Hrun as ([] & w1 & _ & Hrun).
      apply bind_Returns in Hrun as ([] & w2 & _ & Hrun).
      apply bind_Returns in Hrun as ([] & w3 & _ & Hrun).
      apply bind_Returns in Hrun as ([] & w4 & _ & Hrun).
      apply bind_Returns in Hrun as ([] & w5 & _ & Hrun).
      apply bool_decide_eq_true.
      now apply (package_returns _ _ _ _ _ _ _ Hlayout Hrun). }
  unfold run. now rewrite Hbuilt.
Qed.

(** X23: while the library is missing, a shell whose commands all report
    failure never lets [run] return normally. *)
Theorem run_fails_with_failing_shell (b : Build) (meta toolchain user_meta : string)
    (w : World) :
  exists_ (library b) (fs w) = false ->
  (forall c dir x, (run_cmd c dir x).1 <> 0%Z) ->
  match run platform python_exec limit order run_cmd dev_environments
            mcu_environments ignore_packages clone get_packages load_yaml
            clone_extra distro python_env b meta toolchain user_meta w with
  | Returns _ _ => False
  | _ => True
  end.
Proof.
  intros Hex Hfail.
  destruct (run _ _ _ _ _ _ _ _ _ _ _ _ _ _ _ _ _ _ w) as [[] w'| |] eqn:Hrun; [|done..].
  unfold run in Hrun. rewrite Hex in Hrun.
  apply bind_Returns in Hrun as ([] & w1 & _ & Hrun).
  apply bind_Returns in Hrun as ([] & w2 & _ & Hrun).
  apply bind_Returns in Hrun as ([] & w3 & Hdev & _).
  unfold build_dev_environment in Hdev.
  apply bind_Returns in Hdev as ([] & w2' & _ & Hdev).
  destruct (source_commands platform python_env) as [source_cmd generator_flag].
  unfold run_or_exit in Hdev.
  match type of Hdev with context [run_cmd ?c ?d ?x] =>
    pose proof (Hfail c d x) as Hrc; destruct (run_cmd c d x) as [rc x'] end.
  simpl in Hrc. apply Z.eqb_neq in Hrc. rewrite Hrc in Hdev. done.
Qed.





(** *** What fetching the extra packages leaves alone *)

Lemma frame_bind {A B} (q : path) (m : World -> outcome World A)
    (k : A -> World -> outcome World B) :
  (forall w, get q (fs (final_state (m w))) = get q (fs w)) ->
  (forall a w, get q (fs (final_state (k a w))) = get q (fs w)) ->
  forall w, get q (fs (final_state (bind m k w))) = get q (fs w).
Proof.
  intros Hm Hk w. unfold bind. specialize (Hm w).
  destruct (m w) as [a w1|c w1|e w1]; [|exact Hm..].
  simpl in Hm. now rewrite Hk.
Qed.

Lemma frame_for_each {A} (q : path) (l : list A)
    (body : A -> World -> outcome World unit) :
  (forall x w, get q (fs (final_state (body x w))) = get q (fs w)) ->
  forall w, get q (fs (final_state (for_each l body w))) = get q (fs w).
Proof.
  intros Hbody. induction l as [|x l IH]; [done|].
  cbn [for_each]. apply frame_bind; [apply Hbody|]. intros []. exact IH.
Qed.

(** X25: fetching the extra packages writes below the target source folder
    only, given that cloning a repository into a folder writes below
    that folder only.  However it ends, every other path holds what it
    held; when the caller's folder lies apart from the target sources this
    includes all of the caller's folder. *)
Theorem download_extra_packages_frame (b : Build) (w : World) (q : path) :
  (forall k r dst w0 q0, apart dst q0 ->
     get q0 (fs (final_state (clone_extra k r dst w0))) = get q0 (fs w0)) ->
  apart (mcu_src_folder b) q ->
  get q (fs (final_state (download_extra_packages limit load_yaml clone_extra b w)))
  = get q (fs w).
Proof.
  intros Hclone Hq. unfold download_extra_packages.
  destruct (negb (exists_ (packages_folder b) (fs w))); [done|].
  revert w. apply frame_bind; [done|]. intros [].
  apply frame_bind.
  { intros w. now destruct (Manifest.get_repositories_from_yaml _ _). }
  intros extra_repos. apply frame_bind.
  { apply frame_for_each. intros kv. apply frame_bind; [|done].
    intros w. now apply Hclone. }
  intros []. apply frame_bind.
  { intros w. now destruct (listdir _ _). }
  intros extra_folders. apply frame_bind.
  { now apply frame_for_each. }
  intros [] w. unfold fs_try, overlay_packages.
  destruct (copytree limit ignore_manifest Copy2 true _ _ (fs w)) as [x r] eqn:Hcp.
  eapply (confined_copytree (mcu_src_folder b) _ Copy2) in Hcp as [Hframe _].
  - destruct r; simpl; now apply Hframe.
  - discriminate.
  - exists []. now rewrite app_nil_r.
Qed.

End Runs.

Lemma run_again_is_noop_witness :
  let first :=
    run "linux" "/usr/bin/python3" 8 Samples.as_listed Samples.working_shell
        (@nil unit) (@nil unit) [] (fun _ _ => ret tt) (fun _ h => ([], h))
        (fun _ _ => Manifest.Absent) (fun _ _ _ => ret tt) "jazzy" "venv/bin/activate"
        Samples.sample_build "colcon.meta" "toolchain.cmake" ""
        (Samples.world_of Samples.unbuilt_tree) in
  run "linux" "/usr/bin/python3" 8 Samples.as_listed Samples.working_shell
      (@nil unit) (@nil unit) [] (fun _ _ => ret tt) (fun _ h => ([], h))
      (fun _ _ => Manifest.Absent) (fun _ _ _ => ret tt) "jazzy" "venv/bin/activate"
      Samples.sample_build "other.meta" "toolchain.cmake" "user.meta" (final_state first)
  = Returns tt {| fs := fs (final_state first); cwd := cwd (final_state first);
                  stdout := stdout (final_state first) ++ ["micro-ROS already built"];
                  commands := commands (final_state first);
                  env := env (final_state first); pkgs := pkgs (final_state first) |}.
Proof.
  intros first.
  apply (run_again_is_noop "linux" "/usr/bin/python3" 8 Samples.as_listed Samples.working_shell
           (@nil unit) (@nil unit) [] (fun _ _ => ret tt) (fun _ h => ([], h))
           (fun _ _ => Manifest.Absent) (fun _ _ _ => ret tt) "jazzy" "venv/bin/activate"
           Samples.sample_build "colcon.meta" "toolchain.cmake" ""
           "other.meta" "toolchain.cmake" "user.meta"
           (Samples.world_of Samples.unbuilt_tree) (final_state first)).
  - reflexivity.
  - vm_compute. reflexivity.
Defined.

Lemma run_fails_with_failing_shell_witness :
  match run "linux" "/usr/bin/python3" 8 Samples.as_listed Samples.failing_cmd
            (@nil unit) (@nil unit) [] (fun _ _ => ret tt) (fun _ h => ([], h))
            (fun _ _ => Manifest.Absent) (fun _ _ _ => ret tt) "jazzy" "venv/bin/activate"
            Samples.sample_build "colcon.meta" "toolchain.cmake" ""
            (Samples.world_of Samples.unbuilt_tree) with
  | Returns _ _ => False
  | _ => True
  end.
Proof.
  apply (run_fails_with_failing_shell "linux" "/usr/bin/python3" 8 Samples.as_listed Samples.failing_cmd
           (@nil unit) (@nil unit) [] (fun _ _ => ret tt) (fun _ h => ([], h))
           (fun _ _ => Manifest.Absent) (fun _ _ _ => ret tt) "jazzy" "venv/bin/activate"
           Samples.sample_build "colcon.meta" "toolchain.cmake" ""
           (Samples.world_of Samples.unbuilt_tree)).
  - reflexivity.
  - discriminate.
Defined.

Lemma download_extra_packages_frame_witness :
  get ["proj"; "extra_packages"; "foo.txt"]
      (fs (final_state (download_extra_packages 8 (fun _ _ => Manifest.Absent)
                          (fun _ _ _ => ret tt) Samples.sample_build
                          (Samples.world_of Samples.overlay_tree))))
  = get ["proj"; "extra_packages"; "foo.txt"] (fs (Samples.world_of Samples.overlay_tree)).
Proof.
  apply (download_extra_packages_frame 8 (fun _ _ => Manifest.Absent)
           (fun _ _ _ => ret tt) Samples.sample_build
           (Samples.world_of Samples.overlay_tree)).
  - reflexivity.
  - apply (apart_diverge ["proj"] ["mcu"; "src"] ["foo.txt"]). discriminate.
Defined.

End DriverLaws.
